(** * Telegram-Claude bridge and its watchdog: a shallow embedding

    The development follows [bridge.js] (formatter, transport client,
    dispatcher, poll loop) and [watchdog.js] (supervisor).  JavaScript
    strings are sequences of UTF-16 code units; every asynchronous call of
    the bridge is awaited where it is made, so an [async] function is a
    state transformer whose effects are appended to an event trace in the
    order in which they happen. *)

From Stdlib Require Import String Ascii DecimalString DecimalZ.
From Stdlib Require Import ZArith Lia Bool Arith List Sorted.
Import ListNotations.
Open Scope Z_scope.

(** ** JavaScript strings *)

Module JS.

Definition jsstring := list Z.

(** An ASCII literal as a JavaScript string. *)
Definition lit (s : string) : jsstring :=
  map (fun a => Z.of_N (N_of_ascii a)) (list_ascii_of_string s).

Definition NL : jsstring := [10].

(** [a === b] on strings. *)
Fixpoint eqb (a b : jsstring) : bool :=
  match a, b with
  | [], [] => true
  | x :: a', y :: b' => (x =? y) && eqb a' b'
  | _, _ => false
  end.

(** [!text] for a string: only the empty string is falsy. *)
Definition falsy (s : jsstring) : bool :=
  match s with [] => true | _ => false end.

(** WhiteSpace and LineTerminator code units: what [trim] strips and what
    the pattern class [\s] matches. *)
Definition is_space (c : Z) : bool :=
  ((9 <=? c) && (c <=? 13)) || (c =? 32) || (c =? 160) || (c =? 5760)
  || ((8192 <=? c) && (c <=? 8202)) || (c =? 8232) || (c =? 8233)
  || (c =? 8239) || (c =? 8287) || (c =? 12288) || (c =? 65279).

Definition is_line_terminator (c : Z) : bool :=
  (c =? 10) || (c =? 13) || (c =? 8232) || (c =? 8233).

Fixpoint dropWhile (p : Z -> bool) (s : jsstring) : jsstring :=
  match s with
  | [] => []
  | c :: rest => if p c then dropWhile p rest else s
  end.

Definition trimStart (s : jsstring) : jsstring := dropWhile is_space s.
Definition trimEnd (s : jsstring) : jsstring := rev (dropWhile is_space (rev s)).
Definition trim (s : jsstring) : jsstring := trimEnd (trimStart s).

(** [s.substring(n)] and [s.substring(0, n)]. *)
Definition substring_from (n : nat) (s : jsstring) : jsstring := skipn n s.
Definition substring_to (n : nat) (s : jsstring) : jsstring := firstn n s.

Fixpoint startsWith (prefix s : jsstring) : bool :=
  match prefix, s with
  | [], _ => true
  | p :: prefix', c :: s' => (p =? c) && startsWith prefix' s'
  | _ :: _, [] => false
  end.

(** [s.split(sep)] for a one-unit separator: never the empty list. *)
Fixpoint split (sep : Z) (s : jsstring) : list jsstring :=
  match s with
  | [] => [[]]
  | c :: rest =>
      if c =? sep then [] :: split sep rest
      else match split sep rest with
           | [] => [[c]]
           | cell :: cells => (c :: cell) :: cells
           end
  end.

Fixpoint join (sep : jsstring) (cells : list jsstring) : jsstring :=
  match cells with
  | [] => []
  | [cell] => cell
  | cell :: rest => cell ++ sep ++ join sep rest
  end.

(** [String(n)] for an integer. *)
Definition String_of_Z (n : Z) : jsstring :=
  lit (NilZero.string_of_int (Z.to_int n)).

(** [parseInt] on a run of decimal digits. *)
Definition parseInt_digits (s : jsstring) : Z :=
  fold_left (fun acc c => 10 * acc + (c - 48)) s 0.

End JS.

Import JS.

(** ** Patterns

    A backtracking matcher in continuation style for the pattern syntax the
    bridge uses: literals, classes, [.], concatenation, greedy and lazy
    bounded repetition, capture groups, one-unit negative look-behind and
    look-ahead, and the multi-line anchors. *)

Module Regex.

Inductive cls :=
| CChar (c : Z)
| CRange (lo hi : Z)
| CSpace          (* \s *)
| CWord           (* \w *)
| CDigit.         (* \d *)

Definition in_cls (c : Z) (k : cls) : bool :=
  match k with
  | CChar x => c =? x
  | CRange lo hi => (lo <=? c) && (c <=? hi)
  | CSpace => is_space c
  | CWord => ((48 <=? c) && (c <=? 57)) || ((65 <=? c) && (c <=? 90))
             || ((97 <=? c) && (c <=? 122)) || (c =? 95)
  | CDigit => (48 <=? c) && (c <=? 57)
  end.

Definition in_set (neg : bool) (items : list cls) (c : Z) : bool :=
  xorb neg (existsb (in_cls c) items).

Inductive regex :=
| RChar (c : Z)
| RSet (neg : bool) (items : list cls)
| RDot
| RSeq (a b : regex)
| RRepeat (min : nat) (max : option nat) (greedy : bool) (a : regex)
| RGroup (i : nat) (a : regex)
| RNotBehind (items : list cls)
| RNotAhead (items : list cls)
| RBol            (* ^ with flag m *)
| REol            (* $ with flag m *)
| RStart          (* ^ without flag m *)
| REnd.           (* $ without flag m *)

(** A position: the unit just before it, if any, and the rest of the input. *)
Definition pos := (option Z * jsstring)%type.
Definition caps := list (nat * jsstring).
Definition result := option (pos * caps).
Definition cont := pos -> caps -> result.

Definition consumed (p p' : pos) : jsstring :=
  firstn (length (snd p) - length (snd p')) (snd p).

Definition step_unit (ok : Z -> bool) (p : pos) (c : caps) (k : cont) : result :=
  match snd p with
  | y :: rest => if ok y then k (Some y, rest) c else None
  | [] => None
  end.

Definition orElse (a : result) (b : unit -> result) : result :=
  match a with
  | Some r => Some r
  | None => b tt
  end.

Definition dec_max (max : option nat) : option nat :=
  match max with
  | Some n => Some (pred n)
  | None => None
  end.

Fixpoint m (r : regex) (p : pos) (c : caps) (k : cont) {struct r} : result :=
  match r with
  | RChar x => step_unit (Z.eqb x) p c k
  | RSet neg items => step_unit (in_set neg items) p c k
  | RDot => step_unit (fun y => negb (is_line_terminator y)) p c k
  | RSeq a b => m a p c (fun p' c' => m b p' c' k)
  | RGroup i a => m a p c (fun p' c' => k p' ((i, consumed p p') :: c'))
  | RRepeat min max greedy a =>
      (fix rep (fuel min : nat) (max : option nat) (p : pos) (c : caps) {struct fuel} : result :=
         match fuel with
         | O => None
         | S fuel' =>
             let more (_ : unit) :=
               match max with
               | Some O => None
               | _ =>
                   m a p c (fun p' c' =>
                     match min with
                     | O => if (length (snd p') <? length (snd p))%nat
                            then rep fuel' O (dec_max max) p' c'
                            else None
                     | S min' => rep fuel' min' (dec_max max) p' c'
                     end)
               end in
             match min with
             | S _ => more tt
             | O => if greedy then orElse (more tt) (fun _ => k p c)
                    else orElse (k p c) more
             end
         end) (S (min + length (snd p))) min max p c
  | RNotBehind items =>
      match fst p with
      | Some y => if existsb (in_cls y) items then None else k p c
      | None => k p c
      end
  | RNotAhead items =>
      match snd p with
      | y :: _ => if existsb (in_cls y) items then None else k p c
      | [] => k p c
      end
  | RBol =>
      match fst p with
      | Some y => if is_line_terminator y then k p c else None
      | None => k p c
      end
  | REol =>
      match snd p with
      | y :: _ => if is_line_terminator y then k p c else None
      | [] => k p c
      end
  | RStart =>
      match fst p with
      | Some _ => None
      | None => k p c
      end
  | REnd =>
      match snd p with
      | _ :: _ => None
      | [] => k p c
      end
  end.

Definition match_at (r : regex) (p : pos) : result :=
  m r p [] (fun p' c' => Some (p', c')).

(** The value of capture group [i]; the last binding made wins. *)
Fixpoint group (i : nat) (c : caps) : jsstring :=
  match c with
  | [] => []
  | (j, v) :: rest => if Nat.eqb i j then v else group i rest
  end.

(** [s.replace(/r/g, f)]: scan from the left; a match is replaced by
    [f matched captures] and scanning resumes after it (one unit further
    when the match is empty). *)
Fixpoint replace_from (r : regex) (f : jsstring -> caps -> jsstring)
  (fuel : nat) (p : pos) {struct fuel} : jsstring :=
  match fuel with
  | O => snd p
  | S fuel' =>
      let advance (_ : unit) :=
        match snd p with
        | [] => []
        | y :: rest => y :: replace_from r f fuel' (Some y, rest)
        end in
      match match_at r p with
      | Some (p', c') =>
          if (length (snd p') <? length (snd p))%nat
          then f (consumed p p') c' ++ replace_from r f fuel' p'
          else f [] c' ++ advance tt
      | None => advance tt
      end
  end.

Definition replace_all (r : regex) (f : jsstring -> caps -> jsstring)
  (s : jsstring) : jsstring :=
  replace_from r f (S (length s)) (None, s).

(** Does the pattern match anywhere at or after the position? *)
Fixpoint has_match_from (r : regex) (prev : option Z) (s : jsstring) : bool :=
  match match_at r (prev, s) with
  | Some _ => true
  | None =>
      match s with
      | [] => false
      | y :: rest => has_match_from r (Some y) rest
      end
  end.

Definition has_match (r : regex) (s : jsstring) : bool :=
  has_match_from r None s.

Definition star (a : regex) := RRepeat 0 None true a.
Definition plus (a : regex) := RRepeat 1 None true a.
Definition opt (a : regex) := RRepeat 0 (Some 1%nat) true a.
Definition lazy_star (a : regex) := RRepeat 0 None false a.

Fixpoint seq (rs : list regex) : regex :=
  match rs with
  | [] => RRepeat 0 (Some 0%nat) true RDot
  | [r] => r
  | r :: rest => RSeq r (seq rest)
  end.

End Regex.

Import Regex.

(** ** Response formatter ([escapeHtml], [formatForTelegram]) *)

Module Format.

Definition ch (a : ascii) : Z := Z.of_N (N_of_ascii a).
Arguments ch a%_char.

Definition const (s : jsstring) : jsstring -> caps -> jsstring := fun _ _ => s.

Definition escapeHtml (text : jsstring) : jsstring :=
  let text := replace_all (RChar (ch "&")) (const (lit "&amp;")) text in
  let text := replace_all (RChar (ch "<")) (const (lit "&lt;")) text in
  replace_all (RChar (ch ">")) (const (lit "&gt;")) text.

(** [/[\u{1D400}-\u{1D7FF}]/gu]: in UTF-16 these code points are the high
    surrogate D835 followed by any low surrogate. *)
Definition re_math : regex :=
  RSeq (RChar 55349) (RSet false [CRange 56320 57343]).

Definition codePointAt0 (s : jsstring) : Z :=
  match s with
  | hi :: lo :: _ => 65536 + (hi - 55296) * 1024 + (lo - 56320)
  | hi :: [] => hi
  | [] => 0
  end.

Definition math_to_ascii (char : jsstring) (_ : caps) : jsstring :=
  let code := codePointAt0 char in
  if (119808 <=? code) && (code <=? 119833) then [code - 119808 + 65]
  else if (119834 <=? code) && (code <=? 119859) then [code - 119834 + 97]
  else if (119860 <=? code) && (code <=? 119885) then [code - 119860 + 65]
  else if (119886 <=? code) && (code <=? 119911) then [code - 119886 + 97]
  else char.

Definition not_nl : regex := RSet true [CChar 10].
Definition sep_class : regex :=
  RSet false [CChar (ch "-"); CChar (ch ":"); CSpace; CChar (ch "|")].

(** [/\|([^\n]+)\|\n\|[-:\s|]+\|\n(ROWS)/g], where ROWS is the non-capturing
    group [(?:\|[^\n]+\|\n?)] under a greedy star. *)
Definition re_table : regex :=
  seq [RChar (ch "|"); RGroup 1 (plus not_nl); RChar (ch "|"); RChar 10;
       RChar (ch "|"); plus sep_class; RChar (ch "|"); RChar 10;
       RGroup 2 (star (seq [RChar (ch "|"); plus not_nl; RChar (ch "|");
                            opt (RChar 10)]))].

Definition cells_of (row : jsstring) : list jsstring :=
  filter (fun c => negb (falsy c)) (map trim (split (ch "|") row)).

Definition repeat_str (s : jsstring) (n : nat) : jsstring :=
  concat (repeat s n).

Definition table_to_text (_ : jsstring) (c : caps) : jsstring :=
  let header := group 1 c in
  let rows := group 2 c in
  let headerCells := cells_of header in
  let rowLines := map cells_of (split 10 (trim rows)) in
  let result := join (lit " | ") headerCells ++ NL in
  let result := result ++ repeat_str (lit "-") 40 ++ NL in
  fold_left (fun result cells => result ++ join (lit " | ") cells ++ NL)
    rowLines result.

(** [/^\|[-:\s|]+\|$/gm] *)
Definition re_separator : regex :=
  seq [RBol; RChar (ch "|"); plus sep_class; RChar (ch "|"); REol].

Definition any_unit : regex := RSet true [].
Definition tick : regex := RChar (ch "`").

(** Three backticks, group 1 = a greedy star of [\w], an optional newline,
    group 2 = a lazy star of [[\s\S]], three backticks; flag g. *)
Definition re_codeblock : regex :=
  seq [tick; tick; tick; RGroup 1 (star (RSet false [CWord])); opt (RChar 10);
       RGroup 2 (lazy_star any_unit); tick; tick; tick].

(** [/`([^`\n]+)`/g] *)
Definition re_inline : regex :=
  seq [tick; RGroup 1 (plus (RSet true [CChar (ch "`"); CChar 10])); tick].

(** [/\*\*([^*]+)\*\*/g] and [/__([^_]+)__/g] *)
Definition re_bold_star : regex :=
  seq [RChar (ch "*"); RChar (ch "*"); RGroup 1 (plus (RSet true [CChar (ch "*")]));
       RChar (ch "*"); RChar (ch "*")].
Definition re_bold_under : regex :=
  seq [RChar (ch "_"); RChar (ch "_"); RGroup 1 (plus (RSet true [CChar (ch "_")]));
       RChar (ch "_"); RChar (ch "_")].

Definition letters : list cls := [CRange 97 122; CRange 65 90].

(** [/(?<![a-zA-Z])\*([^*\n]+)\*(?![a-zA-Z])/g] and the same with [_] *)
Definition re_italic_star : regex :=
  seq [RNotBehind letters; RChar (ch "*");
       RGroup 1 (plus (RSet true [CChar (ch "*"); CChar 10]));
       RChar (ch "*"); RNotAhead letters].
Definition re_italic_under : regex :=
  seq [RNotBehind letters; RChar (ch "_");
       RGroup 1 (plus (RSet true [CChar (ch "_"); CChar 10]));
       RChar (ch "_"); RNotAhead letters].

(** [/~~([^~]+)~~/g] *)
Definition re_strike : regex :=
  seq [RChar (ch "~"); RChar (ch "~"); RGroup 1 (plus (RSet true [CChar (ch "~")]));
       RChar (ch "~"); RChar (ch "~")].

(** [/^#{1,6}\s+(.+)$/gm] *)
Definition re_header : regex :=
  seq [RBol; RRepeat 1 (Some 6%nat) true (RChar (ch "#")); plus (RSet false [CSpace]);
       RGroup 1 (plus RDot); REol].

(** [/^[\s]*[-*]\s+/gm] *)
Definition re_bullet : regex :=
  seq [RBol; star (RSet false [CSpace]);
       RSet false [CChar (ch "-"); CChar (ch "*")]; plus (RSet false [CSpace])].

(** [/^(\d+)\.\s+/gm] *)
Definition re_numbered : regex :=
  seq [RBol; RGroup 1 (plus (RSet false [CDigit])); RChar (ch ".");
       plus (RSet false [CSpace])].

(** [/\n{3,}/g] *)
Definition re_newlines : regex := RRepeat 3 None true (RChar 10).

Definition wrap (open close : string) : jsstring -> caps -> jsstring :=
  fun _ c => lit open ++ group 1 c ++ lit close.

Definition BULLET : jsstring := [8226; 32].

Definition collapse_newlines (s : jsstring) : jsstring :=
  replace_all re_newlines (const (NL ++ NL)) s.

Definition formatForTelegram (text : jsstring) : jsstring :=
  if falsy text then lit "(Empty response)" else
  let text := replace_all re_math math_to_ascii text in
  let text := replace_all re_table table_to_text text in
  let text := replace_all re_separator (const []) text in
  let escaped := escapeHtml text in
  let escaped := replace_all re_codeblock
                   (fun _ c => lit "<pre>" ++ trim (group 2 c) ++ lit "</pre>") escaped in
  let escaped := replace_all re_inline (wrap "<code>" "</code>") escaped in
  let escaped := replace_all re_bold_star (wrap "<b>" "</b>") escaped in
  let escaped := replace_all re_bold_under (wrap "<b>" "</b>") escaped in
  let escaped := replace_all re_italic_star (wrap "<i>" "</i>") escaped in
  let escaped := replace_all re_italic_under (wrap "<i>" "</i>") escaped in
  let escaped := replace_all re_strike (wrap "<s>" "</s>") escaped in
  let escaped := replace_all re_header (wrap "<b>" "</b>") escaped in
  let escaped := replace_all re_bullet (const BULLET) escaped in
  let escaped := replace_all re_numbered (fun _ c => group 1 c ++ lit ". ") escaped in
  let escaped := collapse_newlines escaped in
  trim escaped.

(** Text without the characters [escapeHtml] rewrites. *)
Definition html_free (text : jsstring) : bool :=
  forallb (fun c => negb ((c =? ch "&") || (c =? ch "<") || (c =? ch ">"))) text.

End Format.

Import Format.

(** ** The bridge process ([bridge.js]) *)

Module Bridge.

Inductive Mode := finance | dev | legal | health | judge | default.

Record PendingTask := {
  pt_chatId : Z;
  pt_text : jsstring;
  pt_username : jsstring;
  pt_mode : Mode
}.

Record Sender := { username : option jsstring; first_name : option jsstring }.

(** An inbound message: [chat] is [message.chat.id] when the chat object is
    there, [text] and [from] may be missing. *)
Record Message := {
  chat : option Z;
  text : option jsstring;
  from : option Sender
}.

Record Update := { update_id : Z; message : option Message }.

(** One run of the executor's [query]: the messages it yields, each with
    its [result] property if it has one, and the error it ends with, if any. *)
Record QueryRun := {
  stream : list (option jsstring);
  failure : option jsstring
}.

Inductive FetchResult :=
| Fetched (result : list Update)
| FetchFailed (code message : jsstring).

(** [.bridge-state.json]: [None] when the file is missing or does not parse,
    otherwise its [lastUpdateId] property when that is a number. *)
Definition StateFile := option (option Z).

Record HistoryEntry := {
  he_username : jsstring;
  he_chatId : Z;
  he_prompt : jsstring;
  he_response : jsstring;
  he_duration : Z
}.

Inductive Level := INFO | WARN | ERROR.

Inductive Event :=
| EvPost (chatId : Z) (body : jsstring) (parse_mode : option jsstring) (ok : bool)
| EvTyping (chatId : Z)
| EvGetUpdates (offset : Z)
| EvQueryStart (prompt : jsstring)
| EvQueryEnd (ok : bool)
| EvSaveState (updateId : Z) (ok : bool)
| EvSaveMessage (entry : HistoryEntry)
| EvHealth (status : jsstring)
| EvLog (level : Level) (line : jsstring)
| EvSleep (ms : Z)
| EvSetImmediate (msg : Message)
| EvConsoleError (line : jsstring)
| EvExit (code : Z).

Record Stats := {
  messagesProcessed : Z;
  errors : Z;
  totalInputTokens : Z;
  totalOutputTokens : Z;
  status : jsstring
}.

(** The module-level variables of the process, the state file, a counter
    of the questions put to the outside world, and the trace so far. *)
Record State := {
  isProcessing : bool;
  activeAgents : Z;
  messageQueue : list PendingTask;
  WORKING_DIR : jsstring;
  lastUpdateId : Z;
  stateFile : StateFile;
  stats : Stats;
  clock : nat;
  trace : list Event
}.

(** What the process cannot decide by itself: its environment variables and
    the answers of the transport, the executor, the file system and the
    system clock, each indexed by the value of [clock] when it is asked.
    [status_report] and [cost_report] are the bodies of the [/status] and
    [/cost] replies, which print floating-point costs. *)
Record World := {
  TELEGRAM_BOT_TOKEN : option jsstring;
  TELEGRAM_ALLOWED_CHAT_IDS : option jsstring;
  WORKING_DIR_env : option jsstring;
  post_error : nat -> option jsstring;
  query : nat -> jsstring -> QueryRun;
  fetch : nat -> Z -> FetchResult;
  write_fails : nat -> bool;
  existsSync : jsstring -> bool;
  read_log : nat -> option jsstring;
  now : nat -> Z;
  status_report : State -> jsstring;
  cost_report : State -> jsstring
}.

Definition set_isProcessing (v : bool) (s : State) : State :=
  {| isProcessing := v; activeAgents := activeAgents s;
     messageQueue := messageQueue s; WORKING_DIR := WORKING_DIR s;
     lastUpdateId := lastUpdateId s; stateFile := stateFile s;
     stats := stats s; clock := clock s; trace := trace s |}.

Definition set_activeAgents (v : Z) (s : State) : State :=
  {| isProcessing := isProcessing s; activeAgents := v;
     messageQueue := messageQueue s; WORKING_DIR := WORKING_DIR s;
     lastUpdateId := lastUpdateId s; stateFile := stateFile s;
     stats := stats s; clock := clock s; trace := trace s |}.

Definition set_messageQueue (v : list PendingTask) (s : State) : State :=
  {| isProcessing := isProcessing s; activeAgents := activeAgents s;
     messageQueue := v; WORKING_DIR := WORKING_DIR s;
     lastUpdateId := lastUpdateId s; stateFile := stateFile s;
     stats := stats s; clock := clock s; trace := trace s |}.

Definition set_WORKING_DIR (v : jsstring) (s : State) : State :=
  {| isProcessing := isProcessing s; activeAgents := activeAgents s;
     messageQueue := messageQueue s; WORKING_DIR := v;
     lastUpdateId := lastUpdateId s; stateFile := stateFile s;
     stats := stats s; clock := clock s; trace := trace s |}.

Definition set_lastUpdateId (v : Z) (s : State) : State :=
  {| isProcessing := isProcessing s; activeAgents := activeAgents s;
     messageQueue := messageQueue s; WORKING_DIR := WORKING_DIR s;
     lastUpdateId := v; stateFile := stateFile s;
     stats := stats s; clock := clock s; trace := trace s |}.

Definition set_stateFile (v : StateFile) (s : State) : State :=
  {| isProcessing := isProcessing s; activeAgents := activeAgents s;
     messageQueue := messageQueue s; WORKING_DIR := WORKING_DIR s;
     lastUpdateId := lastUpdateId s; stateFile := v;
     stats := stats s; clock := clock s; trace := trace s |}.

Definition set_stats (v : Stats) (s : State) : State :=
  {| isProcessing := isProcessing s; activeAgents := activeAgents s;
     messageQueue := messageQueue s; WORKING_DIR := WORKING_DIR s;
     lastUpdateId := lastUpdateId s; stateFile := stateFile s;
     stats := v; clock := clock s; trace := trace s |}.

Definition set_clock (v : nat) (s : State) : State :=
  {| isProcessing := isProcessing s; activeAgents := activeAgents s;
     messageQueue := messageQueue s; WORKING_DIR := WORKING_DIR s;
     lastUpdateId := lastUpdateId s; stateFile := stateFile s;
     stats := stats s; clock := v; trace := trace s |}.

Definition set_trace (v : list Event) (s : State) : State :=
  {| isProcessing := isProcessing s; activeAgents := activeAgents s;
     messageQueue := messageQueue s; WORKING_DIR := WORKING_DIR s;
     lastUpdateId := lastUpdateId s; stateFile := stateFile s;
     stats := stats s; clock := clock s; trace := v |}.

(** *** A state monad over [State] *)

Definition M (A : Type) : Type := State -> A * State.

Definition ret {A : Type} (a : A) : M A := fun s => (a, s).

Definition bind {A B : Type} (c : M A) (k : A -> M B) : M B :=
  fun s => let (a, s') := c s in k a s'.

Notation "x <- c ;; k" := (bind c (fun x => k))
  (at level 61, c at next level, right associativity).
Notation "c ;;; k" := (bind c (fun _ => k))
  (at level 61, right associativity).

Definition get {A : Type} (f : State -> A) : M A := fun s => (f s, s).
Definition modify (f : State -> State) : M unit := fun s => (tt, f s).
Definition emit (e : Event) : M unit :=
  modify (fun s => set_trace (trace s ++ [e]) s).

(** Ask the world a question: read the counter, then advance it. *)
Definition ask {A : Type} (f : nat -> A) : M A :=
  fun s => (f (clock s), set_clock (S (clock s)) s).

Definition exec {A : Type} (c : M A) (s : State) : State := snd (c s).

(** *** Logging and health *)

Definition add_error (st : Stats) : Stats :=
  {| messagesProcessed := messagesProcessed st; errors := errors st + 1;
     totalInputTokens := totalInputTokens st;
     totalOutputTokens := totalOutputTokens st; status := status st |}.

Definition add_processed (n : Z) (st : Stats) : Stats :=
  {| messagesProcessed := messagesProcessed st + n; errors := errors st;
     totalInputTokens := totalInputTokens st;
     totalOutputTokens := totalOutputTokens st; status := status st |}.

Definition add_tokens (i o : Z) (st : Stats) : Stats :=
  {| messagesProcessed := messagesProcessed st; errors := errors st;
     totalInputTokens := totalInputTokens st + i;
     totalOutputTokens := totalOutputTokens st + o; status := status st |}.

Definition with_status (v : jsstring) (st : Stats) : Stats :=
  {| messagesProcessed := messagesProcessed st; errors := errors st;
     totalInputTokens := totalInputTokens st;
     totalOutputTokens := totalOutputTokens st; status := v |}.

Definition log (level : Level) (line : jsstring) : M unit :=
  emit (EvLog level line) ;;;
  match level with
  | ERROR => modify (fun s => set_stats (add_error (stats s)) s)
  | _ => ret tt
  end.

(** [updateHealth({status})] and [updateHealth()]. *)
Definition updateHealth (updates : option jsstring) : M unit :=
  match updates with
  | Some v => modify (fun s => set_stats (with_status v (stats s)) s)
  | None => ret tt
  end ;;;
  st <- get (fun s => status (stats s)) ;;
  emit (EvHealth st).

(** *** State management *)

Definition loadState (f : StateFile) : Z :=
  match f with
  | Some (Some n) => if n =? 0 then 0 else n
  | _ => 0
  end.

Definition saveState (w : World) (updateId : Z) : M unit :=
  fails <- ask (write_fails w) ;;
  emit (EvSaveState updateId (negb fails)) ;;;
  if fails then ret tt
  else modify (set_stateFile (Some (Some updateId))).

Definition estimateTokens (t : jsstring) : Z :=
  (Z.of_nat (length t) + 3) / 4.

(** *** Transport *)

Definition chunk_size : nat := 4000.

(** The [while (remaining.length > 0)] loop of [sendMessage]. *)
Fixpoint chunk_loop (fuel : nat) (remaining : jsstring) (chunks : list jsstring)
  : list jsstring :=
  match fuel with
  | O => chunks
  | S fuel' =>
      if (0 <? length remaining)%nat
      then chunk_loop fuel' (substring_from chunk_size remaining)
             (chunks ++ [substring_to chunk_size remaining])
      else chunks
  end.

Definition chunks_of (t : jsstring) : list jsstring :=
  chunk_loop (length t) t [].

Definition String_of_nat (n : nat) : jsstring := String_of_Z (Z.of_nat n).

(** The part marker: [i/n] in square brackets, then a newline. *)
Definition marker (i n : nat) : jsstring :=
  lit "[" ++ String_of_nat i ++ lit "/" ++ String_of_nat n ++ lit "]" ++ NL.

Definition framed (n i : nat) (chunk : jsstring) : jsstring :=
  if (1 <? n)%nat then marker (i + 1) n ++ chunk else chunk.

(** [/<[^>]+>/g] *)
Definition re_tag : regex :=
  seq [RChar (ch "<"); plus (RSet true [CChar (ch ">")]); RChar (ch ">")].

Definition strip_tags (t : jsstring) : jsstring :=
  replace_all re_tag (const []) t.

Definition HTML : jsstring := lit "HTML".

(** What [sendMessage] sends in place of an empty or blank text. *)
Definition effective_text (t : jsstring) : jsstring :=
  if falsy t || eqb (trim t) [] then lit "(Empty response)" else t.

(** The [for] loop of [sendMessage]; [false] when the plain-text retry was
    rejected too, which leaves the loop through the outer [catch]. *)
Fixpoint send_chunks (w : World) (chatId : Z) (parse_mode : jsstring)
  (n i : nat) (chunks : list jsstring) : M (option jsstring) :=
  match chunks with
  | [] => ret None
  | c :: rest =>
      let chunk := framed n i c in
      err <- ask (post_error w) ;;
      emit (EvPost chatId chunk (Some parse_mode)
              (match err with None => true | Some _ => false end)) ;;;
      thrown <- match err with
                | None => ret None
                | Some _ =>
                    err2 <- ask (post_error w) ;;
                    emit (EvPost chatId (strip_tags chunk) None
                            (match err2 with None => true | Some _ => false end)) ;;;
                    ret err2
                end ;;
      match thrown with
      | Some e => ret (Some e)
      | None =>
          (if (i <? n - 1)%nat then emit (EvSleep 500) else ret tt) ;;;
          send_chunks w chatId parse_mode n (S i) rest
      end
  end.

Definition sendMessage (w : World) (chatId : Z) (t : jsstring)
  (parse_mode : option jsstring) : M unit :=
  let t := effective_text t in
  let chunks := chunks_of t in
  let mode := match parse_mode with
              | Some pm => if falsy pm then HTML else pm
              | None => HTML
              end in
  thrown <- send_chunks w chatId mode (length chunks) 0 chunks ;;
  match thrown with
  | Some e => log ERROR (lit "Failed to send message: " ++ e)
  | None => ret tt
  end.

Definition sendTyping (chatId : Z) : M unit := emit (EvTyping chatId).

Definition getUpdates (w : World) : M (list Update) :=
  last <- get lastUpdateId ;;
  emit (EvGetUpdates (last + 1)) ;;;
  r <- ask (fun t => fetch w t (last + 1)) ;;
  match r with
  | Fetched result => ret result
  | FetchFailed code message =>
      (if negb (eqb code (lit "ECONNABORTED"))
       then log ERROR (lit "Failed to get updates: " ++ message)
       else ret tt) ;;;
      ret []
  end.

(** [(process.env.TELEGRAM_ALLOWED_CHAT_IDS || '').split(',').filter(Boolean)] *)
Definition ALLOWED_CHAT_IDS (w : World) : list jsstring :=
  let raw := match TELEGRAM_ALLOWED_CHAT_IDS w with
             | Some v => if falsy v then [] else v
             | None => []
             end in
  filter (fun c => negb (falsy c)) (split (ch ",") raw).

Definition includes (l : list jsstring) (x : jsstring) : bool :=
  existsb (eqb x) l.

Definition isAuthorized (allowed : list jsstring) (chatId : Z) : bool :=
  if (length allowed =? 0)%nat then false
  else includes allowed (String_of_Z chatId).

(** *** System prompts for modes *)

Definition prompt_finance : jsstring := lit "You are a quantitative financial analyst and economist with deep expertise in:
- Technical analysis, chart patterns, and trading indicators
- Fundamental analysis and company valuation
- Macroeconomics, monetary policy, and fiscal policy
- Portfolio theory, risk management, and optimization
- Derivatives, options pricing, and hedging strategies
- Cryptocurrency and DeFi analysis
- Statistical modeling and quantitative methods

Format responses cleanly without markdown tables. Use bullet points and clear sections.
Be precise with numbers and always cite data sources when possible.".

Definition prompt_dev : jsstring := lit "You are a senior full-stack developer with expertise in:
- Frontend: React, Vue, Next.js, TypeScript, Tailwind CSS
- Backend: Node.js, Python, Go, REST APIs, GraphQL
- Databases: PostgreSQL, MongoDB, Redis, Supabase
- DevOps: Docker, CI/CD, AWS, Vercel, Netlify
- Mobile: React Native, Flutter
- AI/ML: LangChain, OpenAI API, embeddings, RAG

Write clean, production-ready code. Explain architectural decisions.
Format code blocks properly but avoid markdown tables.".

Definition prompt_legal : jsstring := lit "You are a legal technology expert working on JudgeFinder - a judicial analytics platform.

Your expertise includes:
- Judicial behavior analysis and prediction
- Court data analytics (California courts, expanding nationally)
- CourtListener and UniCourt API integration
- Legal tech SaaS architecture (Next.js 15, Supabase, Stripe, Clerk)
- SEC compliance (Rule 506(c), Form D, accredited investor verification)
- Subscription agreement drafting and review
- Legal tech product development and pricing strategy

JudgeFinder context:
- 1,800+ judge profiles in California
- 175+ API endpoints
- Three-tier subscription ($29/mo Pro, $299/mo Enterprise)
- B2B legal advertising platform
- 40+ database tables with normalized court data

Format responses professionally. Cite legal sources when applicable.
Avoid markdown tables - use bullet points instead.".

Definition prompt_health : jsstring := lit "You are a healthcare technology expert specializing in EMS (Emergency Medical Services) applications.

Your expertise includes:
- LA County Prehospital Care Manual (PCM) protocols
- Paramedic decision support systems
- Pediatric dosing calculations (weight-based)
- Medical knowledge base design (BM25 retrieval, MiniSearch)
- PWA development for offline-first medical apps
- HIPAA compliance and medical data security
- OpenAI GPT-4o integration for medical Q&A

Protocol Guide context:
- AI-powered EMS protocol assistant for LA County Fire
- 3,200+ paramedics across 174 fire stations
- 450,000 annual EMS calls
- 810-line medical knowledge base
- Offline-capable PWA with 11MB cached data
- Voice input for hands-free operation

Be precise with medical information. Always emphasize following local protocols.
Format responses clearly without markdown tables.".

Definition prompt_judge : jsstring := lit "You are an expert on JudgeFinder - a judicial analytics and transparency platform.

Key capabilities:
- Search 1,800+ California judge profiles
- Analyze judicial behavior patterns and case outcomes
- Access civil, criminal, and family law metrics
- Multi-dimensional bias detection analysis
- Court and jurisdiction data lookup
- Case analytics and outcome predictions

Technical details:
- Next.js 15.5 with React 18.3
- Supabase PostgreSQL database
- Clerk authentication with SSO
- Stripe billing integration
- 175+ REST API endpoints
- Real-time data updates

Help users understand judicial patterns, search for judges, analyze court data,
and leverage the platform's analytics features.
Format responses cleanly without markdown tables.".

Definition prompt_default : jsstring := lit "Format responses cleanly for Telegram. Avoid markdown tables - use bullet points or plain text instead. Keep responses focused and well-structured.".

Definition SYSTEM_PROMPTS (mode : Mode) : jsstring :=
  match mode with
  | finance => prompt_finance
  | dev => prompt_dev
  | legal => prompt_legal
  | health => prompt_health
  | judge => prompt_judge
  | default => prompt_default
  end.

Definition mode_name (mode : Mode) : jsstring :=
  match mode with
  | finance => lit "finance"
  | dev => lit "dev"
  | legal => lit "legal"
  | health => lit "health"
  | judge => lit "judge"
  | default => lit "default"
  end.

Definition QUOTE : jsstring := [34].

(** *** Executor *)

(** The [for await] loop of [runClaude]: keep the last [result] seen and
    signal typing after every message. *)
Fixpoint consume_stream (chatId : Z) (msgs : list (option jsstring))
  (result : jsstring) : M jsstring :=
  match msgs with
  | [] => ret result
  | msg :: rest =>
      let result := match msg with Some r => r | None => result end in
      sendTyping chatId ;;;
      consume_stream chatId rest result
  end.

Definition or_else (a b : jsstring) : jsstring := if falsy a then b else a.

(** [runClaude]: the [try]/[catch]/[finally] around the query.  The typing
    timer set with [setInterval] and the cost, a floating-point number that
    ends the completion line of the log, are left out. *)
Definition runClaude (w : World) (prompt : jsstring) (chatId : Z) (mode : Mode)
  : M jsstring :=
  log INFO (lit "Running Claude (" ++ mode_name mode ++ lit "): " ++ QUOTE
            ++ substring_to 80 prompt ++ lit "..." ++ QUOTE ++ lit " ") ;;;
  updateHealth (Some (lit "processing")) ;;;
  modify (set_isProcessing true) ;;;
  modify (set_activeAgents 1) ;;;
  sendTyping chatId ;;;
  let systemPrompt := SYSTEM_PROMPTS mode in
  let fullPrompt := systemPrompt ++ NL ++ NL ++ lit "---" ++ NL ++ NL
                    ++ lit "User request: " ++ prompt in
  emit (EvQueryStart fullPrompt) ;;;
  run <- ask (fun t => query w t fullPrompt) ;;
  result <- consume_stream chatId (stream run) [] ;;
  response <-
    match failure run with
    | Some message =>
        emit (EvQueryEnd false) ;;;
        log ERROR (lit "Claude error: " ++ message ++ lit " ") ;;;
        ret (lit "Error: " ++ message)
    | None =>
        emit (EvQueryEnd true) ;;;
        let inputTokens := estimateTokens fullPrompt in
        let outputTokens := estimateTokens result in
        modify (fun s => set_stats (add_tokens inputTokens outputTokens (stats s)) s) ;;;
        log INFO (lit "Claude completed. Tokens: " ++ String_of_Z inputTokens
                  ++ lit "/" ++ String_of_Z outputTokens) ;;;
        ret (formatForTelegram (or_else result (lit "(No output)")))
    end ;;
  modify (set_isProcessing false) ;;;
  modify (set_activeAgents 0) ;;;
  updateHealth (Some (lit "idle")) ;;;
  ret response.

(** *** Parallel agents *)

(** What one agent's promise is fulfilled with. *)
Inductive AgentValue :=
| AgentOk (index : Z) (result : jsstring)
| AgentErr (index : Z) (error : jsstring).

Inductive Settled :=
| Fulfilled (value : AgentValue)
| Rejected (reason : jsstring).

Definition last_result (msgs : list (option jsstring)) : jsstring :=
  fold_left (fun result msg => match msg with Some r => r | None => result end)
    msgs [].

Definition agent_prompt (systemPrompt : jsstring) (index : nat) (prompt : jsstring)
  : jsstring :=
  systemPrompt ++ NL ++ NL ++ lit "Agent " ++ String_of_nat (index + 1)
  ++ lit " task: " ++ prompt.

(** [prompts.map(async ...)] calls the callback for every prompt before any
    of them is awaited: all the queries are started, in index order. *)
Fixpoint start_agents (systemPrompt : jsstring) (index : nat)
  (prompts : list jsstring) : M unit :=
  match prompts with
  | [] => ret tt
  | prompt :: rest =>
      emit (EvQueryStart (agent_prompt systemPrompt index prompt)) ;;;
      start_agents systemPrompt (S index) rest
  end.

(** What the callback returns for a finished query: the last [result] it
    saw, or the message of the error it caught; [index] counts from 0. *)
Definition agent_value (index : nat) (run : QueryRun) : AgentValue :=
  match failure run with
  | None => AgentOk (Z.of_nat index + 1) (last_result (stream run))
  | Some message => AgentErr (Z.of_nat index + 1) message
  end.

Definition agent_succeeded (v : AgentValue) : bool :=
  match v with
  | AgentOk _ _ => true
  | AgentErr _ _ => false
  end.

(** How one callback ends: it catches its own error, so its promise is
    always fulfilled. *)
Definition settle_agent (w : World) (systemPrompt : jsstring) (index : nat)
  (prompt : jsstring) : M Settled :=
  run <- ask (fun t => query w t (agent_prompt systemPrompt index prompt)) ;;
  let value := agent_value index run in
  emit (EvQueryEnd (agent_succeeded value)) ;;;
  ret (Fulfilled value).

(** [Promise.allSettled(promises)]: one settled outcome per prompt, in the
    order of the prompts.  The agents run concurrently; the trace lists
    their ends in index order, which is one of the possible orders. *)
Fixpoint settle_agents (w : World) (systemPrompt : jsstring) (index : nat)
  (prompts : list jsstring) : M (list Settled) :=
  match prompts with
  | [] => ret []
  | prompt :: rest =>
      r <- settle_agent w systemPrompt index prompt ;;
      rs <- settle_agents w systemPrompt (S index) rest ;;
      ret (r :: rs)
  end.

Definition run_agents (w : World) (systemPrompt : jsstring)
  (prompts : list jsstring) : M (list Settled) :=
  start_agents systemPrompt 0 prompts ;;;
  settle_agents w systemPrompt 0 prompts.

(** What the [for (const result of results)] loop appends for one result. *)
Definition agent_entry (r : Settled) : jsstring :=
  match r with
  | Fulfilled (AgentOk index result) =>
      lit "<b>Agent " ++ String_of_Z index ++ lit ":</b>" ++ NL
      ++ formatForTelegram result ++ NL ++ NL
  | Fulfilled (AgentErr index error) =>
      lit "<b>Agent " ++ String_of_Z index ++ lit ":</b> Error - " ++ error
      ++ NL ++ NL
  | Rejected reason =>
      lit "<b>Agent:</b> Failed - " ++ reason ++ NL ++ NL
  end.

Definition agents_header (numAgents : nat) : jsstring :=
  lit "<b>Parallel Agents Results (" ++ String_of_nat numAgents
  ++ lit " agents)</b>" ++ NL ++ NL.

Definition combine_results (numAgents : nat) (results : list Settled) : jsstring :=
  fold_left (fun output r => output ++ agent_entry r) results
    (agents_header numAgents).

Definition runParallelAgents (w : World) (prompts : list jsstring) (chatId : Z)
  (mode : Mode) : M jsstring :=
  let numAgents := length prompts in
  log INFO (lit "Running " ++ String_of_nat numAgents ++ lit " parallel agents ") ;;;
  updateHealth (Some (lit "processing (" ++ String_of_nat numAgents ++ lit " agents)")) ;;;
  modify (set_isProcessing true) ;;;
  modify (set_activeAgents (Z.of_nat numAgents)) ;;;
  sendTyping chatId ;;;
  let systemPrompt := SYSTEM_PROMPTS mode in
  results <- run_agents w systemPrompt prompts ;;
  let output := combine_results numAgents results in
  log INFO (String_of_nat numAgents ++ lit " agents completed ") ;;;
  modify (set_isProcessing false) ;;;
  modify (set_activeAgents 0) ;;;
  updateHealth (Some (lit "idle")) ;;;
  ret output.

(** *** Message processing *)

Inductive Completion :=
| Normal
| Throw (message : jsstring).

(** The chain of [if (text === ...)] and [if (text.startsWith(...))] tests of
    [processMessage], each of which ends in [return]: the first test that
    holds decides the handler. *)
Inductive Route :=
| RtStart | RtStatus | RtCost | RtStop | RtLogs | RtCd
| RtMode (mode : Mode)
| RtAgents
| RtDefault.

Definition mode_prefix (mode : Mode) : jsstring :=
  lit "/" ++ mode_name mode ++ lit " ".

Definition route (t : jsstring) : Route :=
  if eqb t (lit "/start") then RtStart
  else if eqb t (lit "/status") then RtStatus
  else if eqb t (lit "/cost") then RtCost
  else if eqb t (lit "/stop") then RtStop
  else if eqb t (lit "/logs") then RtLogs
  else if startsWith (lit "/cd ") t then RtCd
  else if startsWith (mode_prefix finance) t then RtMode finance
  else if startsWith (mode_prefix dev) t then RtMode dev
  else if startsWith (mode_prefix legal) t then RtMode legal
  else if startsWith (mode_prefix health) t then RtMode health
  else if startsWith (mode_prefix judge) t then RtMode judge
  else if startsWith (lit "/agents ") t then RtAgents
  else RtDefault.

Definition DOT : jsstring := [8226].

Definition start_text : jsstring :=
  lit "<b>Claude Code Bridge v6</b>" ++ NL ++ NL
  ++ lit "Send any message to Claude. Using Opus 4.5." ++ NL ++ NL
  ++ lit "<b>Domain Modes:</b>" ++ NL
  ++ DOT ++ lit " /finance [q] - Quant/market analysis" ++ NL
  ++ DOT ++ lit " /dev [q] - Full-stack development" ++ NL
  ++ DOT ++ lit " /legal [q] - Legal tech (JudgeFinder)" ++ NL
  ++ DOT ++ lit " /health [q] - EMS/healthcare (Protocol Guide)" ++ NL
  ++ DOT ++ lit " /judge [q] - Judicial analytics" ++ NL ++ NL
  ++ lit "<b>Power Features:</b>" ++ NL
  ++ DOT ++ lit " /agents [N] [q] - Run N parallel agents" ++ NL
  ++ DOT ++ lit " /cost - View token usage & costs" ++ NL ++ NL
  ++ lit "<b>System:</b>" ++ NL
  ++ DOT ++ lit " /status - Bridge status" ++ NL
  ++ DOT ++ lit " /cd [path] - Change directory" ++ NL
  ++ DOT ++ lit " /logs - View logs".

Definition agents_usage : jsstring :=
  lit "Usage: /agents [N] [query]" ++ NL ++ NL
  ++ lit "Examples:" ++ NL
  ++ DOT ++ lit " /agents 3 Research the top 3 JS frameworks" ++ NL
  ++ DOT ++ lit " /agents 5 Analyze 5 different stocks".

Definition mode_usage (mode : Mode) : jsstring :=
  match mode with
  | finance => lit "Usage: /finance [query]"
  | dev => lit "Usage: /dev [query]"
  | legal => lit "Usage: /legal [query]" ++ NL
             ++ lit "Expert in legal tech, JudgeFinder, SEC compliance."
  | health => lit "Usage: /health [query]" ++ NL
              ++ lit "EMS protocols, Protocol Guide, paramedic support."
  | judge => lit "Usage: /judge [query]" ++ NL
             ++ lit "Judicial analytics, search judges, court data."
  | default => []
  end.

Definition mode_banner (mode : Mode) : jsstring :=
  match mode with
  | finance => lit "<b>Financial Analysis:</b> "
  | dev => lit "<b>Dev Mode:</b> "
  | legal => lit "<b>Legal Tech:</b> "
  | health => lit "<b>Healthcare/EMS:</b> "
  | judge => lit "<b>Judicial Analytics:</b> "
  | default => []
  end.

Definition queued_text (position : nat) : jsstring :=
  lit "Queued (#" ++ String_of_nat position ++ lit ")".

(** [messageQueue.push(task)] followed by the reply with the new length. *)
Definition enqueue (w : World) (task : PendingTask) : M unit :=
  modify (fun s => set_messageQueue (messageQueue s ++ [task]) s) ;;;
  n <- get (fun s => length (messageQueue s)) ;;
  sendMessage w (pt_chatId task) (queued_text n) None.

Definition count_processed (n : Z) : M unit :=
  modify (fun s => set_stats (add_processed n (stats s)) s).

(** The handler shared, up to its texts, by the five domain modes. *)
Definition mode_command (w : World) (mode : Mode) (chatId : Z)
  (t username : jsstring) : M unit :=
  let prompt := trim (substring_from (length (mode_prefix mode)) t) in
  if falsy prompt then sendMessage w chatId (mode_usage mode) None
  else
    busy <- get isProcessing ;;
    if busy
    then enqueue w {| pt_chatId := chatId; pt_text := t;
                      pt_username := username; pt_mode := mode |}
    else
      sendMessage w chatId
        (mode_banner mode ++ substring_to 50 prompt ++ lit "...") None ;;;
      response <- runClaude w prompt chatId mode ;;
      sendMessage w chatId response None ;;;
      count_processed 1.

Definition MAX_PARALLEL_AGENTS : Z := 10.

(** [/^\/agents\s+(\d+)\s+(.+)$/s] *)
Definition re_agents : regex :=
  seq [RStart; RChar (ch "/"); RChar (ch "a"); RChar (ch "g"); RChar (ch "e");
       RChar (ch "n"); RChar (ch "t"); RChar (ch "s"); plus (RSet false [CSpace]);
       RGroup 1 (plus (RSet false [CDigit])); plus (RSet false [CSpace]);
       RGroup 2 (plus any_unit); REnd].

Definition focus_prompt (basePrompt : jsstring) (numAgents : nat) (i : nat)
  : jsstring :=
  basePrompt ++ lit " (Focus area " ++ String_of_nat (i + 1) ++ lit " of "
  ++ String_of_nat numAgents ++ lit ")".

Definition agents_command (w : World) (chatId : Z) (t : jsstring) : M unit :=
  match match_at re_agents (None, t) with
  | None => sendMessage w chatId agents_usage None
  | Some (_, c) =>
      let numAgents := Z.min (parseInt_digits (group 1 c)) MAX_PARALLEL_AGENTS in
      let basePrompt := trim (group 2 c) in
      if numAgents <? 1 then sendMessage w chatId (lit "Need at least 1 agent") None
      else
        busy <- get isProcessing ;;
        if busy
        then sendMessage w chatId (lit "Already processing. Please wait.") None
        else
          let n := Z.to_nat numAgents in
          let prompts := map (focus_prompt basePrompt n) (List.seq 0 n) in
          sendMessage w chatId
            (lit "<b>Launching " ++ String_of_Z numAgents
             ++ lit " parallel agents...</b>" ++ NL
             ++ substring_to 100 basePrompt) None ;;;
          response <- runParallelAgents w prompts chatId default ;;
          sendMessage w chatId response None ;;;
          count_processed numAgents
  end.

(** [setImmediate(() => processMessage({...}))] for the head of the queue. *)
Definition requeued (next : PendingTask) : Message :=
  {| chat := Some (pt_chatId next);
     text := Some (pt_text next);
     from := Some {| username := Some (pt_username next); first_name := None |} |}.

Definition process_queue : M unit :=
  q <- get messageQueue ;;
  match q with
  | [] => ret tt
  | next :: rest =>
      modify (set_messageQueue rest) ;;;
      emit (EvSetImmediate (requeued next))
  end.

Definition default_command (w : World) (chatId : Z) (t username : jsstring)
  : M unit :=
  busy <- get isProcessing ;;
  if busy
  then enqueue w {| pt_chatId := chatId; pt_text := t;
                    pt_username := username; pt_mode := default |}
  else
    sendMessage w chatId
      (lit "Processing: " ++ substring_to 40 t
       ++ (if (40 <? length t)%nat then lit "..." else [])) None ;;;
    startTime <- ask (now w) ;;
    response <- runClaude w t chatId default ;;
    endTime <- ask (now w) ;;
    let duration := (endTime - startTime + 500) / 1000 in
    emit (EvSaveMessage {| he_username := username; he_chatId := chatId;
                           he_prompt := t;
                           he_response := substring_to 5000 response;
                           he_duration := duration |}) ;;;
    count_processed 1 ;;;
    updateHealth None ;;;
    sendMessage w chatId response None ;;;
    sendMessage w chatId
      (lit "<i>Completed in " ++ String_of_Z duration ++ lit "s</i>") None ;;;
    process_queue.

(** [logs.split('\n').slice(-20).join('\n')] *)
Definition last_lines (logs : jsstring) : jsstring :=
  let lines := split 10 logs in
  join NL (skipn (length lines - 20) lines).

Definition dispatch (w : World) (chatId : Z) (t username : jsstring) : M unit :=
  match route t with
  | RtStart => sendMessage w chatId start_text None
  | RtStatus =>
      body <- get (status_report w) ;;
      sendMessage w chatId body None
  | RtCost =>
      body <- get (cost_report w) ;;
      sendMessage w chatId body None
  | RtStop =>
      busy <- get isProcessing ;;
      sendMessage w chatId
        (if busy
         then lit "Processing cannot be interrupted mid-stream. Wait for completion."
         else lit "Nothing running.") None
  | RtLogs =>
      logs <- ask (read_log w) ;;
      match logs with
      | Some logs =>
          sendMessage w chatId
            (lit "<pre>" ++ escapeHtml (last_lines logs) ++ lit "</pre>") None
      | None => sendMessage w chatId (lit "No logs available.") None
      end
  | RtCd =>
      let newDir := trim (substring_from 4 t) in
      if existsSync w newDir
      then modify (set_WORKING_DIR newDir) ;;;
           sendMessage w chatId
             (lit "Changed to: <code>" ++ newDir ++ lit "</code>") None
      else sendMessage w chatId (lit "Not found: " ++ newDir) None
  | RtMode mode => mode_command w mode chatId t username
  | RtAgents => agents_command w chatId t
  | RtDefault => default_command w chatId t username
  end.

Definition first_truthy (a : option jsstring) : option jsstring :=
  match a with
  | Some v => if falsy v then None else Some v
  | None => None
  end.

(** [message.from?.username || message.from?.first_name || 'Unknown'] *)
Definition sender_name (message : Message) : jsstring :=
  match from message with
  | None => lit "Unknown"
  | Some f =>
      match first_truthy (username f) with
      | Some u => u
      | None =>
          match first_truthy (first_name f) with
          | Some n => n
          | None => lit "Unknown"
          end
      end
  end.

(** The line logged for an authorised message. *)
Definition received_line (username t : jsstring) : jsstring :=
  lit "From " ++ username ++ lit ": " ++ QUOTE ++ substring_to 50 t
  ++ lit "..." ++ QUOTE ++ lit " ".

(** The line logged and the reply sent for a requester outside the list. *)
Definition unauthorized_line (username : jsstring) (chatId : Z) : jsstring :=
  lit "Unauthorized: " ++ username ++ lit " (" ++ String_of_Z chatId ++ lit ") ".

Definition unauthorized_text (chatId : Z) : jsstring :=
  lit "Unauthorized. Your chat ID: " ++ String_of_Z chatId.

Definition processMessage (w : World) (message : Message) : M Completion :=
  match chat message with
  | None => ret (Throw (lit "Cannot read properties of undefined (reading 'id')"))
  | Some chatId =>
      let username := sender_name message in
      match option_map trim (text message) with
      | None => ret Normal
      | Some t =>
          if falsy t then ret Normal
          else if negb (isAuthorized (ALLOWED_CHAT_IDS w) chatId)
          then
            log WARN (unauthorized_line username chatId) ;;;
            sendMessage w chatId (unauthorized_text chatId) None ;;;
            ret Normal
          else
            log INFO (received_line username t) ;;;
            dispatch w chatId t username ;;;
            ret Normal
      end
  end.

(** *** Main loop *)

(** The [for (const update of updates)] loop of [pollLoop]; a handler that
    throws leaves it for the [catch] of the enclosing [try]. *)
Fixpoint forward_updates (w : World) (updates : list Update) : M Completion :=
  match updates with
  | [] => ret Normal
  | update :: rest =>
      modify (set_lastUpdateId (update_id update)) ;;;
      saveState w (update_id update) ;;;
      r <- match message update with
           | Some msg => processMessage w msg
           | None => ret Normal
           end ;;
      match r with
      | Normal => forward_updates w rest
      | Throw e => ret (Throw e)
      end
  end.

(** [fuel] passes of the [while (true)] loop. *)
Fixpoint poll_iterations (w : World) (fuel : nat) : M unit :=
  match fuel with
  | O => ret tt
  | S fuel' =>
      updates <- getUpdates w ;;
      r <- forward_updates w updates ;;
      match r with
      | Normal => ret tt
      | Throw e => log ERROR (lit "Poll error: " ++ e) ;;; emit (EvSleep 5000)
      end ;;;
      poll_iterations w fuel'
  end.

Definition pollLoop (w : World) (fuel : nat) : M unit :=
  dir <- get WORKING_DIR ;;
  log INFO (repeat_str (lit "=") 50 ++ lit " ") ;;;
  log INFO (lit "Telegram-Claude Bridge v6 Started ") ;;;
  log INFO (lit "Modes: finance, dev, legal, health, judge ") ;;;
  log INFO (lit "Features: HTML formatting, parallel agents, token tracking ") ;;;
  log INFO (lit "Working dir: " ++ dir ++ lit " ") ;;;
  log INFO (lit "Max parallel agents: " ++ String_of_Z MAX_PARALLEL_AGENTS ++ lit " ") ;;;
  log INFO (lit "Allowed users: " ++ join (lit ", ") (ALLOWED_CHAT_IDS w) ++ lit " ") ;;;
  log INFO (repeat_str (lit "=") 50 ++ lit " ") ;;;
  updateHealth (Some (lit "idle")) ;;;
  poll_iterations w fuel.

(** The module-level initialisation: [lastUpdateId = loadState()], an empty
    queue, an idle slot. *)
Definition initial (w : World) (file : StateFile) : State :=
  {| isProcessing := false; activeAgents := 0; messageQueue := [];
     WORKING_DIR := match first_truthy (WORKING_DIR_env w) with
                    | Some d => d
                    | None => lit "C:\Users\Tanner"
                    end;
     lastUpdateId := loadState file; stateFile := file;
     stats := {| messagesProcessed := 0; errors := 0; totalInputTokens := 0;
                 totalOutputTokens := 0; status := lit "starting" |};
     clock := 0; trace := [] |}.

(** The end of the module: validate the token, then start the loop, of
    which [fuel] passes are run. *)
Definition main (w : World) (file : StateFile) (fuel : nat) : State :=
  match first_truthy (TELEGRAM_BOT_TOKEN w) with
  | None =>
      exec (emit (EvConsoleError (lit "ERROR: Set TELEGRAM_BOT_TOKEN in .env")) ;;;
            emit (EvExit 1)) (initial w file)
  | Some _ => exec (pollLoop w fuel) (initial w file)
  end.

(** *** Message history ([messages.json]) *)

(** [None] when the file is missing or does not parse. *)
Definition MessagesFile := option (list HistoryEntry).

Definition loadMessages (f : MessagesFile) : list HistoryEntry :=
  match f with
  | Some messages => messages
  | None => []
  end.

(** [l.slice(-n)] *)
Definition slice_last {A : Type} (n : nat) (l : list A) : list A :=
  skipn (length l - n) l.

(** [saveMessage]: read the file, push the entry, keep the last hundred
    and write them back; a write that fails is logged and changes nothing. *)
Definition saveMessage (f : MessagesFile) (msg : HistoryEntry) (written : bool)
  : MessagesFile :=
  let messages := loadMessages f ++ [msg] in
  let trimmed := slice_last 100 messages in
  if written then Some trimmed else f.

End Bridge.

(** ** The supervisor ([watchdog.js]) *)

Module Watchdog.

Definition MAX_RESTARTS : nat := 5.
Definition RESTART_WINDOW_MS : Z := 60000.
Definition RESTART_DELAY_MS : Z := 5000.

(** The health file of the supervisor: [status], [restartCount] and the
    [reason] property when one is written. *)
Record Health := {
  h_status : jsstring;
  h_restartCount : nat;
  h_reason : option jsstring
}.

Inductive Event :=
| EvSpawn (time : Z)
| EvHealth (h : Health)
| EvTimer (delay : Z)
| EvKill (signal : jsstring)
| EvExit (code : Z).

(** The module-level variables, the time of every spawn so far, the last
    health file written, and the exit code once [process.exit] has run. *)
Record State := {
  bridgeProcess : bool;
  restartTimes : list Z;
  shuttingDown : bool;
  health : option Health;
  exited : option Z;
  trace : list Event
}.

Definition initial : State :=
  {| bridgeProcess := false; restartTimes := []; shuttingDown := false;
     health := None; exited := None; trace := [] |}.

Definition updateHealth (st : jsstring) (reason : option jsstring) (s : State)
  : State :=
  let h := {| h_status := st; h_restartCount := length (restartTimes s);
              h_reason := reason |} in
  {| bridgeProcess := bridgeProcess s; restartTimes := restartTimes s;
     shuttingDown := shuttingDown s; health := Some h; exited := exited s;
     trace := trace s ++ [EvHealth h] |}.

Definition process_exit (code : Z) (s : State) : State :=
  {| bridgeProcess := bridgeProcess s; restartTimes := restartTimes s;
     shuttingDown := shuttingDown s; health := health s; exited := Some code;
     trace := trace s ++ [EvExit code] |}.

Definition within_window (now t : Z) : bool := now - t <? RESTART_WINDOW_MS.

(** [isRestartLoopDetected]: prune, then compare the count with the maximum. *)
Definition isRestartLoopDetected (now : Z) (s : State) : bool * State :=
  let kept := filter (within_window now) (restartTimes s) in
  let s' := {| bridgeProcess := bridgeProcess s; restartTimes := kept;
               shuttingDown := shuttingDown s; health := health s;
               exited := exited s; trace := trace s |} in
  ((MAX_RESTARTS <=? length kept)%nat, s').

Definition spawn (now : Z) (s : State) : State :=
  {| bridgeProcess := true; restartTimes := restartTimes s ++ [now];
     shuttingDown := shuttingDown s; health := health s; exited := exited s;
     trace := trace s ++ [EvSpawn now] |}.

(** [startBridge] when the system clock reads [now]; nothing runs once the
    process has exited. *)
Definition startBridge (now : Z) (s : State) : State :=
  match exited s with
  | Some _ => s
  | None =>
      if shuttingDown s then s
      else
        let (loop, s1) := isRestartLoopDetected now s in
        if loop
        then process_exit 1 (updateHealth (lit "stopped") (Some (lit "restart_loop")) s1)
        else updateHealth (lit "running") None (spawn now s1)
  end.

Definition schedule_restart (s : State) : State :=
  {| bridgeProcess := bridgeProcess s; restartTimes := restartTimes s;
     shuttingDown := shuttingDown s; health := health s; exited := exited s;
     trace := trace s ++ [EvTimer RESTART_DELAY_MS] |}.

(** The ['exit'] handler of the child; [code] is [None] when the child was
    ended by a signal.  The boolean tells whether a restart was scheduled. *)
Definition on_exit (code : option Z) (s : State) : bool * State :=
  match exited s with
  | Some _ => (false, s)
  | None =>
      if shuttingDown s then (false, s)
      else
        match code with
        | Some 0 => (false, updateHealth (lit "stopped") (Some (lit "normal_exit")) s)
        | _ => (true, schedule_restart (updateHealth (lit "restarting") None s))
        end
  end.

(** One life of the child: how long it runs and how it ends. *)
Record ChildRun := { lifetime : Z; code : option Z }.

(** The supervisor from a call of [startBridge] at time [now]: the child
    number [k] is spawned, lives and ends as [children k] says, and a
    scheduled restart calls [startBridge] again [RESTART_DELAY_MS] after
    the exit.  [fuel] bounds the number of calls of [startBridge]. *)
Fixpoint supervise (children : nat -> ChildRun) (fuel k : nat) (now : Z)
  (s : State) : State :=
  match fuel with
  | O => s
  | S fuel' =>
      let s1 := startBridge now s in
      match exited s1 with
      | Some _ => s1
      | None =>
          let child := children k in
          let (again, s2) := on_exit (code child) s1 in
          if again
          then supervise children fuel' (S k)
                 (now + lifetime child + RESTART_DELAY_MS) s2
          else s2
      end
  end.

Definition spawn_times (s : State) : list Z :=
  flat_map (fun e => match e with EvSpawn t => [t] | _ => [] end) (trace s).

(** A child that exits at once with a non-zero code on every spawn. *)
Definition crashing (c : Z) : nat -> ChildRun :=
  fun _ => {| lifetime := 0; code := Some c |}.

(** [shutdown(signal)].  [child_exits] tells whether the ['exit'] event of
    the child fires after the signal: the handler installed here then ends
    the supervisor with code 0.  The ten-second timer that sends SIGKILL is
    left out. *)
Definition shutdown (signal : jsstring) (child_exits : bool) (s : State) : State :=
  match exited s with
  | Some _ => s
  | None =>
      if shuttingDown s then s
      else
        let s1 := updateHealth (lit "stopping") None
                    {| bridgeProcess := bridgeProcess s; restartTimes := restartTimes s;
                       shuttingDown := true; health := health s; exited := exited s;
                       trace := trace s |} in
        if bridgeProcess s
        then
          let s2 := {| bridgeProcess := bridgeProcess s1; restartTimes := restartTimes s1;
                       shuttingDown := shuttingDown s1; health := health s1;
                       exited := exited s1;
                       trace := trace s1 ++ [EvKill (lit "SIGTERM")] |} in
          if child_exits
          then process_exit 0 (updateHealth (lit "stopped") (Some signal) s2)
          else s2
        else process_exit 0 (updateHealth (lit "stopped") (Some signal) s1)
  end.

End Watchdog.

(** ** Observations on traces and states, used to state the facts below *)

Module Obs.

Import Bridge.

(** Events that neither touch the cursor, nor start or end a query, nor
    schedule a callback, nor end the process. *)
Definition inert (e : Event) : bool :=
  match e with
  | EvPost _ _ _ _ | EvTyping _ | EvSaveMessage _ | EvHealth _ | EvLog _ _
  | EvSleep _ | EvConsoleError _ => true
  | _ => false
  end.

(** Queries in flight after the events: starts minus ends. *)
Fixpoint depth (evs : list Event) : Z :=
  match evs with
  | [] => 0
  | EvQueryStart _ :: rest => 1 + depth rest
  | EvQueryEnd _ :: rest => depth rest - 1
  | _ :: rest => depth rest
  end.

Definition taskish (e : Event) : bool :=
  match e with
  | EvQueryStart _ | EvQueryEnd _ => true
  | _ => inert e
  end.

Definition handlerish (e : Event) : bool :=
  match e with
  | EvSetImmediate _ => true
  | _ => taskish e
  end.

Definition new_events (s s' : State) : list Event :=
  skipn (length (trace s)) (trace s').

(** [s'] extends the trace of [s] by events that satisfy [P] and leave
    [d] more queries in flight. *)
Definition grows (P : Event -> bool) (d : Z) (s s' : State) : Prop :=
  exists evs, trace s' = trace s ++ evs /\ forallb P evs = true /\ depth evs = d.

Definition kept (s s' : State) : Prop :=
  isProcessing s' = isProcessing s /\ activeAgents s' = activeAgents s /\
  messageQueue s' = messageQueue s /\ WORKING_DIR s' = WORKING_DIR s /\
  lastUpdateId s' = lastUpdateId s /\ stateFile s' = stateFile s.

Definition inert_op {A : Type} (c : M A) : Prop :=
  forall s, kept s (exec c s) /\ grows inert 0 s (exec c s).

(** What a task leaves behind: the slot is idle again, the queue, the
    directory and the cursor are as before, and the trace has grown by
    events among which every query that starts also ends. *)
Definition task_done (s s' : State) : Prop :=
  isProcessing s' = false /\ activeAgents s' = 0 /\
  messageQueue s' = messageQueue s /\ WORKING_DIR s' = WORKING_DIR s /\
  lastUpdateId s' = lastUpdateId s /\ stateFile s' = stateFile s /\
  grows taskish 0 s s'.

(** The settled outcomes of the agents for [prompts], the first of which
    has index [index] and is answered at counter value [t]. *)
Fixpoint outcomes (w : World) (t : nat) (systemPrompt : jsstring) (index : nat)
  (prompts : list jsstring) : list Settled :=
  match prompts with
  | [] => []
  | prompt :: rest =>
      Fulfilled (agent_value index (query w t (agent_prompt systemPrompt index prompt)))
      :: outcomes w (S t) systemPrompt (S index) rest
  end.

Definition settled_ok (r : Settled) : bool :=
  match r with
  | Fulfilled v => agent_succeeded v
  | Rejected _ => false
  end.

(** The bodies handed to the transport, in order. *)
Definition posts (evs : list Event) : list jsstring :=
  flat_map (fun e => match e with EvPost _ body _ _ => [body] | _ => [] end) evs.

(** Every body [send_chunks] posts is a framed chunk, or a framed chunk
    with its tags stripped when the first attempt was rejected. *)
Definition from_chunks (n i : nat) (chunks : list jsstring) (evs : list Event) : Prop :=
  forall body, In body (posts evs) ->
    exists j c, nth_error chunks j = Some c /\
      (body = framed n (i + j) c \/ body = strip_tags (framed n (i + j) c)).

(** Every fetch in the events is issued while no query is in flight;
    [in_flight] queries are in flight before the first event. *)
Fixpoint calm_fetches (in_flight : Z) (evs : list Event) : bool :=
  match evs with
  | [] => true
  | EvGetUpdates _ :: rest => (in_flight =? 0) && calm_fetches in_flight rest
  | EvQueryStart _ :: rest => calm_fetches (in_flight + 1) rest
  | EvQueryEnd _ :: rest => calm_fetches (in_flight - 1) rest
  | _ :: rest => calm_fetches in_flight rest
  end.

(** The offsets asked of the transport, in order. *)
Definition fetches (evs : list Event) : list Z :=
  flat_map (fun e => match e with EvGetUpdates off => [off] | _ => [] end) evs.

Definition is_immediate (e : Event) : bool :=
  match e with EvSetImmediate _ => true | _ => false end.

Definition is_exit (e : Event) : bool :=
  match e with EvExit _ => true | _ => false end.

(** Events of the poll loop: those of a handler, fetches and saves. *)
Definition loopish (e : Event) : bool :=
  match e with
  | EvGetUpdates _ | EvSaveState _ _ => true
  | _ => handlerish e
  end.

(** The state file after the events: the last identifier written with
    success, or the file as it was. *)
Fixpoint file_after (f : StateFile) (evs : list Event) : StateFile :=
  match evs with
  | [] => f
  | EvSaveState id true :: rest => file_after (Some (Some id)) rest
  | _ :: rest => file_after f rest
  end.

(** The in-memory cursor after the events: the last identifier it was
    advanced to, or the cursor as it was. *)
Fixpoint cursor_after (c : Z) (evs : list Event) : Z :=
  match evs with
  | [] => c
  | EvSaveState id _ :: rest => cursor_after id rest
  | _ :: rest => cursor_after c rest
  end.

(** From cursor [c], every fetch asks for the offset just after the
    cursor and every advance of the cursor is to a larger identifier. *)
Fixpoint cursor_trace (c : Z) (evs : list Event) : bool :=
  match evs with
  | [] => true
  | EvGetUpdates off :: rest => (off =? c + 1) && cursor_trace c rest
  | EvSaveState id _ :: rest => (c <? id) && cursor_trace id rest
  | _ :: rest => cursor_trace c rest
  end.

(** Identifiers from [lo] upwards, in increasing order. *)
Fixpoint ascending (lo : Z) (ids : list Z) : Prop :=
  match ids with
  | [] => True
  | id :: rest => lo <= id /\ ascending (id + 1) rest
  end.

(** The transport answers a fetch with updates whose identifiers are at
    least the offset asked for and increase. *)
Definition ordered_transport (w : World) : Prop :=
  forall t off result,
    fetch w t off = Fetched result -> ascending off (map update_id result).

Definition idle_slot (s : State) : Prop :=
  isProcessing s = false /\ messageQueue s = [].

(** *** Text without markup syntax, stated on the text alone *)

(** The units that markdown and the formatter give a meaning: backtick,
    asterisk, underscore, tilde, hash and bar, and the high surrogate D835
    with which every letter of the mathematical alphabets begins. *)
Definition markup_unit (c : Z) : bool :=
  (c =? ch "`") || (c =? ch "*") || (c =? ch "_") || (c =? ch "~")
  || (c =? ch "#") || (c =? ch "|") || (c =? 55349).

Definition at_line_start (prev : option Z) : bool :=
  match prev with
  | None => true
  | Some y => is_line_terminator y
  end.

(** The rests of the text that begin a line; [prev] is the unit before
    the text, if any. *)
Fixpoint line_starts (prev : option Z) (s : jsstring) : list jsstring :=
  (if at_line_start prev then [s] else [])
  ++ match s with
     | [] => []
     | y :: rest => line_starts (Some y) rest
     end.

Definition is_digit (c : Z) : bool := (48 <=? c) && (c <=? 57).

(** A bullet: after blanks, a hyphen or an asterisk and a blank. *)
Definition bullet_item (rest : jsstring) : bool :=
  match dropWhile is_space rest with
  | c :: d :: _ => ((c =? ch "-") || (c =? ch "*")) && is_space d
  | _ => false
  end.

(** A numbered item: digits, a period and a blank. *)
Definition numbered_item (rest : jsstring) : bool :=
  match rest with
  | c :: _ =>
      is_digit c &&
      match dropWhile is_digit rest with
      | dot :: d :: _ => (dot =? ch ".") && is_space d
      | _ => false
      end
  | [] => false
  end.

(** No markup syntax: no markup unit, and no line that begins with a list
    marker. *)
Definition no_markup (text : jsstring) : bool :=
  forallb (fun c => negb (markup_unit c)) text
  && forallb (fun l => negb (bullet_item l || numbered_item l)) (line_starts None text).

(** Runs of newlines cut down to two: [pending] newlines have been read
    and not yet written. *)
Fixpoint squeeze_from (pending : nat) (s : jsstring) : jsstring :=
  match s with
  | [] => repeat 10 (Nat.min pending 2)
  | c :: rest =>
      if c =? 10 then squeeze_from (S pending) rest
      else repeat 10 (Nat.min pending 2) ++ c :: squeeze_from 0 rest
  end.

Definition squeeze_newlines (s : jsstring) : jsstring := squeeze_from 0 s.

End Obs.

(** ** Sample worlds and messages, for witnesses and counterexamples *)

Module Samples.

Import Bridge.

Definition answer (t : string) : QueryRun :=
  {| stream := [None; Some (lit t)]; failure := None |}.

(** A world in which every post succeeds and every query answers "done". *)
Definition calm : World :=
  {| TELEGRAM_BOT_TOKEN := Some (lit "token");
     TELEGRAM_ALLOWED_CHAT_IDS := Some (lit "42,7");
     WORKING_DIR_env := None;
     post_error := fun _ => None;
     query := fun _ _ => answer "done";
     fetch := fun _ _ => Fetched [];
     write_fails := fun _ => false;
     existsSync := fun _ => true;
     read_log := fun _ => None;
     now := fun t => Z.of_nat t * 1000;
     status_report := fun _ => lit "status";
     cost_report := fun _ => lit "cost" |}.

Definition idle : State := initial calm None.

Definition busy : State := set_isProcessing true idle.

Definition from_bob (t : string) : Message :=
  {| chat := Some 42; text := Some (lit t);
     from := Some {| username := Some (lit "bob"); first_name := None |} |}.

(** A transport that delivers the updates 5, 6 and 7 to the first fetch of
    a fresh process, the first of them a prompt from an allowed chat. *)
Definition three_updates : list Update :=
  [ {| update_id := 5; message := Some (from_bob "hello") |};
    {| update_id := 6; message := None |};
    {| update_id := 7; message := None |} ].

Definition chatty : World :=
  {| TELEGRAM_BOT_TOKEN := Some (lit "token");
     TELEGRAM_ALLOWED_CHAT_IDS := Some (lit "42,7");
     WORKING_DIR_env := None;
     post_error := fun _ => None;
     query := fun _ _ => answer "done";
     fetch := fun _ off => if off =? 1 then Fetched three_updates else Fetched [];
     write_fails := fun _ => false;
     existsSync := fun _ => true;
     read_log := fun _ => None;
     now := fun t => Z.of_nat t * 1000;
     status_report := fun _ => lit "status";
     cost_report := fun _ => lit "cost" |}.

(** A world without a bot token, and one without an allowlist. *)
Definition tokenless : World :=
  {| TELEGRAM_BOT_TOKEN := None;
     TELEGRAM_ALLOWED_CHAT_IDS := Some (lit "42,7");
     WORKING_DIR_env := None;
     post_error := fun _ => None;
     query := fun _ _ => answer "done";
     fetch := fun _ _ => Fetched three_updates;
     write_fails := fun _ => false;
     existsSync := fun _ => true;
     read_log := fun _ => None;
     now := fun t => Z.of_nat t * 1000;
     status_report := fun _ => lit "status";
     cost_report := fun _ => lit "cost" |}.

Definition open_door : World :=
  {| TELEGRAM_BOT_TOKEN := Some (lit "token");
     TELEGRAM_ALLOWED_CHAT_IDS := None;
     WORKING_DIR_env := None;
     post_error := fun _ => None;
     query := fun _ _ => answer "done";
     fetch := fun _ _ => Fetched [];
     write_fails := fun _ => false;
     existsSync := fun _ => true;
     read_log := fun _ => None;
     now := fun t => Z.of_nat t * 1000;
     status_report := fun _ => lit "status";
     cost_report := fun _ => lit "cost" |}.

(** A transport that lists update 5 after update 7 in its first answer. *)
Definition backwards : World :=
  {| TELEGRAM_BOT_TOKEN := Some (lit "token");
     TELEGRAM_ALLOWED_CHAT_IDS := Some (lit "42,7");
     WORKING_DIR_env := None;
     post_error := fun _ => None;
     query := fun _ _ => answer "done";
     fetch := fun _ off =>
       if off =? 1
       then Fetched [ {| update_id := 7; message := None |};
                      {| update_id := 5; message := None |} ]
       else Fetched [];
     write_fails := fun _ => false;
     existsSync := fun _ => true;
     read_log := fun _ => None;
     now := fun t => Z.of_nat t * 1000;
     status_report := fun _ => lit "status";
     cost_report := fun _ => lit "cost" |}.


(** Five agents of which the third fails. *)
Definition third_fails : World :=
  {| TELEGRAM_BOT_TOKEN := Some (lit "token");
     TELEGRAM_ALLOWED_CHAT_IDS := Some (lit "42,7");
     WORKING_DIR_env := None;
     post_error := fun _ => None;
     query := fun t _ => if (t =? 2)%nat
                         then {| stream := []; failure := Some (lit "boom") |}
                         else answer "fine";
     fetch := fun _ _ => Fetched [];
     write_fails := fun _ => false;
     existsSync := fun _ => true;
     read_log := fun _ => None;
     now := fun t => Z.of_nat t * 1000;
     status_report := fun _ => lit "status";
     cost_report := fun _ => lit "cost" |}.

Definition five_prompts : list jsstring :=
  map (focus_prompt (lit "compare") 5) (List.seq 0 5).

Definition waiting_task : PendingTask :=
  {| pt_chatId := 42; pt_text := lit "later"; pt_username := lit "bob";
     pt_mode := default |}.

(** An idle slot with one task waiting in the queue. *)
Definition waiting : State := set_messageQueue [waiting_task] idle.

End Samples.

(** ** Facts about the supervisor *)

Module WatchdogFacts.

Import Watchdog.

Lemma filter_all {A : Type} (p : A -> bool) (l : list A) :
  (forall x, In x l -> p x = true) -> filter p l = l.
Proof.
  induction l as [|a l IH]; intros H; simpl; [reflexivity|].
  rewrite (H a (or_introl eq_refl)). f_equal. apply IH. intros x Hx. apply H. now right.
Qed.

Lemma prune_fresh : forall now s,
  (forall t, In t (restartTimes s) -> now - t < RESTART_WINDOW_MS) ->
  isRestartLoopDetected now s = ((MAX_RESTARTS <=? length (restartTimes s))%nat, s).
Proof.
  intros now s H. unfold isRestartLoopDetected.
  rewrite filter_all.
  - destruct s; reflexivity.
  - intros t Ht. apply Z.ltb_lt. now apply H.
Qed.

Lemma startBridge_spawns : forall now s,
  exited s = None -> shuttingDown s = false ->
  (forall t, In t (restartTimes s) -> now - t < RESTART_WINDOW_MS) ->
  (length (restartTimes s) < MAX_RESTARTS)%nat ->
  startBridge now s = updateHealth (lit "running") None (spawn now s).
Proof.
  intros now s He Hs Hw Hl. unfold startBridge. rewrite He, Hs, prune_fresh by assumption.
  apply Nat.leb_gt in Hl. rewrite Hl. reflexivity.
Qed.

Lemma startBridge_trips : forall now s,
  exited s = None -> shuttingDown s = false ->
  (forall t, In t (restartTimes s) -> now - t < RESTART_WINDOW_MS) ->
  (MAX_RESTARTS <= length (restartTimes s))%nat ->
  startBridge now s =
  process_exit 1 (updateHealth (lit "stopped") (Some (lit "restart_loop")) s).
Proof.
  intros now s He Hs Hw Hl. unfold startBridge. rewrite He, Hs, prune_fresh by assumption.
  apply Nat.leb_le in Hl. rewrite Hl. reflexivity.
Qed.

Lemma startBridge_after_exit : forall now s c,
  exited s = Some c -> startBridge now s = s.
Proof. intros now s c H. unfold startBridge. now rewrite H. Qed.

Lemma crashing_restarts : forall c s,
  c <> 0 -> exited s = None -> shuttingDown s = false ->
  on_exit (Some c) s = (true, schedule_restart (updateHealth (lit "restarting") None s)).
Proof.
  intros c s Hc He Hs. unfold on_exit. rewrite He, Hs.
  destruct c; [contradiction | reflexivity | reflexivity].
Qed.

Lemma trip_trace : forall c st r s,
  trace (process_exit c (updateHealth st r s)) =
  trace s ++ [EvHealth {| h_status := st; h_restartCount := length (restartTimes s);
                          h_reason := r |}; EvExit c].
Proof. intros. cbn. now rewrite <- app_assoc. Qed.

Ltac window :=
  unfold RESTART_WINDOW_MS, MAX_RESTARTS, RESTART_DELAY_MS; cbn; intros; subst;
  intuition (subst; lia).

(** One round of the crash loop: spawn, immediate non-zero exit, timer. *)
Lemma crash_round : forall c fuel k now s,
  c <> 0 -> exited s = None -> shuttingDown s = false ->
  (forall t, In t (restartTimes s) -> now - t < RESTART_WINDOW_MS) ->
  (length (restartTimes s) < MAX_RESTARTS)%nat ->
  supervise (crashing c) (S fuel) k now s =
  supervise (crashing c) fuel (S k) (now + RESTART_DELAY_MS)
    (schedule_restart (updateHealth (lit "restarting") None
       (updateHealth (lit "running") None (spawn now s)))).
Proof.
  intros c fuel k now s Hc He Hs Hw Hl.
  cbn [supervise]. rewrite startBridge_spawns by assumption.
  cbn [exited updateHealth spawn crashing code lifetime].
  rewrite He. rewrite crashing_restarts; [|assumption|exact He|exact Hs].
  f_equal. lia.
Qed.

(** C6: a child that exits non-zero at once on every spawn is spawned five
    times ([MAX_RESTARTS]), five seconds apart and so all inside one
    60-second window; the sixth call of [startBridge] spawns nothing,
    writes the health file with status stopped and reason restart_loop,
    and exits the supervisor with code 1.  These are the last two events
    of the run, more fuel changes nothing, and a call of [startBridge]
    after the exit does nothing. *)
Theorem restart_loop_protection_trips :
  forall (c t0 : Z) (fuel : nat),
    c <> 0 -> (6 <= fuel)%nat ->
    let s := supervise (crashing c) fuel 0 t0 initial in
    spawn_times s = [t0; t0 + 5000; t0 + 10000; t0 + 15000; t0 + 20000] /\
    (length (spawn_times s) <= MAX_RESTARTS)%nat /\
    (forall t, In t (spawn_times s) -> t0 + 25000 - t < RESTART_WINDOW_MS) /\
    exited s = Some 1 /\
    health s = Some {| h_status := lit "stopped"; h_restartCount := 5;
                       h_reason := Some (lit "restart_loop") |} /\
    (exists pre,
        trace s = pre ++ [EvHealth {| h_status := lit "stopped"; h_restartCount := 5;
                                      h_reason := Some (lit "restart_loop") |};
                          EvExit 1]) /\
    (forall now, startBridge now s = s).
Proof.
  intros c t0 fuel Hc Hf.
  do 6 (destruct fuel as [|fuel]; [lia|]).
  cbv zeta.
  do 5 (rewrite crash_round; [ | assumption | reflexivity | reflexivity | window | window ]).
  cbn [supervise]. rewrite startBridge_trips; [ | reflexivity | reflexivity | window | window].
  match goal with
  | |- context [process_exit 1 (updateHealth ?st ?r ?x)] =>
      set (last := x); set (fin := process_exit 1 (updateHealth st r last))
  end.
  assert (Hsp : spawn_times fin = [t0; t0 + 5000; t0 + 10000; t0 + 15000; t0 + 20000]).
  { subst fin last. cbn. unfold RESTART_DELAY_MS.
    repeat (apply (f_equal2 cons); [lia|]). reflexivity. }
  assert (He : exited fin = Some 1) by reflexivity.
  assert (Hn : length (restartTimes last) = 5%nat) by reflexivity.
  rewrite He, Hsp.
  split; [reflexivity|].
  split; [unfold MAX_RESTARTS; simpl; lia|].
  split; [unfold RESTART_WINDOW_MS; simpl; intros t Ht; intuition lia|].
  split; [reflexivity|].
  split; [subst fin; cbn [health process_exit updateHealth]; now rewrite Hn|].
  split.
  - exists (trace last). subst fin. rewrite trip_trace, Hn. reflexivity.
  - intros now. eapply startBridge_after_exit. exact He.
Qed.

Lemma restart_loop_protection_trips_witness :
  let s := supervise (crashing 1) 8 0 1000 initial in
  spawn_times s = [1000; 6000; 11000; 16000; 21000] /\ exited s = Some 1.
Proof.
  destruct (restart_loop_protection_trips 1 1000 8) as (H1 & _ & _ & H2 & _);
    [lia | lia | ].
  split; [exact H1 | exact H2].
Defined.

End WatchdogFacts.

(** ** More facts about the supervisor *)

Module WatchdogWindow.

Import Watchdog.

(** The spawns in [pre] that are less than the window before [t]. *)
Definition recent (t : Z) (pre : list Z) : list Z :=
  filter (within_window t) pre.

(** What holds of the supervisor at time [now]: the recorded times are in
    order and not after [now], they end the list of all spawn times, the
    spawns no longer recorded are at least a window old, and every spawn
    so far had fewer than [MAX_RESTARTS] spawns in the window before it. *)
Record tidy (now : Z) (s : State) : Prop := {
  t_sorted : StronglySorted Z.le (restartTimes s);
  t_past : forall t, In t (restartTimes s) -> t <= now;
  t_suffix : exists dropped,
      spawn_times s = dropped ++ restartTimes s /\
      forall t, In t dropped -> RESTART_WINDOW_MS <= now - t;
  t_window : forall pre t post,
      spawn_times s = pre ++ t :: post ->
      (length (recent t pre) < MAX_RESTARTS)%nat
}.

Lemma spawn_times_app : forall s evs,
  flat_map (fun e => match e with EvSpawn t => [t] | _ => [] end) (trace s ++ evs) =
  spawn_times s ++ flat_map (fun e => match e with EvSpawn t => [t] | _ => [] end) evs.
Proof. intros. unfold spawn_times. apply flat_map_app. Qed.

Lemma spawn_times_updateHealth : forall st r s,
  spawn_times (updateHealth st r s) = spawn_times s.
Proof. intros. unfold spawn_times at 1. cbn. rewrite spawn_times_app. cbn. apply app_nil_r. Qed.

Lemma spawn_times_process_exit : forall c s, spawn_times (process_exit c s) = spawn_times s.
Proof. intros. unfold spawn_times at 1. cbn. rewrite spawn_times_app. cbn. apply app_nil_r. Qed.

Lemma spawn_times_schedule : forall s, spawn_times (schedule_restart s) = spawn_times s.
Proof. intros. unfold spawn_times at 1. cbn. rewrite spawn_times_app. cbn. apply app_nil_r. Qed.

Lemma spawn_times_spawn : forall now s, spawn_times (spawn now s) = spawn_times s ++ [now].
Proof. intros. unfold spawn_times at 1. cbn. rewrite spawn_times_app. reflexivity. Qed.

(** In a sorted list the entries inside the window are a suffix. *)
Lemma prune_sorted : forall now l,
  StronglySorted Z.le l ->
  exists old, l = old ++ filter (within_window now) l /\
              forall t, In t old -> RESTART_WINDOW_MS <= now - t.
Proof.
  intros now l H. induction H as [|a l Hs IH Ha].
  - exists []. split; [reflexivity | intros t []].
  - cbn [filter]. destruct (within_window now a) eqn:E.
    + exists []. split; [|intros t []]. cbn. f_equal. symmetry. apply WatchdogFacts.filter_all.
      intros t Ht. rewrite Forall_forall in Ha. specialize (Ha t Ht).
      unfold within_window in *. apply Z.ltb_lt in E. apply Z.ltb_lt. lia.
    + destruct IH as (old & Hold & Hw). exists (a :: old). split.
      * cbn. f_equal. exact Hold.
      * intros t [<- | Ht]; [|auto]. unfold within_window in E. apply Z.ltb_ge in E. lia.
Qed.

Lemma filter_sorted : forall (p : Z -> bool) l,
  StronglySorted Z.le l -> StronglySorted Z.le (filter p l).
Proof.
  intros p l H. induction H as [|a l Hs IH Ha]; cbn; [constructor|].
  destruct (p a); [|exact IH]. constructor; [exact IH|].
  rewrite Forall_forall in *. intros t Ht. apply filter_In in Ht as [Ht _]. auto.
Qed.

Lemma sorted_snoc : forall l x,
  StronglySorted Z.le l -> (forall t, In t l -> t <= x) -> StronglySorted Z.le (l ++ [x]).
Proof.
  intros l x H. induction H as [|a l Hs IH Ha]; intros Hx; cbn.
  - constructor; constructor.
  - constructor.
    + apply IH. intros t Ht. apply Hx. now right.
    + rewrite Forall_forall in *. intros t Ht. apply in_app_or in Ht as [Ht | [<- | []]].
      * auto.
      * apply Hx. now left.
Qed.

Lemma tidy_later : forall now now' s, now <= now' -> tidy now s -> tidy now' s.
Proof.
  intros now now' s Hle [S P (d & Hd & Hw) W]. constructor; auto.
  - intros t Ht. specialize (P t Ht). lia.
  - exists d. split; [exact Hd|]. intros t Ht. specialize (Hw t Ht). lia.
Qed.

Lemma tidy_same_times : forall now s s',
  restartTimes s' = restartTimes s -> spawn_times s' = spawn_times s ->
  tidy now s -> tidy now s'.
Proof.
  intros now s s' Hr Hs [S P D W]. constructor; rewrite ?Hr, ?Hs; auto.
Qed.

Lemma recent_all_old : forall t l,
  (forall u, In u l -> RESTART_WINDOW_MS <= t - u) -> recent t l = [].
Proof.
  intros t l H. unfold recent. induction l as [|a l IH]; [reflexivity|].
  cbn. assert (E : within_window t a = false).
  { unfold within_window. apply Z.ltb_ge. apply H. now left. }
  rewrite E. apply IH. intros u Hu. apply H. now right.
Qed.

Lemma filter_idem : forall (p : Z -> bool) l, filter p (filter p l) = filter p l.
Proof.
  intros p l. apply WatchdogFacts.filter_all. intros x Hx. apply filter_In in Hx. tauto.
Qed.

Lemma tidy_startBridge : forall now s, tidy now s -> tidy now (startBridge now s).
Proof.
  intros now s T. unfold startBridge.
  destruct (exited s); [exact T|]. destruct (shuttingDown s); [exact T|].
  unfold isRestartLoopDetected.
  set (kept := filter (within_window now) (restartTimes s)).
  set (s1 := {| bridgeProcess := bridgeProcess s; restartTimes := kept;
                shuttingDown := shuttingDown s; health := health s;
                exited := exited s; trace := trace s |}).
  destruct T as [S P (d & Hd & Hw) W].
  destruct (prune_sorted now (restartTimes s) S) as (old & Hold & Hwold).
  fold kept in Hold.
  assert (Hkept_in : forall t, In t kept -> In t (restartTimes s))
    by (intros t Ht; apply filter_In in Ht; tauto).
  assert (Hsplit : spawn_times s = (d ++ old) ++ kept).
  { rewrite Hd. rewrite Hold at 1. now rewrite app_assoc. }
  assert (Hdrop : forall t, In t (d ++ old) -> RESTART_WINDOW_MS <= now - t)
    by (intros t Ht; apply in_app_or in Ht as [Ht | Ht]; auto).
  assert (T1 : tidy now s1).
  { constructor; cbn [restartTimes]; auto.
    - apply filter_sorted, S.
    - exists (d ++ old). split; [exact Hsplit | exact Hdrop]. }
  destruct (MAX_RESTARTS <=? length kept)%nat eqn:E.
  - apply (tidy_same_times now s1); [reflexivity| |exact T1].
    now rewrite spawn_times_process_exit, spawn_times_updateHealth.
  - apply Nat.leb_gt in E.
    apply (tidy_same_times now (spawn now s1));
      [reflexivity | now rewrite spawn_times_updateHealth|].
    assert (Hs1 : spawn_times s1 = spawn_times s) by reflexivity.
    assert (Hr1 : restartTimes (spawn now s1) = kept ++ [now]) by reflexivity.
    constructor; rewrite ?Hr1, ?spawn_times_spawn, ?Hs1.
    + apply sorted_snoc; [apply filter_sorted, S|]. intros t Ht. apply P, Hkept_in, Ht.
    + intros t Ht. apply in_app_or in Ht as [Ht | [<- | []]]; [apply P, Hkept_in, Ht | lia].
    + exists (d ++ old). split; [|exact Hdrop]. rewrite Hsplit. now rewrite app_assoc.
    + intros pre t post Hs.
      destruct post as [|p post'].
      * apply app_inj_tail in Hs as [Hpre <-].
        rewrite <- Hpre, Hsplit. unfold recent. rewrite filter_app.
        fold (recent now (d ++ old)). rewrite (recent_all_old now (d ++ old) Hdrop).
        cbn [app]. unfold kept at 1. rewrite filter_idem. exact E.
      * apply (W pre t (removelast (p :: post'))).
        assert (Hx : pre ++ t :: p :: post' =
                     (pre ++ t :: removelast (p :: post')) ++ [last (p :: post') 0]).
        { rewrite <- app_assoc. cbn [app]. f_equal. f_equal.
          apply app_removelast_last. discriminate. }
        rewrite Hx in Hs. apply app_inj_tail in Hs as [Hs _]. exact Hs.
Qed.

Lemma tidy_on_exit : forall now code s, tidy now s -> tidy now (snd (on_exit code s)).
Proof.
  intros now code s T. unfold on_exit.
  destruct (exited s); [exact T|]. destruct (shuttingDown s); [exact T|].
  destruct code as [[| |]|]; cbn [snd];
    (apply (tidy_same_times now s); [reflexivity | | exact T]);
    rewrite ?spawn_times_schedule, ?spawn_times_updateHealth; reflexivity.
Qed.

Lemma tidy_supervise : forall children,
  (forall i, 0 <= lifetime (children i)) ->
  forall fuel k now s, tidy now s ->
  exists now', tidy now' (supervise children fuel k now s).
Proof.
  intros children Hlife. induction fuel as [|fuel IH]; intros k now s T; cbn [supervise].
  - now exists now.
  - assert (T1 := tidy_startBridge now s T).
    destruct (exited (startBridge now s)); [now exists now|].
    assert (T2 := tidy_on_exit now (code (children k)) _ T1).
    destruct (on_exit (code (children k)) (startBridge now s)) as [again s2].
    cbn [snd] in T2. destruct again; [|now exists now].
    apply IH. apply (tidy_later now); [|exact T2].
    specialize (Hlife k). unfold RESTART_DELAY_MS. lia.
Qed.

Lemma tidy_initial : forall now, tidy now initial.
Proof.
  intros now. constructor; cbn.
  - constructor.
  - intros t [].
  - exists []. split; [reflexivity | intros t []].
  - intros pre t post H. destruct pre; discriminate.
Qed.

(** Whatever the children do and however long they live, every spawn has
    fewer than [MAX_RESTARTS] spawns in the window before it: no window of
    [RESTART_WINDOW_MS] that ends at a spawn holds more than five spawns. *)
Theorem spawns_per_window_bounded :
  forall children fuel t0,
    (forall i, 0 <= lifetime (children i)) ->
    forall pre t post,
      spawn_times (supervise children fuel 0 t0 initial) = pre ++ t :: post ->
      (length (filter (within_window t) pre) < MAX_RESTARTS)%nat.
Proof.
  intros children fuel t0 Hlife pre t post H.
  destruct (tidy_supervise children Hlife fuel 0%nat t0 initial (tidy_initial t0))
    as (now' & T).
  exact (t_window _ _ T pre t post H).
Qed.

Lemma spawns_per_window_bounded_witness :
  Nat.lt (length (filter (within_window 20000) [0; 5000; 10000; 15000])) MAX_RESTARTS.
Proof.
  apply (spawns_per_window_bounded (crashing 1) 10 0 (fun _ => Z.le_refl 0)
           [0; 5000; 10000; 15000] 20000 []).
  vm_compute. reflexivity.
Defined.

(** Once [shutdown] has begun nothing is spawned any more: a start or a
    restart timer that fires does nothing, the exit of the child schedules
    no restart, and a second signal is ignored.  The supervisor ends with
    code 0 and the signal as the reason for stopping as soon as the child
    exits, or at once when no child was ever spawned. *)
Theorem shutdown_stops_supervision :
  forall signal child_exits s,
    exited s = None -> shuttingDown s = false ->
    let s' := shutdown signal child_exits s in
    spawn_times s' = spawn_times s /\
    (forall now, startBridge now s' = s') /\
    (forall code, on_exit code s' = (false, s')) /\
    (forall signal' child_exits', shutdown signal' child_exits' s' = s') /\
    (child_exits = true \/ bridgeProcess s = false ->
       exited s' = Some 0 /\
       health s' = Some {| h_status := lit "stopped";
                           h_restartCount := length (restartTimes s);
                           h_reason := Some signal |}) /\
    (bridgeProcess s = true -> child_exits = false -> exited s' = None).
Proof.
  intros signal child_exits s He Hs s'. subst s'. unfold shutdown. rewrite He, Hs.
  destruct (bridgeProcess s) eqn:Hb; destruct child_exits;
    unfold startBridge, on_exit, shutdown, spawn_times; cbn;
    rewrite ?flat_map_app; cbn; rewrite ?app_nil_r;
    repeat split; intros; try reflexivity; try discriminate;
    try (destruct H; discriminate).
Qed.

Lemma shutdown_stops_supervision_witness :
  let s := supervise (fun _ => {| lifetime := 0; code := Some 0 |}) 3 0 1000 initial in
  exited (shutdown (lit "SIGTERM") true s) = Some 0 /\
  startBridge 9000 (shutdown (lit "SIGTERM") true s) = shutdown (lit "SIGTERM") true s.
Proof.
  cbv zeta.
  destruct (shutdown_stops_supervision (lit "SIGTERM") true
              (supervise (fun _ => {| lifetime := 0; code := Some 0 |}) 3 0 1000 initial)
              eq_refl eq_refl) as (_ & H1 & _ & _ & H2 & _).
  split; [apply H2; now left | apply H1].
Defined.

End WatchdogWindow.

(** ** A bridge that crashes slowly *)

Module WatchdogSteady.

Import Watchdog.

(** The least gap between two spawns for which the window never fills:
    [MAX_RESTARTS] gaps span the window. *)
Definition STEADY_GAP_MS : Z := RESTART_WINDOW_MS / Z.of_nat MAX_RESTARTS.

(** The times of [l], latest first, are at most [bound] and at least
    [STEADY_GAP_MS] apart. *)
Fixpoint spaced (bound : Z) (l : list Z) : Prop :=
  match l with
  | [] => True
  | t :: older => t <= bound /\ spaced (t - STEADY_GAP_MS) older
  end.

(** What holds between two calls of [startBridge] while the child lives
    long enough. *)
Definition steady (now : Z) (s : State) : Prop :=
  exited s = None /\ shuttingDown s = false /\
  spaced (now - STEADY_GAP_MS) (rev (restartTimes s)).

Lemma spaced_weaken : forall l b b', b <= b' -> spaced b l -> spaced b' l.
Proof. destruct l as [|t l]; cbn; [auto|]. intros b b' Hb [Ht Hs]. split; [lia | exact Hs]. Qed.

Lemma spaced_filter : forall (p : Z -> bool) l b, spaced b l -> spaced b (filter p l).
Proof.
  induction l as [|t l IH]; intros b H; [exact I|].
  destruct H as [Ht Hs]. cbn [filter]. destruct (p t).
  - split; [exact Ht | apply IH, Hs].
  - apply IH. apply (spaced_weaken l (t - STEADY_GAP_MS)); [unfold STEADY_GAP_MS; cbn; lia | exact Hs].
Qed.

Lemma spaced_length : forall c l b,
  spaced b l -> (forall t, In t l -> c < t) ->
  l = [] \/ Z.of_nat (length l) * STEADY_GAP_MS < b - c + STEADY_GAP_MS.
Proof.
  intros c. induction l as [|t l IH]; intros b H Hc; [now left|]. right.
  destruct H as [Ht Hs]. assert (c < t) by (apply Hc; now left).
  destruct (IH (t - STEADY_GAP_MS) Hs (fun u Hu => Hc u (or_intror Hu))) as [-> | Hl].
  - cbn. unfold STEADY_GAP_MS. cbn. lia.
  - cbn [length]. rewrite Nat2Z.inj_succ. lia.
Qed.

Lemma filter_rev : forall (p : Z -> bool) l, filter p (rev l) = rev (filter p l).
Proof.
  induction l as [|t l IH]; [reflexivity|]. cbn [rev filter]. rewrite filter_app, IH.
  cbn [filter]. destruct (p t); [reflexivity | apply app_nil_r].
Qed.

(** While the state is steady the window is never full: the bridge is
    spawned, and the state stays steady for a call one gap later. *)
Lemma steady_startBridge : forall now s,
  steady now s ->
  forall now', now + STEADY_GAP_MS <= now' ->
  steady now' (startBridge now s) /\
  spawn_times (startBridge now s) = spawn_times s ++ [now].
Proof.
  intros now s (He & Hs & Hsp) now' Hnow. unfold startBridge. rewrite He, Hs.
  unfold isRestartLoopDetected.
  set (kept := filter (within_window now) (restartTimes s)).
  assert (Hk : spaced (now - STEADY_GAP_MS) (rev kept)).
  { unfold kept. rewrite <- filter_rev. apply spaced_filter, Hsp. }
  assert (Hlen : (length kept < MAX_RESTARTS)%nat).
  { destruct (spaced_length (now - RESTART_WINDOW_MS) (rev kept) _ Hk) as [E | E].
    - intros t Ht. apply in_rev in Ht. apply filter_In in Ht as [_ Ht].
      unfold within_window in Ht. apply Z.ltb_lt in Ht. lia.
    - apply (f_equal (@length Z)) in E. rewrite length_rev in E. rewrite E.
      unfold MAX_RESTARTS. cbn. lia.
    - rewrite length_rev in E. unfold STEADY_GAP_MS, RESTART_WINDOW_MS, MAX_RESTARTS in *.
      cbn in E. unfold MAX_RESTARTS. lia. }
  apply Nat.leb_gt in Hlen. rewrite Hlen. split.
  - split; [exact He|]. split; [exact Hs|].
    change (spaced (now' - STEADY_GAP_MS) (rev (kept ++ [now]))).
    rewrite rev_app_distr. cbn [rev app spaced]. split; [lia | exact Hk].
  - rewrite WatchdogWindow.spawn_times_updateHealth, WatchdogWindow.spawn_times_spawn.
    reflexivity.
Qed.

Lemma steady_supervise : forall children,
  (forall i, STEADY_GAP_MS - RESTART_DELAY_MS <= lifetime (children i)) ->
  (forall i, code (children i) <> Some 0) ->
  forall fuel k now s, steady now s ->
    exited (supervise children fuel k now s) = None /\
    length (spawn_times (supervise children fuel k now s)) =
    (length (spawn_times s) + fuel)%nat.
Proof.
  intros children Hlife Hcode. induction fuel as [|fuel IH]; intros k now s St.
  - cbn [supervise]. split; [apply St | lia].
  - cbn [supervise].
    destruct (steady_startBridge now s St
                (now + lifetime (children k) + RESTART_DELAY_MS)) as [St1 Sp1].
    { specialize (Hlife k). lia. }
    destruct St1 as (He1 & Hs1 & Hsp1). rewrite He1.
    unfold on_exit. rewrite He1, Hs1.
    set (s2 := schedule_restart (updateHealth (lit "restarting") None (startBridge now s))).
    assert (St2 : steady (now + lifetime (children k) + RESTART_DELAY_MS) s2)
      by (repeat split; assumption).
    assert (Sp2 : spawn_times s2 = spawn_times s ++ [now]).
    { unfold s2. now rewrite WatchdogWindow.spawn_times_schedule,
                       WatchdogWindow.spawn_times_updateHealth. }
    specialize (Hcode k).
    destruct (code (children k)) as [[| |]|]; try contradiction;
      fold s2; destruct (IH (S k) _ s2 St2) as [E L];
      (split; [exact E|]); rewrite L, Sp2, length_app; cbn; lia.
Qed.

(** A bridge that lives at least seven seconds before each crash is
    restarted every time: with the five seconds of delay the spawns are
    twelve seconds apart, so the window of sixty seconds never holds five
    of them and the supervisor never gives up. *)
Theorem slow_crashes_never_trip :
  forall children fuel t0,
    (forall i, 7000 <= lifetime (children i)) ->
    (forall i, code (children i) <> Some 0) ->
    exited (supervise children fuel 0 t0 initial) = None /\
    length (spawn_times (supervise children fuel 0 t0 initial)) = fuel.
Proof.
  intros children fuel t0 Hlife Hcode.
  apply (steady_supervise children Hlife Hcode fuel 0%nat t0 initial).
  repeat split.
Qed.

Lemma slow_crashes_never_trip_witness :
  exited (supervise (fun _ => {| lifetime := 7000; code := Some 1 |}) 12 0 0 initial) = None.
Proof.
  apply (slow_crashes_never_trip (fun _ => {| lifetime := 7000; code := Some 1 |}) 12 0).
  - intros _. cbn. lia.
  - intros _. discriminate.
Defined.

End WatchdogSteady.

(** ** Facts about the bridge *)

Module BridgeFacts.

Import Bridge Obs.

Arguments lit _ : simpl never.
Arguments String_of_Z _ : simpl never.
Arguments String_of_nat _ : simpl never.
Arguments formatForTelegram _ : simpl never.
Arguments SYSTEM_PROMPTS _ : simpl never.
Arguments mode_name _ : simpl never.
Arguments estimateTokens _ : simpl never.

Lemma depth_app : forall a b, depth (a ++ b) = depth a + depth b.
Proof.
  induction a as [|e a IH]; intros b; [simpl; lia|].
  destruct e; cbn [depth app]; rewrite IH; lia.
Qed.

Lemma inert_depth : forall evs, forallb inert evs = true -> depth evs = 0.
Proof.
  induction evs as [|e evs IH]; simpl; intros H; [reflexivity|].
  apply andb_true_iff in H as [He H]. destruct e; try discriminate; auto.
Qed.

Lemma grows_refl : forall P s, grows P 0 s s.
Proof. intros. exists []. rewrite app_nil_r. auto. Qed.

Lemma grows_trans : forall P d1 d2 s1 s2 s3,
  grows P d1 s1 s2 -> grows P d2 s2 s3 -> grows P (d1 + d2) s1 s3.
Proof.
  intros P d1 d2 s1 s2 s3 (a & Ha & Pa & Da) (b & Hb & Pb & Db).
  exists (a ++ b). rewrite Hb, Ha, app_assoc, forallb_app, Pa, Pb, depth_app.
  repeat split; lia.
Qed.

Lemma grows_weaken : forall (P Q : Event -> bool) d s s',
  (forall e, P e = true -> Q e = true) -> grows P d s s' -> grows Q d s s'.
Proof.
  intros P Q d s s' H (evs & Ht & Hp & Hd). exists evs. repeat split; auto.
  rewrite forallb_forall in *. auto.
Qed.

Lemma grows_new_events : forall P d s s',
  grows P d s s' ->
  trace s' = trace s ++ new_events s s' /\
  forallb P (new_events s s') = true /\ depth (new_events s s') = d.
Proof.
  intros P d s s' (evs & Ht & Hp & Hd). unfold new_events.
  rewrite Ht, skipn_app, Nat.sub_diag, skipn_all. simpl. auto.
Qed.

Lemma kept_refl : forall s, kept s s.
Proof. unfold kept; intuition. Qed.

Lemma kept_trans : forall s1 s2 s3, kept s1 s2 -> kept s2 s3 -> kept s1 s3.
Proof. unfold kept; intuition congruence. Qed.

Lemma exec_bind : forall (A B : Type) (c : M A) (k : A -> M B) s,
  exec (bind c k) s = exec (k (fst (c s))) (exec c s).
Proof. intros. unfold exec, bind. destruct (c s). reflexivity. Qed.

Lemma run_bind : forall (A B : Type) (c : M A) (k : A -> M B) s,
  bind c k s = k (fst (c s)) (exec c s).
Proof. intros. unfold exec, bind. destruct (c s). reflexivity. Qed.

Lemma inert_ret : forall (A : Type) (a : A), inert_op (ret a).
Proof. intros A a s. split; [apply kept_refl | apply grows_refl]. Qed.

Lemma inert_bind : forall (A B : Type) (c : M A) (k : A -> M B),
  inert_op c -> (forall a, inert_op (k a)) -> inert_op (bind c k).
Proof.
  intros A B c k Hc Hk s. rewrite exec_bind.
  destruct (Hc s) as [K1 G1]. destruct (Hk (fst (c s)) (exec c s)) as [K2 G2].
  split; [eapply kept_trans; eassumption|].
  change 0 with (0 + 0). eapply grows_trans; eassumption.
Qed.

Ltac kept_tac := unfold kept; cbn; repeat split; reflexivity.

Lemma inert_emit : forall e, inert e = true -> inert_op (emit e).
Proof.
  intros e He s. split; [kept_tac|].
  exists [e]. split; [reflexivity|]. split; [cbn; now rewrite He|].
  apply inert_depth. cbn. now rewrite He.
Qed.

Lemma inert_get : forall (A : Type) (f : State -> A), inert_op (get f).
Proof. intros A f s. split; [apply kept_refl | apply grows_refl]. Qed.

Lemma inert_ask : forall (A : Type) (f : nat -> A), inert_op (ask f).
Proof.
  intros A f s. split; [kept_tac|]. exists []. cbn. now rewrite app_nil_r.
Qed.

Lemma inert_stats : forall f, inert_op (modify (fun s => set_stats (f s) s)).
Proof.
  intros f s. split; [kept_tac|]. exists []. cbn. now rewrite app_nil_r.
Qed.

Lemma inert_if : forall (A : Type) (b : bool) (c d : M A),
  inert_op c -> inert_op d -> inert_op (if b then c else d).
Proof. intros; destruct b; assumption. Qed.

Ltac inert_tac :=
  repeat lazymatch goal with
    | |- inert_op (bind _ _) => apply inert_bind; [|intros]
    | |- inert_op (ret _) => apply inert_ret
    | |- inert_op (get _) => apply inert_get
    | |- inert_op (ask _) => apply inert_ask
    | |- inert_op (modify (fun s => set_stats _ s)) => apply inert_stats
    | |- inert_op (emit _) => apply inert_emit; reflexivity
    | |- inert_op (match ?x with _ => _ end) => destruct x
    end.

Lemma inert_log : forall level line, inert_op (log level line).
Proof. intros level line. unfold log. destruct level; inert_tac. Qed.

Lemma inert_updateHealth : forall updates, inert_op (updateHealth updates).
Proof. intros [v|]; unfold updateHealth; inert_tac. Qed.

Lemma inert_sendTyping : forall chatId, inert_op (sendTyping chatId).
Proof. intros. unfold sendTyping. inert_tac. Qed.

Ltac inert_step :=
  lazymatch goal with
  | |- inert_op (bind _ _) => apply inert_bind; [|intros]
  | |- inert_op (ret _) => apply inert_ret
  | |- inert_op (get _) => apply inert_get
  | |- inert_op (ask _) => apply inert_ask
  | |- inert_op (modify (fun s => set_stats _ s)) => apply inert_stats
  | |- inert_op (emit _) => apply inert_emit; reflexivity
  | |- inert_op (log _ _) => apply inert_log
  | |- inert_op (updateHealth _) => apply inert_updateHealth
  | |- inert_op (sendTyping _) => apply inert_sendTyping
  | |- inert_op (match ?x with _ => _ end) => destruct x
  end.

Lemma inert_send_chunks : forall w chatId pm n chunks i,
  inert_op (send_chunks w chatId pm n i chunks).
Proof.
  induction chunks as [|c rest IH]; intros i; cbn [send_chunks];
    repeat (inert_step || apply IH).
Qed.

Lemma inert_sendMessage : forall w chatId t pm, inert_op (sendMessage w chatId t pm).
Proof.
  intros. unfold sendMessage. repeat (inert_step || apply inert_send_chunks).
Qed.

Lemma inert_consume_stream : forall chatId msgs result,
  inert_op (consume_stream chatId msgs result).
Proof.
  induction msgs as [|m rest IH]; intros result; cbn [consume_stream];
    repeat (inert_step || apply IH).
Qed.

Lemma inert_count_processed : forall n, inert_op (count_processed n).
Proof. intros. unfold count_processed. apply inert_stats. Qed.

Ltac inert_all :=
  repeat lazymatch goal with
    | |- inert_op (sendMessage _ _ _ _) => apply inert_sendMessage
    | |- inert_op (consume_stream _ _ _) => apply inert_consume_stream
    | |- inert_op (count_processed _) => apply inert_count_processed
    | |- inert_op _ => inert_step
    end.

Lemma set_trace_same : forall s, set_trace (trace s) s = s.
Proof. destruct s; reflexivity. Qed.

Lemma consume_stream_run : forall chatId msgs result s,
  consume_stream chatId msgs result s =
  (fold_left (fun result msg => match msg with Some r => r | None => result end)
     msgs result,
   set_trace (trace s ++ repeat (EvTyping chatId) (length msgs)) s).
Proof.
  induction msgs as [|m rest IH]; intros result s; cbn [consume_stream].
  - cbn. rewrite app_nil_r, set_trace_same. reflexivity.
  - unfold bind at 1. cbn [sendTyping emit modify]. rewrite IH. cbn.
    rewrite <- app_assoc. reflexivity.
Qed.

Lemma forallb_repeat : forall (P : Event -> bool) e n,
  P e = true -> forallb P (repeat e n) = true.
Proof. induction n; intros; simpl; [reflexivity|]. rewrite H, IHn; auto. Qed.

Lemma depth_repeat_typing : forall c n, depth (repeat (EvTyping c) n) = 0.
Proof. induction n; simpl; auto. Qed.

Lemma runClaude_done : forall w prompt chatId mode s,
  task_done s (exec (runClaude w prompt chatId mode) s).
Proof.
  intros. unfold task_done, exec, runClaude.
  unfold bind, log, emit, modify, updateHealth, sendTyping, ask, get, ret.
  cbn. rewrite consume_stream_run.
  destruct (failure (query w (clock s) _)) as [e|]; cbn;
    (repeat split; try reflexivity);
    eexists; (split; [repeat rewrite <- app_assoc; reflexivity|]);
    cbn; rewrite ?forallb_app, ?depth_app; cbn;
    rewrite ?forallb_repeat, ?depth_repeat_typing by reflexivity; split; reflexivity.
Qed.


(** *** Parallel agents *)

Lemma start_agents_run : forall systemPrompt prompts index s,
  start_agents systemPrompt index prompts s =
  (tt, set_trace (trace s ++ map (fun ip => EvQueryStart
                                    (agent_prompt systemPrompt (fst ip) (snd ip)))
                               (combine (List.seq index (length prompts)) prompts)) s).
Proof.
  induction prompts as [|p rest IH]; intros index s; cbn [start_agents].
  - cbn. rewrite app_nil_r, set_trace_same. reflexivity.
  - unfold bind at 1. cbn [emit modify]. rewrite IH. cbn.
    rewrite <- app_assoc. reflexivity.
Qed.

Lemma settle_agents_run : forall w systemPrompt prompts index s,
  settle_agents w systemPrompt index prompts s =
  (outcomes w (clock s) systemPrompt index prompts,
   set_trace (trace s ++ map (fun r => EvQueryEnd (settled_ok r))
                           (outcomes w (clock s) systemPrompt index prompts))
     (set_clock (clock s + length prompts) s)).
Proof.
  induction prompts as [|p rest IH]; intros index s; cbn [settle_agents outcomes].
  - cbn. rewrite app_nil_r, Nat.add_0_r. destruct s; reflexivity.
  - unfold bind at 1. unfold settle_agent at 1.
    unfold bind, ask, emit, modify, ret. cbn. rewrite IH. cbn.
    rewrite <- app_assoc. cbn. f_equal.
    destruct s. unfold set_trace, set_clock. cbn. f_equal. lia.
Qed.

Lemma combine_results_concat : forall results n,
  combine_results n results = agents_header n ++ concat (map agent_entry results).
Proof.
  intros results n. unfold combine_results.
  generalize (agents_header n). induction results as [|r rest IH]; intros h; cbn.
  - now rewrite app_nil_r.
  - rewrite IH, <- app_assoc. reflexivity.
Qed.

Lemma outcomes_length : forall w t sys index prompts,
  length (outcomes w t sys index prompts) = length prompts.
Proof.
  intros w t sys index prompts. revert t index.
  induction prompts; intros; cbn; [reflexivity|]. now rewrite IHprompts.
Qed.

Lemma outcomes_nth : forall w sys prompts t index i prompt,
  nth_error prompts i = Some prompt ->
  nth_error (outcomes w t sys index prompts) i =
  Some (Fulfilled (agent_value (index + i)
                     (query w (t + i) (agent_prompt sys (index + i) prompt)))).
Proof.
  induction prompts as [|p rest IH]; intros t index i prompt H.
  - destruct i; discriminate.
  - destruct i as [|i]; cbn in *.
    + inversion H; subst. now rewrite !Nat.add_0_r.
    + rewrite (IH _ _ _ _ H).
      replace (S index + i)%nat with (index + S i)%nat by lia.
      replace (S t + i)%nat with (t + S i)%nat by lia. reflexivity.
Qed.

Lemma depth_starts : forall (f : nat * jsstring -> jsstring) l,
  depth (map (fun ip => EvQueryStart (f ip)) l) = Z.of_nat (length l).
Proof. induction l; cbn [map depth length]; [reflexivity|]. rewrite IHl. lia. Qed.

Lemma depth_ends : forall (l : list Settled),
  depth (map (fun r => EvQueryEnd (settled_ok r)) l) = - Z.of_nat (length l).
Proof. induction l; cbn [map depth length]; [reflexivity|]. rewrite IHl. lia. Qed.

Lemma taskish_starts : forall (f : nat * jsstring -> jsstring) l,
  forallb taskish (map (fun ip => EvQueryStart (f ip)) l) = true.
Proof. induction l; cbn; auto. Qed.

Lemma taskish_ends : forall (l : list Settled),
  forallb taskish (map (fun r => EvQueryEnd (settled_ok r)) l) = true.
Proof. induction l; cbn; auto. Qed.

Lemma runParallelAgents_run : forall w prompts chatId mode s,
  fst (runParallelAgents w prompts chatId mode s) =
  combine_results (length prompts)
    (outcomes w (clock s) (SYSTEM_PROMPTS mode) 0 prompts).
Proof.
  intros. unfold runParallelAgents, run_agents.
  unfold bind, log, emit, modify, updateHealth, sendTyping, get, ret.
  cbn. rewrite start_agents_run. cbn. rewrite settle_agents_run. reflexivity.
Qed.

Lemma runParallelAgents_done : forall w prompts chatId mode s,
  task_done s (exec (runParallelAgents w prompts chatId mode) s).
Proof.
  intros. unfold task_done, exec, runParallelAgents, run_agents.
  unfold bind, log, emit, modify, updateHealth, sendTyping, get, ret.
  cbn. rewrite start_agents_run. cbn. rewrite settle_agents_run. cbn.
  repeat split; try reflexivity.
  eexists. split; [repeat rewrite <- app_assoc; reflexivity|].
  cbn. rewrite !forallb_app, !depth_app, taskish_starts, taskish_ends,
    depth_starts, depth_ends. cbn.
  rewrite length_combine, length_seq, Nat.min_id, outcomes_length.
  split; [reflexivity | lia].
Qed.

Lemma last_result_none : forall (msgs : list (option jsstring)) (result : jsstring),
  Forall (fun msg => msg = None) msgs ->
  fold_left (fun result msg => match msg with Some r => r | None => result end)
    msgs result = result.
Proof.
  induction msgs as [|msg msgs IH]; intros result H; [reflexivity|].
  inversion H as [|? ? Hm Hrest]; subst. cbn. now apply IH.
Qed.

Lemma last_result_last : forall (before : list (option jsstring)) r after,
  Forall (fun msg => msg = None) after ->
  last_result (before ++ Some r :: after) = r.
Proof.
  intros before r after H. unfold last_result.
  rewrite fold_left_app. cbn [fold_left]. now apply last_result_none.
Qed.

(** C7: the reply of [runParallelAgents] is the header
    [Parallel Agents Results (N agents)] followed by exactly one entry per
    prompt, in the order of the prompts.  The entry of agent [i] (counted
    from 0) depends only on that agent's own query: when the query ended
    with an error the entry is [Agent i+1: Error - message]; otherwise it
    is [Agent i+1:] followed by the formatted result, the result being
    that of the last message of the stream that carries one (the empty
    text when none does).  A failing agent changes no other entry.  The
    function always returns this reply, and the slot is idle again
    afterwards. *)
Theorem fan_out_isolation :
  forall w prompts chatId mode s,
    let sys := SYSTEM_PROMPTS mode in
    let results := outcomes w (clock s) sys 0 prompts in
    fst (runParallelAgents w prompts chatId mode s) =
      lit "<b>Parallel Agents Results (" ++ String_of_nat (length prompts)
      ++ lit " agents)</b>" ++ NL ++ NL ++ concat (map agent_entry results) /\
    length results = length prompts /\
    (forall i prompt,
        nth_error prompts i = Some prompt ->
        let run := query w (clock s + i) (agent_prompt sys i prompt) in
        nth_error (map agent_entry results) i =
          Some (match failure run with
                | Some message =>
                    lit "<b>Agent " ++ String_of_Z (Z.of_nat i + 1)
                    ++ lit ":</b> Error - " ++ message ++ NL ++ NL
                | None =>
                    lit "<b>Agent " ++ String_of_Z (Z.of_nat i + 1) ++ lit ":</b>" ++ NL
                    ++ formatForTelegram (last_result (stream run)) ++ NL ++ NL
                end) /\
        (forall before r after,
            stream run = before ++ Some r :: after ->
            Forall (fun msg => msg = None) after ->
            last_result (stream run) = r) /\
        (Forall (fun msg => msg = None) (stream run) ->
         last_result (stream run) = [])) /\
    isProcessing (exec (runParallelAgents w prompts chatId mode) s) = false.
Proof.
  intros w prompts chatId mode s sys results.
  split.
  { rewrite runParallelAgents_run, combine_results_concat. unfold agents_header.
    now rewrite <- !app_assoc. }
  split; [apply outcomes_length|].
  split.
  - intros i prompt H run. split; [|split].
    + unfold results. rewrite nth_error_map, (outcomes_nth _ _ _ _ _ _ _ H).
      cbn [option_map Nat.add]. fold run. f_equal.
      unfold agent_value. destruct (failure run); reflexivity.
    + intros before r after E Hn. rewrite E. now apply last_result_last.
    + intros Hn. unfold last_result. now apply last_result_none.
  - apply (runParallelAgents_done w prompts chatId mode s).
Qed.

(** *** Chunking and sending *)

Lemma chunk_loop_concat : forall fuel remaining chunks,
  (length remaining <= fuel)%nat ->
  concat (chunk_loop fuel remaining chunks) = concat chunks ++ remaining.
Proof.
  induction fuel as [|fuel IH]; intros remaining chunks Hf; cbn [chunk_loop].
  - destruct remaining; [now rewrite app_nil_r | simpl in Hf; lia].
  - destruct (0 <? length remaining)%nat eqn:E.
    + apply Nat.ltb_lt in E. rewrite IH.
      * unfold substring_from, substring_to. rewrite concat_app. cbn [concat].
        rewrite app_nil_r, <- app_assoc, firstn_skipn. reflexivity.
      * unfold substring_from, chunk_size. rewrite length_skipn. lia.
    + apply Nat.ltb_ge in E. destruct remaining; [now rewrite app_nil_r | simpl in E; lia].
Qed.

Lemma chunk_loop_sizes : forall fuel remaining chunks,
  Forall (fun c => (1 <= length c <= chunk_size)%nat) chunks ->
  Forall (fun c => (1 <= length c <= chunk_size)%nat)
    (chunk_loop fuel remaining chunks).
Proof.
  induction fuel as [|fuel IH]; intros remaining chunks Hc; cbn [chunk_loop]; [assumption|].
  destruct (0 <? length remaining)%nat eqn:E; [|assumption].
  apply Nat.ltb_lt in E. apply IH. apply Forall_app. split; [assumption|].
  constructor; [|constructor]. unfold substring_to. rewrite length_firstn.
  unfold chunk_size. lia.
Qed.

Lemma chunk_loop_count : forall fuel remaining chunks,
  (length remaining <= fuel)%nat ->
  Z.of_nat (length (chunk_loop fuel remaining chunks)) =
  Z.of_nat (length chunks) + (Z.of_nat (length remaining) + 3999) / 4000.
Proof.
  induction fuel as [|fuel IH]; intros remaining chunks Hf; cbn [chunk_loop].
  - destruct remaining; [cbn; lia | simpl in Hf; lia].
  - destruct (0 <? length remaining)%nat eqn:E.
    + apply Nat.ltb_lt in E. rewrite IH.
      * rewrite length_app. cbn [length]. unfold substring_from, chunk_size.
        rewrite length_skipn.
        destruct (le_lt_dec 4000 (length remaining)) as [Hge|Hlt].
        -- replace (Z.of_nat (length remaining) + 3999)
             with ((Z.of_nat (length remaining - 4000) + 3999) + 1 * 4000) by lia.
           rewrite Z.div_add by lia. lia.
        -- replace (length remaining - 4000)%nat with 0%nat by lia.
           rewrite (Z.div_small (Z.of_nat 0 + 3999)) by lia.
           assert ((Z.of_nat (length remaining) + 3999) / 4000 = 1).
           { symmetry. apply (Z.div_unique _ _ 1 (Z.of_nat (length remaining) - 1)); lia. }
           lia.
      * unfold substring_from, chunk_size. rewrite length_skipn. lia.
    + apply Nat.ltb_ge in E. assert (length remaining = 0%nat) by lia.
      rewrite H. cbn. lia.
Qed.

Lemma chunks_of_concat : forall t, concat (chunks_of t) = t.
Proof. intros. unfold chunks_of. now rewrite chunk_loop_concat. Qed.

Lemma chunks_of_sizes : forall t,
  Forall (fun c => (1 <= length c <= chunk_size)%nat) (chunks_of t).
Proof. intros. apply chunk_loop_sizes. constructor. Qed.

Lemma chunks_of_count : forall t,
  Z.of_nat (length (chunks_of t)) = (Z.of_nat (length t) + 3999) / 4000.
Proof. intros. unfold chunks_of. rewrite chunk_loop_count by lia. cbn. lia. Qed.

(** Stripping never lengthens: every replacement is the empty string. *)
Lemma replace_erase_length : forall r fuel p,
  (length (replace_from r (const []) fuel p) <= length (snd p))%nat.
Proof.
  induction fuel as [|fuel IH]; intros p; cbn [replace_from]; [lia|].
  assert (Hadv : (length (match snd p with
                          | [] => []
                          | y :: rest => y :: replace_from r (const []) fuel (Some y, rest)
                          end) <= length (snd p))%nat).
  { destruct (snd p) as [|y rest]; [simpl; lia|].
    cbn [length]. specialize (IH (Some y, rest)). cbn in IH. lia. }
  destruct (match_at r p) as [[p' c']|]; [|exact Hadv].
  destruct (length (snd p') <? length (snd p))%nat eqn:E.
  - apply Nat.ltb_lt in E. unfold const at 1. cbv beta. cbn [app].
    specialize (IH p'). lia.
  - unfold const at 1. cbv beta. cbn [app]. exact Hadv.
Qed.

Lemma strip_tags_length : forall t, (length (strip_tags t) <= length t)%nat.
Proof. intros. unfold strip_tags, replace_all. apply (replace_erase_length _ _ (None, t)). Qed.

Lemma framed_length : forall n i c,
  (length (framed n i c) <= length c + length (marker (i + 1) n))%nat.
Proof.
  intros. unfold framed. destruct (1 <? n)%nat; [rewrite length_app|]; lia.
Qed.

Lemma posts_app : forall a b, posts (a ++ b) = posts a ++ posts b.
Proof. intros. unfold posts. apply flat_map_app. Qed.

Lemma from_chunks_cons : forall n i c rest head tail,
  (forall body, In body (posts head) ->
     body = framed n i c \/ body = strip_tags (framed n i c)) ->
  from_chunks n (S i) rest tail ->
  from_chunks n i (c :: rest) (head ++ tail).
Proof.
  intros n i c rest head tail Hh Ht body Hb.
  rewrite posts_app in Hb. apply in_app_or in Hb as [Hb|Hb].
  - exists 0%nat, c. rewrite Nat.add_0_r. split; [reflexivity | auto].
  - destruct (Ht body Hb) as (j & cj & Hj & Hc). exists (S j), cj.
    replace (i + S j)%nat with (S i + j)%nat by lia. auto.
Qed.

Ltac mcbn :=
  cbn [fst snd isProcessing activeAgents messageQueue WORKING_DIR lastUpdateId
       stateFile stats clock trace set_isProcessing set_activeAgents
       set_messageQueue set_WORKING_DIR set_lastUpdateId set_stateFile set_stats
       set_clock set_trace].

Lemma send_chunks_bodies : forall w chatId pm n chunks i s,
  exists evs, trace (exec (send_chunks w chatId pm n i chunks) s) = trace s ++ evs /\
              from_chunks n i chunks evs.
Proof.
  induction chunks as [|c rest IH]; intros i s; cbn [send_chunks].
  - exists []. split; [cbn; now rewrite app_nil_r|]. intros body [].
  - unfold exec, bind, ask, emit, modify, ret. mcbn.
    destruct (post_error w (clock s)) as [e1|] eqn:E1; mcbn.
    + destruct (post_error w (S (clock s))) as [e2|] eqn:E2; mcbn.
      * exists ([EvPost chatId (framed n i c) (Some pm) false;
                 EvPost chatId (strip_tags (framed n i c)) None false] ++ []).
        split; [rewrite <- app_assoc; reflexivity|].
        apply from_chunks_cons; [cbn; intuition | intros body []].
      * destruct (i <? n - 1)%nat; mcbn;
          match goal with |- context [send_chunks w chatId pm n (S i) rest ?s1] =>
            destruct (IH (S i) s1) as (tail & Ht & Hf) end;
          unfold exec in Ht; rewrite Ht; mcbn.
        -- exists ([EvPost chatId (framed n i c) (Some pm) false;
                    EvPost chatId (strip_tags (framed n i c)) None true;
                    EvSleep 500] ++ tail).
           split; [rewrite <- !app_assoc; reflexivity|].
           apply from_chunks_cons; [cbn; intuition | assumption].
        -- exists ([EvPost chatId (framed n i c) (Some pm) false;
                    EvPost chatId (strip_tags (framed n i c)) None true] ++ tail).
           split; [rewrite <- !app_assoc; reflexivity|].
           apply from_chunks_cons; [cbn; intuition | assumption].
    + destruct (i <? n - 1)%nat; mcbn;
        match goal with |- context [send_chunks w chatId pm n (S i) rest ?s1] =>
          destruct (IH (S i) s1) as (tail & Ht & Hf) end;
        unfold exec in Ht; rewrite Ht; mcbn.
      * exists ([EvPost chatId (framed n i c) (Some pm) true; EvSleep 500] ++ tail).
        split; [rewrite <- !app_assoc; reflexivity|].
        apply from_chunks_cons; [cbn; intuition | assumption].
      * exists ([EvPost chatId (framed n i c) (Some pm) true] ++ tail).
        split; [rewrite <- !app_assoc; reflexivity|].
        apply from_chunks_cons; [cbn; intuition | assumption].
Qed.

Lemma send_chunks_ok : forall w chatId pm n,
  (forall k, post_error w k = None) ->
  forall chunks i s,
    fst (send_chunks w chatId pm n i chunks s) = None /\
    exists evs,
      trace (exec (send_chunks w chatId pm n i chunks) s) = trace s ++ evs /\
      posts evs = map (fun ic => framed n (fst ic) (snd ic))
                    (combine (List.seq i (length chunks)) chunks).
Proof.
  intros w chatId pm n Hok.
  induction chunks as [|c rest IH]; intros i s; cbn [send_chunks].
  - split; [reflexivity|]. exists []. split; [cbn; now rewrite app_nil_r | reflexivity].
  - unfold exec, bind, ask, emit, modify, ret. mcbn. rewrite Hok. mcbn.
    destruct (i <? n - 1)%nat; mcbn;
      match goal with |- context [send_chunks w chatId pm n (S i) rest ?s1] =>
        destruct (IH (S i) s1) as (Hn & tail & Ht & Hp) end;
      unfold exec in Ht;
      destruct (send_chunks w chatId pm n (S i) rest _) as [r s2] eqn:E;
      cbn [fst snd] in *; (split; [assumption|]).
    + exists ([EvPost chatId (framed n i c) (Some pm) true; EvSleep 500] ++ tail).
      split; [rewrite Ht; mcbn; rewrite <- !app_assoc; reflexivity|].
      rewrite posts_app, Hp. reflexivity.
    + exists ([EvPost chatId (framed n i c) (Some pm) true] ++ tail).
      split; [rewrite Ht; mcbn; rewrite <- !app_assoc; reflexivity|].
      rewrite posts_app, Hp. reflexivity.
Qed.

Lemma posts_log : forall level line, posts [EvLog level line] = [].
Proof. reflexivity. Qed.

(** The trace of [sendMessage] is that of its loop, followed by one log
    line when the loop was left through the outer [catch]. *)
Lemma sendMessage_trace : forall w chatId t pm s,
  exists pmode evs,
    trace (exec (send_chunks w chatId pmode (length (chunks_of (effective_text t))) 0
                   (chunks_of (effective_text t))) s) = trace s ++ evs /\
    exists tail,
      trace (exec (sendMessage w chatId t pm) s) = trace s ++ evs ++ tail /\
      posts tail = [] /\
      (fst (send_chunks w chatId pmode (length (chunks_of (effective_text t))) 0
              (chunks_of (effective_text t)) s) = None -> tail = []).
Proof.
  intros. unfold sendMessage.
  set (pmode := match pm with
                | Some pm0 => if falsy pm0 then HTML else pm0
                | None => HTML
                end).
  exists pmode.
  destruct (send_chunks_bodies w chatId pmode (length (chunks_of (effective_text t)))
              (chunks_of (effective_text t)) 0%nat s) as (evs & Ht & _).
  exists evs. split; [exact Ht|].
  rewrite exec_bind. unfold exec in *.
  destruct (send_chunks w chatId pmode _ 0 _ s) as [[e|] s1]; cbn [fst snd] in *.
  - exists [EvLog ERROR (lit "Failed to send message: " ++ e)].
    unfold log, bind, emit, modify. mcbn. rewrite Ht.
    split; [now rewrite <- app_assoc|]. split; [reflexivity | discriminate].
  - exists []. unfold ret. mcbn. rewrite Ht, app_nil_r. auto.
Qed.

Lemma eqb_nil : forall a, JS.eqb a [] = true -> a = [].
Proof. destruct a; [reflexivity | discriminate]. Qed.

Lemma effective_text_nonblank : forall t, trim t <> [] -> effective_text t = t.
Proof.
  intros t H. unfold effective_text.
  destruct t as [|c t]; [exfalso; apply H; reflexivity|].
  cbn [falsy orb]. destruct (JS.eqb (trim (c :: t)) []) eqn:E; [|reflexivity].
  apply eqb_nil in E. contradiction.
Qed.

Lemma effective_text_blank : forall t,
  trim t = [] -> effective_text t = lit "(Empty response)".
Proof.
  intros t H. unfold effective_text. rewrite H.
  destruct (falsy t); reflexivity.
Qed.

(** C3, as the code has it: [sendMessage] first replaces an empty or blank
    text by the placeholder [(Empty response)] and leaves any other text
    as it is; the text it then sends is cut into
    ceil(length/4000) chunks of 1 to 4000 units each, whose concatenation
    is that text (three chunks for 9001 units).  A transmitted body is a
    chunk, preceded by the marker [i/n] and a newline when there are
    several chunks (and with its tags stripped on the plain-text retry), so
    it has up to 4000 units plus the length of the marker, not 4000.  When
    no post is rejected the bodies are exactly the framed chunks in order. *)
Theorem sendMessage_chunks :
  forall w chatId text pm s,
    let t := effective_text text in
    let chunks := chunks_of t in
    let n := length chunks in
    (trim text <> [] -> t = text) /\
    (trim text = [] -> t = lit "(Empty response)") /\
    Z.of_nat n = (Z.of_nat (length t) + 3999) / 4000 /\
    (length t = 9001%nat -> n = 3%nat) /\
    concat chunks = t /\
    Forall (fun c => (1 <= length c <= 4000)%nat) chunks /\
    exists evs,
      trace (exec (sendMessage w chatId text pm) s) = trace s ++ evs /\
      (forall body, In body (posts evs) ->
         exists i c, nth_error chunks i = Some c /\
           (body = framed n i c \/ body = strip_tags (framed n i c)) /\
           (length body <= length c + (if (1 <? n)%nat then length (marker (i + 1) n) else 0))%nat /\
           (length body <= 4000 + length (marker (i + 1) n))%nat) /\
      ((forall k, post_error w k = None) ->
         posts evs = map (fun ic => framed n (fst ic) (snd ic))
                       (combine (List.seq 0 n) chunks)).
Proof.
  intros w chatId text pm s t chunks n.
  split; [apply effective_text_nonblank|].
  split; [apply effective_text_blank|].
  assert (Hn : Z.of_nat n = (Z.of_nat (length t) + 3999) / 4000)
    by apply chunks_of_count.
  split; [exact Hn|].
  split; [intros H9; rewrite H9 in Hn; change ((Z.of_nat 9001 + 3999) / 4000) with 3 in Hn; lia|].
  split; [apply chunks_of_concat|].
  assert (Hs : Forall (fun c => (1 <= length c <= 4000)%nat) chunks)
    by apply chunks_of_sizes.
  split; [exact Hs|].
  destruct (sendMessage_trace w chatId text pm s) as (pmode & evs & Ht & tail & Hm & Hp & Hok).
  exists (evs ++ tail). split; [exact Hm|]. split.
  - intros body Hb. rewrite posts_app, Hp, app_nil_r in Hb.
    destruct (send_chunks_bodies w chatId pmode n chunks 0%nat s) as (evs' & Ht' & Hf).
    fold t chunks n in Ht. rewrite Ht' in Ht. apply app_inv_head in Ht. subst evs'.
    destruct (Hf body Hb) as (j & c & Hj & Hc). exists j, c. cbn [Nat.add] in Hc.
    split; [exact Hj|]. split; [exact Hc|].
    assert (Hlen : (length c <= 4000)%nat).
    { rewrite Forall_forall in Hs. apply nth_error_In in Hj. apply Hs in Hj. lia. }
    assert (Hfr : (length (framed n j c) <=
                   length c + (if (1 <? n)%nat then length (marker (j + 1) n) else 0))%nat).
    { unfold framed. destruct (1 <? n)%nat; [rewrite length_app|]; lia. }
    assert (Hb2 : (length body <= length (framed n j c))%nat).
    { destruct Hc as [-> | ->]; [lia | apply strip_tags_length]. }
    split; [lia|]. destruct (1 <? n)%nat; lia.
  - intros Hall.
    destruct (send_chunks_ok w chatId pmode n Hall chunks 0%nat s) as (Hnone & evs' & Ht' & Hp').
    fold t chunks n in Ht, Hok. rewrite Ht' in Ht. apply app_inv_head in Ht. subst evs'.
    rewrite (Hok Hnone), app_nil_r. exact Hp'.
Qed.

(** *** Strings *)

Lemma dropWhile_head : forall p s,
  dropWhile p s = [] \/ exists c rest, dropWhile p s = c :: rest /\ p c = false.
Proof.
  induction s as [|c s IH]; cbn; [now left|].
  destruct (p c) eqn:E; [exact IH|]. right. eauto.
Qed.

Lemma trim_last : forall raw,
  trim raw = [] \/ exists init c, trim raw = init ++ [c] /\ is_space c = false.
Proof.
  intros raw. unfold trim, trimEnd.
  destruct (dropWhile_head is_space (rev (trimStart raw))) as [H | (c & rest & H & Hc)];
    rewrite H; [now left|].
  right. exists (rev rest), c. split; [reflexivity | exact Hc].
Qed.

Lemma dropWhile_keeps_last : forall p l c,
  p c = false -> exists l', dropWhile p (l ++ [c]) = l' ++ [c].
Proof.
  induction l as [|x l IH]; intros c Hc; cbn.
  - rewrite Hc. now exists [].
  - destruct (p x); [apply IH; assumption|]. now exists (x :: l).
Qed.

Lemma trim_keeps_last : forall l c, is_space c = false -> trim (l ++ [c]) <> [].
Proof.
  intros l c Hc. unfold trim, trimEnd, trimStart.
  destruct (dropWhile_keeps_last is_space l c Hc) as (l' & H). rewrite H.
  rewrite rev_app_distr. cbn. rewrite Hc. cbn.
  intros E. apply (f_equal (@length Z)) in E. rewrite length_app in E. cbn in E. lia.
Qed.

Lemma startsWith_app : forall prefix s,
  startsWith prefix s = true -> s = prefix ++ skipn (length prefix) s.
Proof.
  induction prefix as [|p prefix IH]; intros s H; [reflexivity|].
  destruct s as [|c s]; [discriminate|]. cbn in H.
  apply andb_true_iff in H as [Hp Hs]. apply Z.eqb_eq in Hp. subst.
  cbn. f_equal. now apply IH.
Qed.

Lemma falsy_false : forall t, t <> [] -> falsy t = false.
Proof. destruct t; [contradiction | reflexivity]. Qed.

Lemma route_mode_prefix : forall t mode,
  route t = RtMode mode -> startsWith (mode_prefix mode) t = true.
Proof.
  intros t mode. unfold route.
  repeat match goal with
         | |- context [if ?b then _ else _] => destruct b eqn:?
         end; intros H; try discriminate; inversion H; subst; assumption.
Qed.

Lemma mode_prefix_space : forall mode,
  exists init, mode_prefix mode = init ++ [32].
Proof. intros mode. unfold mode_prefix. exists (lit "/" ++ mode_name mode). now rewrite app_assoc. Qed.

(** A mode command always carries a query: the text was trimmed, so it
    cannot end with the blank that ends the prefix. *)
Lemma mode_prompt_nonempty : forall raw mode,
  route (trim raw) = RtMode mode ->
  falsy (trim (substring_from (length (mode_prefix mode)) (trim raw))) = false.
Proof.
  intros raw mode H. apply route_mode_prefix in H. apply startsWith_app in H.
  unfold substring_from. set (rest := skipn _ _) in *.
  apply falsy_false.
  destruct (trim_last raw) as [E | (init & c & E & Hc)].
  - rewrite E in H. destruct (mode_prefix_space mode) as (i & Hi). rewrite Hi in H.
    apply (f_equal (@length Z)) in H. rewrite !length_app in H. cbn in H. lia.
  - destruct (exists_last (l := rest)) as (rinit & rc & Hr).
    + intros Hnil. rewrite Hnil, app_nil_r in H.
      destruct (mode_prefix_space mode) as (i & Hi). rewrite H, Hi in E.
      apply app_inj_tail in E as [_ E]. subst c. discriminate.
    + rewrite Hr in *. rewrite H, app_assoc in E. apply app_inj_tail in E as [_ E].
      subst rc. now apply trim_keeps_last.
Qed.

(** *** The dispatcher while the slot is busy *)

Lemma processMessage_authorised : forall w s chatId raw sender,
  let msg := {| chat := Some chatId; text := Some raw; from := sender |} in
  trim raw <> [] ->
  isAuthorized (ALLOWED_CHAT_IDS w) chatId = true ->
  processMessage w msg s =
  (Normal, exec (dispatch w chatId (trim raw) (sender_name msg))
             (exec (log INFO (received_line (sender_name msg) (trim raw))) s)).
Proof.
  intros w s chatId raw sender msg Ht Ha. unfold processMessage. subst msg.
  cbn [chat text option_map]. rewrite (falsy_false _ Ht), Ha. cbn [negb].
  rewrite run_bind, run_bind. reflexivity.
Qed.

Lemma sendMessage_kept : forall w chatId t pm s,
  kept s (exec (sendMessage w chatId t pm) s).
Proof. intros. apply inert_sendMessage. Qed.

Lemma enqueue_run : forall w task s,
  let s1 := set_messageQueue (messageQueue s ++ [task]) s in
  exec (enqueue w task) s =
  exec (sendMessage w (pt_chatId task) (queued_text (S (length (messageQueue s)))) None) s1.
Proof.
  intros. unfold enqueue, exec, bind, modify, get. mcbn.
  rewrite length_app. cbn [length].
  replace (length (messageQueue s) + 1)%nat with (S (length (messageQueue s))) by lia.
  reflexivity.
Qed.

Lemma log_state : forall level line s,
  kept s (exec (log level line) s) /\ grows inert 0 s (exec (log level line) s).
Proof. intros. apply inert_log. Qed.

(** What [processMessage] does when it is entered while the slot is
    busy: an authorised domain-mode command or free-form prompt is
    appended to the queue with its mode tag and answered with the new
    queue length, and nothing is started; a [/agents] request is not
    enqueued: the queue is left as it is and, when the request is well
    formed, the reply is the refusal
    [Already processing. Please wait.]. *)
Theorem busy_request_queued_unless_agents :
  forall w s chatId raw sender,
    let msg := {| chat := Some chatId; text := Some raw; from := sender |} in
    let t := trim raw in
    let s0 := exec (log INFO (received_line (sender_name msg) t)) s in
    let s' := exec (processMessage w msg) s in
    isProcessing s = true ->
    isAuthorized (ALLOWED_CHAT_IDS w) chatId = true ->
    t <> [] ->
    fst (processMessage w msg s) = Normal /\
    (forall mode,
        route t = RtMode mode \/ (route t = RtDefault /\ mode = default) ->
        let task := {| pt_chatId := chatId; pt_text := t;
                       pt_username := sender_name msg; pt_mode := mode |} in
        messageQueue s' = messageQueue s ++ [task] /\
        s' = exec (sendMessage w chatId (queued_text (S (length (messageQueue s)))) None)
               (set_messageQueue (messageQueue s ++ [task]) s0) /\
        isProcessing s' = true /\
        grows inert 0 s s') /\
    (route t = RtAgents ->
        messageQueue s' = messageQueue s /\
        isProcessing s' = true /\
        grows inert 0 s s' /\
        forall p c,
          match_at re_agents (None, t) = Some (p, c) ->
          1 <= Z.min (parseInt_digits (group 1 c)) MAX_PARALLEL_AGENTS ->
          s' = exec (sendMessage w chatId (lit "Already processing. Please wait.") None) s0).
Proof.
  intros w s chatId raw sender msg t s0 s' Hb Ha Ht.
  assert (Hrun := processMessage_authorised w s chatId raw sender Ht Ha).
  fold msg t s0 in Hrun.
  assert (Hs' : s' = exec (dispatch w chatId t (sender_name msg)) s0)
    by (unfold s', exec at 1; now rewrite Hrun).
  destruct (log_state INFO (received_line (sender_name msg) t) s) as [K0 G0].
  fold s0 in K0, G0.
  assert (Hb0 : isProcessing s0 = true) by (destruct K0 as (-> & _); exact Hb).
  assert (Hq0 : messageQueue s0 = messageQueue s) by apply K0.
  split; [now rewrite Hrun|]. split.
  - intros mode Hroute task.
    assert (Hd : exec (dispatch w chatId t (sender_name msg)) s0 = exec (enqueue w task) s0).
    { unfold dispatch. destruct Hroute as [Hr | [Hr ->]]; rewrite Hr.
      - unfold mode_command. unfold t at 1. rewrite (mode_prompt_nonempty raw mode Hr).
        rewrite exec_bind. unfold get at 1. mcbn. rewrite Hb0. reflexivity.
      - unfold default_command. rewrite exec_bind. unfold get at 1. mcbn.
        rewrite Hb0. reflexivity. }
    rewrite Hs', Hd, enqueue_run. change (pt_chatId task) with chatId. rewrite Hq0.
    set (s1 := set_messageQueue (messageQueue s ++ [task]) s0).
    destruct (inert_sendMessage w chatId (queued_text (S (length (messageQueue s)))) None s1)
      as [K1 G1].
    split; [destruct K1 as (_ & _ & -> & _); reflexivity|].
    split; [reflexivity|].
    split; [destruct K1 as (-> & _); exact Hb0|].
    change 0 with (0 + 0). eapply grows_trans; [exact G0|].
    destruct G1 as (evs & E & P). exists evs. split; [exact E | exact P].
  - intros Hr.
    assert (Hcases : exists body,
               exec (dispatch w chatId t (sender_name msg)) s0 =
               exec (sendMessage w chatId body None) s0 /\
               (forall p c, match_at re_agents (None, t) = Some (p, c) ->
                  1 <= Z.min (parseInt_digits (group 1 c)) MAX_PARALLEL_AGENTS ->
                  body = lit "Already processing. Please wait.")).
    { unfold dispatch. rewrite Hr. unfold agents_command.
      destruct (match_at re_agents (None, t)) as [[p c]|].
      - destruct (Z.min (parseInt_digits (group 1 c)) MAX_PARALLEL_AGENTS <? 1) eqn:E.
        + eexists. split; [reflexivity|]. intros p0 c0 H H1. inversion H; subst.
          apply Z.ltb_lt in E. lia.
        + eexists. split.
          * rewrite exec_bind. unfold get at 1. mcbn. rewrite Hb0. reflexivity.
          * reflexivity.
      - eexists. split; [reflexivity | discriminate]. }
    destruct Hcases as (body & Hd & Hbody).
    destruct (inert_sendMessage w chatId body None s0) as [K1 G1].
    rewrite Hs', Hd.
    split; [destruct K1 as (_ & _ & -> & _); exact Hq0|].
    split; [destruct K1 as (-> & _); exact Hb0|].
    split.
    + change 0 with (0 + 0). eapply grows_trans; eassumption.
    + intros p c Hm H1. now rewrite (Hbody p c Hm H1).
Qed.

(** *** What one call of [processMessage] can do *)

(** From state [s] the operation leaves the cursor alone and extends the
    trace by handler events with every started query ended; from an idle
    slot with an empty queue it comes back to one and schedules nothing. *)
Definition handler_at {A : Type} (c : M A) (s : State) : Prop :=
  let s' := exec c s in
  lastUpdateId s' = lastUpdateId s /\ stateFile s' = stateFile s /\
  grows handlerish 0 s s' /\
  (isProcessing s = false -> messageQueue s = [] ->
   isProcessing s' = false /\ messageQueue s' = [] /\ grows taskish 0 s s').

Lemma inert_taskish : forall e, inert e = true -> taskish e = true.
Proof. destruct e; cbn; auto. Qed.

Lemma taskish_handlerish : forall e, taskish e = true -> handlerish e = true.
Proof. destruct e; cbn; auto. Qed.

Lemma handler_inert : forall (A : Type) (c : M A) s, inert_op c -> handler_at c s.
Proof.
  intros A c s H. destruct (H s) as [(K1 & K2 & K3 & K4 & K5 & K6) G].
  unfold handler_at. cbv zeta.
  assert (Gt : grows taskish 0 s (exec c s))
    by (eapply grows_weaken; [apply inert_taskish | exact G]).
  split; [exact K5|]. split; [exact K6|].
  split; [eapply grows_weaken; [apply taskish_handlerish | exact Gt]|].
  intros Hi Hq. rewrite K1, K3. auto.
Qed.

Lemma handler_task : forall (A : Type) (c : M A) s,
  task_done s (exec c s) -> handler_at c s.
Proof.
  intros A c s (T1 & T2 & T3 & T4 & T5 & T6 & G). unfold handler_at. cbv zeta.
  split; [exact T5|]. split; [exact T6|].
  split; [eapply grows_weaken; [apply taskish_handlerish | exact G]|].
  intros Hi Hq. rewrite T3. auto.
Qed.

Lemma handler_bind : forall (A B : Type) (c : M A) (k : A -> M B) s,
  handler_at c s -> (forall a, handler_at (k a) (exec c s)) ->
  handler_at (bind c k) s.
Proof.
  intros A B c k s (L1 & F1 & G1 & I1) Hk.
  destruct (Hk (fst (c s))) as (L2 & F2 & G2 & I2).
  unfold handler_at. cbv zeta. rewrite exec_bind.
  split; [congruence|]. split; [congruence|].
  split; [change 0 with (0 + 0); eapply grows_trans; eassumption|].
  intros Hi Hq. destruct (I1 Hi Hq) as (Hi1 & Hq1 & Gt1).
  destruct (I2 Hi1 Hq1) as (Hi2 & Hq2 & Gt2).
  split; [exact Hi2|]. split; [exact Hq2|].
  change 0 with (0 + 0). eapply grows_trans; eassumption.
Qed.

Lemma handler_get : forall (A B : Type) (f : State -> A) (k : A -> M B) s,
  handler_at (k (f s)) s -> handler_at (bind (get f) k) s.
Proof. intros A B f k s H. unfold handler_at in *. rewrite exec_bind. exact H. Qed.

Lemma handler_enqueue : forall w task s,
  isProcessing s = true -> handler_at (enqueue w task) s.
Proof.
  intros w task s Hb. unfold handler_at. cbv zeta. rewrite enqueue_run. cbv zeta.
  set (s1 := set_messageQueue _ s).
  destruct (inert_sendMessage w (pt_chatId task)
              (queued_text (S (length (messageQueue s)))) None s1)
    as [(K1 & K2 & K3 & K4 & K5 & K6) G].
  split; [rewrite K5; reflexivity|]. split; [rewrite K6; reflexivity|].
  split.
  - eapply grows_weaken; [intros e He; apply taskish_handlerish, inert_taskish, He|].
    destruct G as (evs & E & P). exists evs. split; [exact E | exact P].
  - intros Hi. congruence.
Qed.

Lemma grows_same_trace : forall P s s', trace s' = trace s -> grows P 0 s s'.
Proof. intros P s s' H. exists []. rewrite H, app_nil_r. auto. Qed.

Lemma handler_process_queue : forall s, handler_at process_queue s.
Proof.
  intros s. unfold handler_at, process_queue. cbv zeta. rewrite exec_bind.
  unfold get. mcbn. destruct (messageQueue s) as [|next rest] eqn:Q.
  - unfold exec, ret. mcbn.
    repeat split; auto; now apply grows_same_trace.
  - unfold exec, bind, modify, emit. mcbn.
    split; [reflexivity|]. split; [reflexivity|]. split.
    + exists [EvSetImmediate (requeued next)]. repeat split.
    + intros _ H. discriminate.
Qed.

Lemma handler_set_dir : forall d s, handler_at (modify (set_WORKING_DIR d)) s.
Proof.
  intros d s. unfold handler_at, exec, modify. mcbn.
  repeat split; auto; now apply grows_same_trace.
Qed.

Ltac handler_step :=
  lazymatch goal with
  | |- handler_at (bind (get _) _) _ => apply handler_get
  | |- handler_at (bind _ _) _ => apply handler_bind; [|intros]
  | |- handler_at (runClaude _ _ _ _) _ => apply handler_task; apply runClaude_done
  | |- handler_at (runParallelAgents _ _ _ _) _ =>
      apply handler_task; apply runParallelAgents_done
  | |- handler_at process_queue _ => apply handler_process_queue
  | |- handler_at (modify (set_WORKING_DIR _)) _ => apply handler_set_dir
  | |- handler_at _ _ => apply handler_inert; inert_all
  end.

Lemma handler_mode_command : forall w mode chatId t username s,
  handler_at (mode_command w mode chatId t username) s.
Proof.
  intros. unfold mode_command.
  destruct (falsy _); [apply handler_inert; inert_all|].
  apply handler_get. destruct (isProcessing s) eqn:Hb.
  - now apply handler_enqueue.
  - repeat handler_step.
Qed.

Lemma handler_default_command : forall w chatId t username s,
  handler_at (default_command w chatId t username) s.
Proof.
  intros. unfold default_command.
  apply handler_get. destruct (isProcessing s) eqn:Hb.
  - now apply handler_enqueue.
  - repeat handler_step.
Qed.

Lemma handler_agents_command : forall w chatId t s,
  handler_at (agents_command w chatId t) s.
Proof.
  intros. unfold agents_command.
  destruct (match_at re_agents (None, t)) as [[p c]|]; [|apply handler_inert; inert_all].
  destruct (_ <? 1); [apply handler_inert; inert_all|].
  apply handler_get. destruct (isProcessing s) eqn:Hb.
  - apply handler_inert; inert_all.
  - repeat handler_step.
Qed.

Lemma handler_dispatch : forall w chatId t username s,
  handler_at (dispatch w chatId t username) s.
Proof.
  intros. unfold dispatch. destruct (route t).
  - apply handler_inert; inert_all.
  - apply handler_get. apply handler_inert; inert_all.
  - apply handler_get. apply handler_inert; inert_all.
  - apply handler_get. apply handler_inert; inert_all.
  - apply handler_bind; [apply handler_inert; inert_all|intros [logs|]];
      apply handler_inert; inert_all.
  - destruct (existsSync w _); repeat handler_step.
  - apply handler_mode_command.
  - apply handler_agents_command.
  - apply handler_default_command.
Qed.

Lemma handler_processMessage : forall w msg s, handler_at (processMessage w msg) s.
Proof.
  intros. unfold processMessage.
  destruct (chat msg) as [chatId|]; [|apply handler_inert; inert_all].
  destruct (option_map trim (text msg)) as [t|]; [|apply handler_inert; inert_all].
  destruct (falsy t); [apply handler_inert; inert_all|].
  destruct (negb _).
  - apply handler_inert; inert_all.
  - apply handler_bind; [apply handler_inert; inert_all|intros].
    apply handler_bind; [apply handler_dispatch|intros].
    apply handler_inert; inert_all.
Qed.

(** *** The poll loop *)

Lemma calm_fetches_app : forall a n b,
  calm_fetches n (a ++ b) = calm_fetches n a && calm_fetches (n + depth a) b.
Proof.
  induction a as [|e a IH]; intros n b; [cbn; now rewrite Z.add_0_r|].
  destruct e; cbn [app calm_fetches depth]; rewrite IH;
    rewrite <- ?andb_assoc; try reflexivity.
  - now rewrite Z.add_assoc.
  - now replace (n + (depth a - 1)) with (n - 1 + depth a) by lia.
Qed.

Lemma handlerish_calm : forall evs n,
  forallb handlerish evs = true -> calm_fetches n evs = true.
Proof.
  induction evs as [|e evs IH]; intros n H; [reflexivity|].
  cbn in H. apply andb_true_iff in H as [He H].
  destruct e; try discriminate; cbn; auto.
Qed.

Lemma fetches_app : forall a b, fetches (a ++ b) = fetches a ++ fetches b.
Proof. intros. unfold fetches. apply flat_map_app. Qed.

Lemma handlerish_fetches : forall evs, forallb handlerish evs = true -> fetches evs = [].
Proof.
  induction evs as [|e evs IH]; intros H; [reflexivity|].
  cbn in H. apply andb_true_iff in H as [He H].
  destruct e; try discriminate; cbn; auto.
Qed.

Lemma file_after_app : forall a f b,
  file_after f (a ++ b) = file_after (file_after f a) b.
Proof.
  induction a as [|e a IH]; intros f b; [reflexivity|].
  destruct e; cbn [app file_after]; try apply IH. destruct ok; apply IH.
Qed.

Lemma handlerish_file : forall evs f, forallb handlerish evs = true -> file_after f evs = f.
Proof.
  induction evs as [|e evs IH]; intros f H; [reflexivity|].
  cbn in H. apply andb_true_iff in H as [He H].
  destruct e; try discriminate; cbn; auto.
Qed.

Lemma cursor_after_app : forall a c b,
  cursor_after c (a ++ b) = cursor_after (cursor_after c a) b.
Proof.
  induction a as [|e a IH]; intros c b; [reflexivity|].
  destruct e; cbn [app cursor_after]; apply IH.
Qed.

Lemma cursor_trace_app : forall a c b,
  cursor_trace c (a ++ b) = cursor_trace c a && cursor_trace (cursor_after c a) b.
Proof.
  induction a as [|e a IH]; intros c b; [reflexivity|].
  destruct e; cbn [app cursor_trace cursor_after]; rewrite IH;
    rewrite <- ?andb_assoc; reflexivity.
Qed.

Lemma handlerish_cursor : forall evs c,
  forallb handlerish evs = true ->
  cursor_trace c evs = true /\ cursor_after c evs = c.
Proof.
  induction evs as [|e evs IH]; intros c H; [split; reflexivity|].
  cbn in H. apply andb_true_iff in H as [He H].
  destruct e; try discriminate; cbn; auto.
Qed.

Lemma handlerish_loopish : forall e, handlerish e = true -> loopish e = true.
Proof. destruct e; cbn; auto. Qed.

Lemma taskish_no_immediate : forall evs,
  forallb taskish evs = true -> forallb (fun e => negb (is_immediate e)) evs = true.
Proof.
  induction evs as [|e evs IH]; intros H; [reflexivity|].
  cbn in H. apply andb_true_iff in H as [He H].
  cbn. rewrite (IH H). destruct e; try discriminate; reflexivity.
Qed.

(** What a stretch of the poll loop does, from [s] to [s'], with [k]
    fetches. *)
Record polled (s s' : State) (k : nat) (evs : list Event) : Prop := {
  p_trace : trace s' = trace s ++ evs;
  p_loopish : forallb loopish evs = true;
  p_depth : depth evs = 0;
  p_calm : calm_fetches 0 evs = true;
  p_fetches : length (fetches evs) = k;
  p_file : stateFile s' = file_after (stateFile s) evs;
  p_cursor : lastUpdateId s' = cursor_after (lastUpdateId s) evs;
  p_idle : idle_slot s ->
           idle_slot s' /\ forallb (fun e => negb (is_immediate e)) evs = true
}.

Lemma polled_trans : forall s1 s2 s3 k1 k2 a b,
  polled s1 s2 k1 a -> polled s2 s3 k2 b -> polled s1 s3 (k1 + k2) (a ++ b).
Proof.
  intros s1 s2 s3 k1 k2 a b [] []. constructor.
  - rewrite p_trace1, p_trace0, app_assoc. reflexivity.
  - rewrite forallb_app, p_loopish0, p_loopish1. reflexivity.
  - rewrite depth_app. lia.
  - rewrite calm_fetches_app, p_calm0, p_depth0. exact p_calm1.
  - rewrite fetches_app, length_app. lia.
  - rewrite file_after_app, <- p_file0. exact p_file1.
  - rewrite cursor_after_app, <- p_cursor0. exact p_cursor1.
  - intros Hi. destruct (p_idle0 Hi) as [Hi2 Ha]. destruct (p_idle1 Hi2) as [Hi3 Hb].
    split; [exact Hi3|]. rewrite forallb_app, Ha, Hb. reflexivity.
Qed.

Lemma polled_handler : forall (A : Type) (c : M A) s,
  handler_at c s -> exists evs, polled s (exec c s) 0 evs /\ forallb handlerish evs = true.
Proof.
  intros A c s (L & F & (evs & Ht & Hh & Hd) & I).
  exists evs. split; [|exact Hh]. constructor.
  - exact Ht.
  - rewrite forallb_forall in *. intros e He. apply handlerish_loopish. auto.
  - exact Hd.
  - now apply handlerish_calm.
  - now rewrite handlerish_fetches.
  - now rewrite handlerish_file.
  - rewrite L. symmetry. now apply handlerish_cursor.
  - intros [Hi Hq]. destruct (I Hi Hq) as (Hi' & Hq' & (evs' & Ht' & Hh' & Hd')).
    split; [split; assumption|].
    rewrite Ht in Ht'. apply app_inv_head in Ht'. subst evs'.
    now apply taskish_no_immediate.
Qed.

Lemma polled_inert : forall (A : Type) (c : M A) s,
  inert_op c -> exists evs, polled s (exec c s) 0 evs /\ forallb handlerish evs = true.
Proof. intros. apply polled_handler. now apply handler_inert. Qed.

(** One update: advance the cursor, persist it, forward the message. *)
Lemma polled_update : forall w update s,
  let c := modify (set_lastUpdateId (update_id update)) ;;;
           saveState w (update_id update) ;;;
           match message update with
           | Some msg => processMessage w msg
           | None => ret Normal
           end in
  exists ok evs,
    polled s (exec c s) 0 (EvSaveState (update_id update) ok :: evs) /\
    forallb handlerish evs = true.
Proof.
  intros w update s c. subst c.
  set (handle := match message update with
                 | Some msg => processMessage w msg
                 | None => ret Normal
                 end).
  assert (Hh : forall s0, handler_at handle s0).
  { intros s0. unfold handle. destruct (message update);
      [apply handler_processMessage | apply handler_inert, inert_ret]. }
  rewrite exec_bind, exec_bind.
  set (s1 := exec (modify (set_lastUpdateId (update_id update))) s).
  set (s2 := exec (saveState w (update_id update)) s1).
  destruct (polled_handler _ handle s2 (Hh s2)) as (evs & P & Hev).
  exists (negb (write_fails w (clock s))), evs. split; [|exact Hev].
  assert (P1 : polled s s2 0 [EvSaveState (update_id update) (negb (write_fails w (clock s)))]).
  { unfold s2, s1, exec, saveState, bind, ask, emit, modify, ret. mcbn.
    destruct (write_fails w (clock s)); mcbn;
      (constructor; mcbn; try reflexivity; intros [Hi Hq]; split; [split; assumption | reflexivity]). }
  apply (polled_trans _ _ _ _ _ _ _ P1 P).
Qed.

Lemma polled_forward : forall w updates s,
  exists evs, polled s (exec (forward_updates w updates) s) 0 evs /\
              fetches evs = [] /\
              (forall lo, lastUpdateId s < lo ->
                 ascending lo (map update_id updates) ->
                 cursor_trace (lastUpdateId s) evs = true).
Proof.
  induction updates as [|u rest IH]; intros s; cbn [forward_updates].
  - destruct (polled_inert _ (ret Normal) s (inert_ret _ _)) as (evs & P & H).
    exists evs. split; [exact P|]. split; [now apply handlerish_fetches|].
    intros. now apply handlerish_cursor.
  - destruct (polled_update w u s) as (ok & evs & P & Hh). cbv zeta in P.
    rewrite !exec_bind in *.
    set (s3 := exec _ (exec _ (exec _ s))) in *.
    assert (Hc3 : lastUpdateId s3 = update_id u).
    { rewrite (p_cursor _ _ _ _ P). cbn. now apply handlerish_cursor. }
    assert (Hstep : forall lo, lastUpdateId s < lo ->
              ascending lo (map update_id (u :: rest)) ->
              cursor_trace (lastUpdateId s) (EvSaveState (update_id u) ok :: evs) = true
              /\ ascending (update_id u + 1) (map update_id rest)).
    { intros lo Hlo [Hu Hr]. split; [|exact Hr]. cbn.
      replace (lastUpdateId s <? update_id u) with true by (symmetry; apply Z.ltb_lt; lia).
      now apply handlerish_cursor. }
    match goal with |- context [fst ?x] => destruct (fst x) end.
    + destruct (IH s3) as (evs' & P' & F' & C').
      exists ((EvSaveState (update_id u) ok :: evs) ++ evs'). split.
      * apply (polled_trans _ _ _ _ _ _ _ P P').
      * split; [rewrite fetches_app, F', app_nil_r; cbn; now apply handlerish_fetches|].
        intros lo Hlo Ha. destruct (Hstep lo Hlo Ha) as [H1 H2].
        rewrite cursor_trace_app, H1. cbn [andb cursor_after].
        replace (cursor_after (update_id u) evs) with (lastUpdateId s3)
          by (rewrite Hc3; symmetry; now apply handlerish_cursor).
        apply (C' (update_id u + 1)); [rewrite Hc3; lia | exact H2].
    + exists (EvSaveState (update_id u) ok :: evs). split; [exact P|].
      split; [cbn; now apply handlerish_fetches|].
      intros lo Hlo Ha. now destruct (Hstep lo Hlo Ha).
Qed.

Lemma polled_getUpdates : forall w s,
  exists evs,
    polled s (exec (getUpdates w) s) 1 (EvGetUpdates (lastUpdateId s + 1) :: evs) /\
    forallb handlerish evs = true /\
    (fst (getUpdates w s) = [] \/
     fetch w (clock s) (lastUpdateId s + 1) = Fetched (fst (getUpdates w s))).
Proof.
  intros w s. unfold getUpdates, exec, bind, get, emit, modify, ask. mcbn.
  destruct (fetch w (clock s) (lastUpdateId s + 1)) as [result | code message] eqn:E.
  - exists []. unfold ret. mcbn. split; [|split; [reflexivity | now right]].
    constructor; mcbn; try reflexivity. intros Hi. split; [exact Hi | reflexivity].
  - destruct (negb (JS.eqb code (lit "ECONNABORTED"))).
    + exists [EvLog ERROR (lit "Failed to get updates: " ++ message)].
      unfold log, bind, emit, modify, ret. mcbn.
      split; [|split; [reflexivity | now left]].
      constructor; mcbn; try reflexivity.
      * now rewrite <- app_assoc.
      * intros Hi. split; [exact Hi | reflexivity].
    + exists []. unfold ret. mcbn. split; [|split; [reflexivity | now left]].
      constructor; mcbn; try reflexivity. intros Hi. split; [exact Hi | reflexivity].
Qed.

Lemma polled_iterations : forall w fuel s,
  exists evs, polled s (exec (poll_iterations w fuel) s) fuel evs /\
              (ordered_transport w -> cursor_trace (lastUpdateId s) evs = true) /\
              (fuel <> 0%nat -> hd_error (fetches evs) = Some (lastUpdateId s + 1)).
Proof.
  induction fuel as [|fuel IH]; intros s; cbn [poll_iterations].
  - destruct (polled_inert _ (ret tt) s (inert_ret _ _)) as (evs & P & H).
    exists evs. split; [exact P|]. split; [intros; now apply handlerish_cursor|].
    intros Hne. now contradiction Hne.
  - rewrite !exec_bind.
    destruct (polled_getUpdates w s) as (g & Pg & Hg & Hfetch).
    set (s1 := exec (getUpdates w) s) in *.
    set (updates := fst (getUpdates w s)) in *.
    assert (Hc1 : lastUpdateId s1 = lastUpdateId s).
    { rewrite (p_cursor _ _ _ _ Pg). cbn. now apply handlerish_cursor. }
    destruct (polled_forward w updates s1) as (f & Pf & Ff & Cf).
    set (s2 := exec (forward_updates w updates) s1) in *.
    set (after := match fst (forward_updates w updates s1) with
                  | Normal => ret tt
                  | Throw e => log ERROR (lit "Poll error: " ++ e) ;;; emit (EvSleep 5000)
                  end).
    assert (Ha : inert_op after) by (unfold after; inert_all).
    destruct (polled_inert _ after s2 Ha) as (a & Pa & Hah).
    set (s3 := exec after s2) in *.
    destruct (IH s3) as (r & Pr & Cr & _).
    exists (((EvGetUpdates (lastUpdateId s + 1) :: g) ++ f) ++ a ++ r). split.
    { replace (S fuel) with ((1 + 0) + (0 + fuel))%nat by lia.
      apply (polled_trans _ s2); [apply (polled_trans _ s1); assumption|].
      apply (polled_trans _ s3); assumption. }
    split; [|intros _; reflexivity].
    + intros Hord.
      assert (Hf : cursor_trace (lastUpdateId s) f = true).
      { rewrite <- Hc1. apply (Cf (lastUpdateId s + 1)); [lia|].
        destruct Hfetch as [Hnil | Hf]; [rewrite Hnil; exact I|].
        apply (Hord _ _ _ Hf). }
      destruct (handlerish_cursor g (lastUpdateId s) Hg) as [Hg1 Hg2].
      rewrite cursor_trace_app. apply andb_true_iff. split.
      * rewrite cursor_trace_app. cbn [cursor_trace cursor_after].
        rewrite Z.eqb_refl, Hg1, Hg2. exact Hf.
      * rewrite cursor_trace_app.
        destruct (handlerish_cursor a (cursor_after (lastUpdateId s)
                    ((EvGetUpdates (lastUpdateId s + 1) :: g) ++ f)) Hah) as [Ha1 Ha2].
        rewrite Ha1, Ha2. cbn [andb].
        replace (cursor_after (lastUpdateId s) ((EvGetUpdates (lastUpdateId s + 1) :: g) ++ f))
          with (lastUpdateId s3); [exact (Cr Hord)|].
        rewrite (p_cursor _ _ _ _ Pa), (proj2 (handlerish_cursor a _ Hah)).
        rewrite (p_cursor _ _ _ _ Pf), Hc1, cursor_after_app. cbn [cursor_after].
        now rewrite Hg2.
Qed.

(** What the poll loop does from [s]: [fuel] fetches, each with no query in
    flight, and under an ordered transport an increasing cursor. *)
Definition loop_facts (w : World) (s s' : State) (fuel : nat) : Prop :=
  exists evs, polled s s' fuel evs /\
    (ordered_transport w -> cursor_trace (lastUpdateId s) evs = true) /\
    (fuel <> 0%nat -> hd_error (fetches evs) = Some (lastUpdateId s + 1)).

Lemma loop_facts_after_inert : forall (A B : Type) w (c : M A) (k : A -> M B) s fuel,
  inert_op c ->
  (forall a s1, loop_facts w s1 (exec (k a) s1) fuel) ->
  loop_facts w s (exec (bind c k) s) fuel.
Proof.
  intros A B w c k s fuel Hc Hk. rewrite exec_bind.
  destruct (polled_inert _ c s Hc) as (a & Pa & Ha).
  destruct (Hk (fst (c s)) (exec c s)) as (r & Pr & Cr & Fr).
  assert (Hcur : lastUpdateId (exec c s) = lastUpdateId s) by apply Hc.
  exists (a ++ r). split; [apply (polled_trans _ _ _ 0 fuel _ _ Pa Pr)|]. split.
  - intros Hord. destruct (handlerish_cursor a (lastUpdateId s) Ha) as [H1 H2].
    rewrite cursor_trace_app, H1, H2, <- Hcur. exact (Cr Hord).
  - intros Hne. rewrite fetches_app, (handlerish_fetches a Ha), <- Hcur. exact (Fr Hne).
Qed.

Lemma pollLoop_facts : forall w fuel s, loop_facts w s (exec (pollLoop w fuel) s) fuel.
Proof.
  intros w fuel s. unfold pollLoop.
  repeat (apply loop_facts_after_inert; [inert_all | intros]).
  apply polled_iterations.
Qed.

Lemma main_without_token : forall w file fuel,
  first_truthy (TELEGRAM_BOT_TOKEN w) = None ->
  main w file fuel =
  set_trace [EvConsoleError (lit "ERROR: Set TELEGRAM_BOT_TOKEN in .env"); EvExit 1]
    (initial w file).
Proof. intros w file fuel H. unfold main. rewrite H. reflexivity. Qed.

Lemma main_with_token : forall w file fuel,
  first_truthy (TELEGRAM_BOT_TOKEN w) <> None ->
  main w file fuel = exec (pollLoop w fuel) (initial w file).
Proof.
  intros w file fuel H. unfold main.
  destruct (first_truthy (TELEGRAM_BOT_TOKEN w)); [reflexivity | contradiction].
Qed.

Lemma main_facts : forall w file fuel,
  first_truthy (TELEGRAM_BOT_TOKEN w) <> None ->
  polled (initial w file) (main w file fuel) fuel (trace (main w file fuel)) /\
  (ordered_transport w -> cursor_trace (loadState file) (trace (main w file fuel)) = true) /\
  (fuel <> 0%nat -> hd_error (fetches (trace (main w file fuel))) = Some (loadState file + 1)).
Proof.
  intros w file fuel H. rewrite (main_with_token _ _ _ H).
  destruct (pollLoop_facts w fuel (initial w file)) as (evs & P & C & F).
  assert (E : trace (exec (pollLoop w fuel) (initial w file)) = evs) by apply P.
  rewrite E. auto.
Qed.

Lemma loopish_no_exit : forall evs,
  forallb loopish evs = true -> forallb (fun e => negb (is_exit e)) evs = true.
Proof.
  induction evs as [|e evs IH]; intros H; [reflexivity|].
  cbn in H. apply andb_true_iff in H as [He H]. cbn. rewrite (IH H).
  destruct e; try discriminate; reflexivity.
Qed.

(** C8, what the code does in place of the claim: the loop awaits
    [processMessage], and [processMessage] awaits the executor.  So in
    every run of the process each fetch is issued while no query is in
    flight; a call of [processMessage] returns only when every query it
    started has ended; and, from start-up, the slot is idle and the queue
    empty whenever the loop goes on, so that no queued callback is ever
    scheduled. *)
Theorem poll_loop_awaits_each_task :
  forall w file fuel,
    let s' := main w file fuel in
    calm_fetches 0 (trace s') = true /\
    forallb (fun e => negb (is_immediate e)) (trace s') = true /\
    idle_slot s' /\
    forall msg s, grows handlerish 0 s (exec (processMessage w msg) s).
Proof.
  intros w file fuel s'.
  assert (Hmsg : forall msg s, grows handlerish 0 s (exec (processMessage w msg) s))
    by (intros msg s; apply (handler_processMessage w msg s)).
  destruct (first_truthy (TELEGRAM_BOT_TOKEN w)) eqn:E.
  - assert (Ht : first_truthy (TELEGRAM_BOT_TOKEN w) <> None) by congruence.
    destruct (main_facts w file fuel Ht) as (P & _).
    assert (Hidle : idle_slot (initial w file)) by (split; reflexivity).
    destruct (p_idle _ _ _ _ P Hidle) as [Hi Hn].
    repeat split; try assumption; try apply Hi. exact (p_calm _ _ _ _ P).
  - unfold s'. rewrite (main_without_token _ _ _ E). repeat split; assumption.
Qed.

(** C9: without a bot token (unset or empty) the process writes the error
    line and exits with code 1, and no fetch is ever issued, whatever the
    fuel.  With a token it never exits: each pass of the loop issues its
    fetch, whatever the transport delivers and whatever the handlers do,
    an exception thrown by a handler included. *)
Theorem missing_token_is_the_only_exit :
  forall w file fuel,
    let s' := main w file fuel in
    (first_truthy (TELEGRAM_BOT_TOKEN w) = None ->
       trace s' = [EvConsoleError (lit "ERROR: Set TELEGRAM_BOT_TOKEN in .env"); EvExit 1] /\
       fetches (trace s') = []) /\
    (first_truthy (TELEGRAM_BOT_TOKEN w) <> None ->
       forallb (fun e => negb (is_exit e)) (trace s') = true /\
       length (fetches (trace s')) = fuel).
Proof.
  intros w file fuel s'. split.
  - intros H. unfold s'. rewrite (main_without_token _ _ _ H). split; reflexivity.
  - intros H. destruct (main_facts w file fuel H) as (P & _). split.
    + apply loopish_no_exit. exact (p_loopish _ _ _ _ P).
    + exact (p_fetches _ _ _ _ P).
Qed.

(** *** The cursor *)

Lemma loadState_written : forall id, loadState (Some (Some id)) = id.
Proof. intros id. unfold loadState. destruct (id =? 0) eqn:E; [apply Z.eqb_eq in E; lia | reflexivity]. Qed.

Lemma cursor_trace_fetches : forall evs c off,
  cursor_trace c evs = true -> In off (fetches evs) -> c + 1 <= off.
Proof.
  induction evs as [|e evs IH]; intros c off H Hin; [contradiction|].
  destruct e; cbn in H, Hin; try (eapply IH; eassumption).
  - apply andb_true_iff in H as [H1 H2]. destruct Hin as [<- | Hin].
    + apply Z.eqb_eq in H1. lia.
    + eapply IH; eassumption.
  - apply andb_true_iff in H as [H1 H2]. apply Z.ltb_lt in H1.
    specialize (IH _ _ H2 Hin). lia.
Qed.

Lemma cursor_trace_prefix : forall a b c,
  cursor_trace c (a ++ b) = true -> cursor_trace c a = true.
Proof.
  intros a b c H. rewrite cursor_trace_app in H. now apply andb_true_iff in H as [H _].
Qed.

(** Once an identifier is in the file, later writes only raise it. *)
Lemma file_after_written : forall evs c j,
  j <= c -> cursor_trace c evs = true ->
  exists m, file_after (Some (Some j)) evs = Some (Some m) /\ j <= m.
Proof.
  induction evs as [|e evs IH]; intros c j Hj H; [exists j; split; [reflexivity | lia]|].
  destruct e; cbn in H |- *; try (eapply IH; eassumption).
  - apply andb_true_iff in H as [_ H]. eapply IH; eassumption.
  - apply andb_true_iff in H as [H1 H2]. apply Z.ltb_lt in H1. destruct ok.
    + destruct (IH updateId updateId (Z.le_refl _) H2) as (m & Hm & Hle).
      exists m. split; [exact Hm | lia].
    + apply (IH updateId j); [lia | exact H2].
Qed.

Lemma file_after_saved : forall evs c f id,
  cursor_trace c evs = true -> In (EvSaveState id true) evs ->
  exists m, file_after f evs = Some (Some m) /\ id <= m.
Proof.
  induction evs as [|e evs IH]; intros c f id H Hin; [contradiction|].
  destruct Hin as [-> | Hin].
  - cbn in H |- *. apply andb_true_iff in H as [_ H].
    apply (file_after_written evs id id (Z.le_refl _) H).
  - destruct e; cbn in H |- *; try (eapply IH; eassumption).
    + apply andb_true_iff in H as [_ H]. eapply IH; eassumption.
    + apply andb_true_iff in H as [_ H]. destruct ok; eapply IH; eassumption.
Qed.

Lemma file_after_not_below : forall evs c f,
  loadState f <= c -> cursor_trace c evs = true ->
  loadState f <= loadState (file_after f evs).
Proof.
  induction evs as [|e evs IH]; intros c f Hle H; [cbn; lia|].
  destruct e; cbn in H |- *; try (eapply IH; eassumption).
  - apply andb_true_iff in H as [_ H]. eapply IH; eassumption.
  - apply andb_true_iff in H as [H1 H2]. apply Z.ltb_lt in H1. destruct ok.
    + destruct (file_after_written evs updateId updateId (Z.le_refl _) H2) as (m & Hm & Hge).
      rewrite Hm, loadState_written. lia.
    + apply (IH updateId); [lia | exact H2].
Qed.

(** C5, as the code has it: the first fetch after a start asks for the
    offset one past the identifier loaded from the state file, whatever
    the transport does.  The code assigns the cursor the identifier of
    each update without comparing it, so the rest needs a transport that
    answers every fetch with identifiers at or above the offset asked
    for, in increasing order.  Then the cursor only grows, in memory and
    in the file: every fetch asks for the cursor plus one and every
    advance is to a larger identifier.  So if the process stops after any
    prefix of its events and is started again on the file as written so
    far, the loaded cursor is not below the one loaded before, and no
    fetch of the new run asks for an offset as low as an identifier
    persisted before the stop. *)
Theorem cursor_resumes_after_persisted :
  forall w w' file fuel fuel' pre post,
    first_truthy (TELEGRAM_BOT_TOKEN w) <> None ->
    first_truthy (TELEGRAM_BOT_TOKEN w') <> None ->
    trace (main w file fuel) = pre ++ post ->
    let crashed := file_after file pre in
    let restarted := trace (main w' crashed (S fuel')) in
    stateFile (main w file fuel) = file_after file (trace (main w file fuel)) /\
    hd_error (fetches restarted) = Some (loadState crashed + 1) /\
    (ordered_transport w ->
       cursor_trace (loadState file) (trace (main w file fuel)) = true /\
       loadState file <= loadState crashed /\
       (ordered_transport w' ->
          (forall off, In off (fetches restarted) -> loadState crashed + 1 <= off) /\
          (forall id off,
              In (EvSaveState id true) pre -> In off (fetches restarted) -> id < off))).
Proof.
  intros w w' file fuel fuel' pre post Ht Ht' Hsplit crashed restarted.
  destruct (main_facts w file fuel Ht) as (P & C & _).
  destruct (main_facts w' crashed (S fuel') Ht') as (_ & C' & F').
  specialize (F' (Nat.neq_succ_0 _)).
  split; [exact (p_file _ _ _ _ P)|].
  split; [exact F'|].
  intros Hord. specialize (C Hord).
  assert (Cpre : cursor_trace (loadState file) pre = true)
    by (rewrite Hsplit in C; eapply cursor_trace_prefix; exact C).
  split; [exact C|].
  split; [apply (file_after_not_below pre (loadState file)); [lia | exact Cpre]|].
  intros Hord'. specialize (C' Hord').
  assert (Hoff : forall off, In off (fetches restarted) -> loadState crashed + 1 <= off)
    by (intros off Hin; eapply cursor_trace_fetches; eassumption).
  split; [exact Hoff|].
  intros id off Hid Hin.
  destruct (file_after_saved pre _ file id Cpre Hid) as (m & Hm & Hle).
  specialize (Hoff off Hin). unfold crashed in Hoff.
  rewrite Hm, loadState_written in Hoff. lia.
Qed.

(** *** Authorisation *)

Lemma unset_allowlist_is_empty : forall w,
  TELEGRAM_ALLOWED_CHAT_IDS w = None \/ TELEGRAM_ALLOWED_CHAT_IDS w = Some [] ->
  ALLOWED_CHAT_IDS w = [].
Proof. intros w [H | H]; unfold ALLOWED_CHAT_IDS; rewrite H; reflexivity. Qed.

(** C10: with an empty allowlist [isAuthorized] is false for every chat
    identifier.  A message that carries text is then answered with the
    unauthorised reply and nothing else, and no message at all, with or
    without text, starts a query, touches the queue or the slot. *)
Theorem empty_allowlist_denies_everyone :
  forall w,
    ALLOWED_CHAT_IDS w = [] ->
    (forall chatId, isAuthorized (ALLOWED_CHAT_IDS w) chatId = false) /\
    (forall msg s chatId raw,
        chat msg = Some chatId -> text msg = Some raw -> trim raw <> [] ->
        processMessage w msg s =
        (Normal,
         exec (sendMessage w chatId (unauthorized_text chatId) None)
           (exec (log WARN (unauthorized_line (sender_name msg) chatId)) s))) /\
    (forall msg s,
        kept s (exec (processMessage w msg) s) /\
        grows inert 0 s (exec (processMessage w msg) s)).
Proof.
  intros w Hw. rewrite Hw.
  assert (Hno : forall chatId, isAuthorized [] chatId = false) by reflexivity.
  split; [exact Hno|]. split.
  - intros msg s chatId raw Hc Ht Hn. unfold processMessage.
    rewrite Hc, Ht, Hw. cbn [option_map]. rewrite (falsy_false _ Hn), Hno. cbn [negb].
    rewrite run_bind, run_bind. reflexivity.
  - intros msg s.
    assert (H : inert_op (processMessage w msg)).
    { unfold processMessage. rewrite Hw.
      destruct (chat msg) as [chatId|]; [|inert_all].
      destruct (option_map trim (text msg)) as [t|]; [|inert_all].
      destruct (falsy t); [inert_all|]. rewrite Hno. cbn [negb]. inert_all. }
    apply H.
Qed.

(** *** The formatter on plain text *)

Lemma replace_without_match : forall r f s prev fuel,
  has_match_from r prev s = false -> replace_from r f fuel (prev, s) = s.
Proof.
  induction s as [|y rest IH]; intros prev fuel H; destruct fuel as [|fuel];
    try reflexivity; cbn [replace_from has_match_from snd] in *;
    destruct (match_at r (prev, _)); try discriminate; [reflexivity|].
  f_equal. now apply IH.
Qed.

Lemma replace_all_without_match : forall r f s,
  has_match r s = false -> replace_all r f s = s.
Proof. intros. unfold replace_all. now apply replace_without_match. Qed.

Lemma absent_char_no_match : forall c s prev,
  forallb (fun y => negb (c =? y)) s = true -> has_match_from (RChar c) prev s = false.
Proof.
  induction s as [|y rest IH]; intros prev H; [reflexivity|].
  cbn in H. apply andb_true_iff in H as [Hy H]. apply negb_true_iff in Hy.
  cbn [has_match_from]. unfold match_at. cbn [m step_unit snd]. rewrite Hy.
  now apply IH.
Qed.

Lemma html_free_chars : forall text c,
  html_free text = true ->
  c = ch "&" \/ c = ch "<" \/ c = ch ">" ->
  forallb (fun y => negb (c =? y)) text = true.
Proof.
  intros text c H Hc. unfold html_free in H. rewrite forallb_forall in *.
  intros y Hy. specialize (H y Hy). apply negb_true_iff in H.
  apply orb_false_iff in H as [H H3]. apply orb_false_iff in H as [H1 H2].
  apply negb_true_iff. rewrite Z.eqb_sym.
  destruct Hc as [-> | [-> | ->]]; assumption.
Qed.

Lemma escapeHtml_html_free : forall text, html_free text = true -> escapeHtml text = text.
Proof.
  intros text H.
  assert (Hc : forall c, c = ch "&" \/ c = ch "<" \/ c = ch ">" ->
                 has_match (RChar c) text = false).
  { intros c Hc. unfold has_match. now apply absent_char_no_match, html_free_chars. }
  unfold escapeHtml. cbv zeta.
  rewrite (replace_all_without_match (RChar (ch "&"))) by (apply Hc; auto).
  rewrite (replace_all_without_match (RChar (ch "<"))) by (apply Hc; auto).
  rewrite (replace_all_without_match (RChar (ch ">"))) by (apply Hc; auto).
  reflexivity.
Qed.

(** The loop of a repetition, as [m] has it. *)
Definition rep_loop (ma : pos -> caps -> cont -> result) (greedy : bool) (k : cont)
  : nat -> nat -> option nat -> pos -> caps -> result :=
  fix rep (fuel min : nat) (max : option nat) (p : pos) (c : caps) {struct fuel}
    : result :=
    match fuel with
    | O => None
    | S fuel' =>
        let more (_ : unit) :=
          match max with
          | Some O => None
          | _ =>
              ma p c (fun p' c' =>
                match min with
                | O => if (length (snd p') <? length (snd p))%nat
                       then rep fuel' O (dec_max max) p' c'
                       else None
                | S min' => rep fuel' min' (dec_max max) p' c'
                end)
          end in
        match min with
        | S _ => more tt
        | O => if greedy then orElse (more tt) (fun _ => k p c)
               else orElse (k p c) more
        end
    end.

Lemma m_repeat : forall a min max greedy p c k,
  m (RRepeat min max greedy a) p c k =
  rep_loop (m a) greedy k (S (min + length (snd p))) min max p c.
Proof. reflexivity. Qed.

Lemma rep_loop_S : forall ma greedy k fuel min max p c,
  rep_loop ma greedy k (S fuel) min max p c =
  match min with
  | S min' =>
      match max with
      | Some O => None
      | _ => ma p c (fun p' c' => rep_loop ma greedy k fuel min' (dec_max max) p' c')
      end
  | O =>
      let more (_ : unit) :=
        match max with
        | Some O => None
        | _ => ma p c (fun p' c' =>
                 if (length (snd p') <? length (snd p))%nat
                 then rep_loop ma greedy k fuel O (dec_max max) p' c'
                 else None)
        end in
      if greedy then orElse (more tt) (fun _ => k p c) else orElse (k p c) more
  end.
Proof. intros. destruct min; reflexivity. Qed.

Lemma m_seq : forall a b p c k,
  m (RSeq a b) p c k = m a p c (fun p' c' => m b p' c' k).
Proof. reflexivity. Qed.

Lemma m_group : forall i a p c k,
  m (RGroup i a) p c k = m a p c (fun p' c' => k p' ((i, consumed p p') :: c')).
Proof. reflexivity. Qed.

Lemma m_set : forall neg items p c k,
  m (RSet neg items) p c k = step_unit (in_set neg items) p c k.
Proof. reflexivity. Qed.

Lemma m_char : forall x p c k, m (RChar x) p c k = step_unit (Z.eqb x) p c k.
Proof. reflexivity. Qed.

Lemma m_bol : forall p c k,
  m RBol p c k = if at_line_start (fst p) then k p c else None.
Proof. intros [[y|] s] c k; reflexivity. Qed.

(** A pattern can only fail where every continuation fails. *)
Lemma rep_none : forall (Q : jsstring -> Prop) ma greedy k,
  (forall p c k', Q (snd p) ->
     (forall p' c', Q (snd p') -> k' p' c' = None) -> ma p c k' = None) ->
  (forall p c, Q (snd p) -> k p c = None) ->
  forall fuel min max p c, Q (snd p) -> rep_loop ma greedy k fuel min max p c = None.
Proof.
  intros Q ma greedy k Hma Hk. induction fuel as [|fuel IH]; intros min max p c Hq;
    [reflexivity|].
  rewrite rep_loop_S.
  assert (H1 : forall min' max',
             ma p c (fun p' c' => rep_loop ma greedy k fuel min' max' p' c') = None)
    by (intros; apply Hma; [exact Hq | intros; now apply IH]).
  assert (H2 : forall max',
             ma p c (fun p' c' =>
               if (length (snd p') <? length (snd p))%nat
               then rep_loop ma greedy k fuel O max' p' c'
               else None) = None).
  { intros max'. apply Hma; [exact Hq|]. intros p' c' Hq'.
    destruct (_ <? _)%nat; [now apply IH | reflexivity]. }
  destruct min as [|min']; destruct max as [[|n]|]; destruct greedy;
    cbv beta zeta; cbn [orElse dec_max];
    rewrite ?H1, ?H2, ?(Hk p c Hq); cbn [orElse]; rewrite ?H2; reflexivity.
Qed.

Lemma m_none : forall (Q : jsstring -> Prop),
  (forall y rest, Q (y :: rest) -> Q rest) ->
  forall r p c k,
    Q (snd p) -> (forall p' c', Q (snd p') -> k p' c' = None) -> m r p c k = None.
Proof.
  intros Q Qt.
  assert (Hstep : forall ok p c k,
             Q (snd p) -> (forall p' c', Q (snd p') -> k p' c' = None) ->
             step_unit ok p c k = None).
  { intros ok p c k Hq Hk. unfold step_unit. destruct (snd p) as [|y rest] eqn:E;
      [reflexivity|]. destruct (ok y); [|reflexivity]. apply Hk. exact (Qt _ _ Hq). }
  induction r; intros p cs k Hq Hk.
  - apply Hstep; assumption.
  - apply Hstep; assumption.
  - apply Hstep; assumption.
  - rewrite m_seq. apply IHr1; [exact Hq|]. intros p' c' Hq'. now apply IHr2.
  - rewrite m_repeat.
    apply (rep_none Q); [intros; now apply IHr | intros; now apply Hk | exact Hq].
  - rewrite m_group. apply IHr; [exact Hq|]. intros p' c' Hq'. now apply Hk.
  - specialize (Hk p cs Hq). cbn [m].
    destruct (fst p); [destruct (existsb _ _)|]; auto.
  - specialize (Hk p cs Hq). cbn [m].
    destruct (snd p); [|destruct (existsb _ _)]; auto.
  - specialize (Hk p cs Hq). rewrite m_bol. destruct (at_line_start _); auto.
  - specialize (Hk p cs Hq). cbn [m].
    destruct (snd p); [|destruct (is_line_terminator _)]; auto.
  - specialize (Hk p cs Hq). cbn [m]. destruct (fst p); auto.
  - specialize (Hk p cs Hq). cbn [m]. destruct (snd p); auto.
Qed.

(** The pattern cannot match without reading a unit that [bad] holds of. *)
Fixpoint needs (bad : Z -> bool) (r : regex) : bool :=
  match r with
  | RChar x => bad x
  | RSeq a b => needs bad a || needs bad b
  | RGroup _ a => needs bad a
  | RRepeat (S _) _ _ a => needs bad a
  | _ => false
  end.

Definition clean (bad : Z -> bool) (s : jsstring) : Prop :=
  forallb (fun y => negb (bad y)) s = true.

Lemma clean_tail : forall bad y rest, clean bad (y :: rest) -> clean bad rest.
Proof. unfold clean. intros bad y rest H. cbn in H. now apply andb_true_iff in H as [_ H]. Qed.

Lemma needs_none : forall bad r,
  needs bad r = true ->
  forall p c k, clean bad (snd p) -> m r p c k = None.
Proof.
  intros bad. induction r; intros Hn p cs k Hq; try discriminate Hn.
  - rewrite m_char. unfold step_unit. destruct (snd p) as [|y rest] eqn:E; [reflexivity|].
    unfold clean in Hq. cbn in Hq. apply andb_true_iff in Hq as [Hy _].
    destruct (c =? y) eqn:Ec; [|reflexivity].
    apply Z.eqb_eq in Ec. subst y. cbn [needs] in Hn. rewrite Hn in Hy. discriminate.
  - cbn [needs] in Hn. rewrite m_seq. apply orb_true_iff in Hn as [Hn | Hn].
    + now apply IHr1.
    + apply (m_none (clean bad) (clean_tail bad)); [exact Hq|].
      intros p' c' Hq'. now apply IHr2.
  - destruct min as [|min']; [discriminate Hn|]. cbn [needs] in Hn.
    rewrite m_repeat, rep_loop_S. destruct max as [[|n]|]; [reflexivity | |];
      now apply IHr.
  - cbn [needs] in Hn. rewrite m_group. now apply IHr.
Qed.

Lemma no_match_where : forall (Q : jsstring -> Prop) r,
  (forall y rest, Q (y :: rest) -> Q rest) ->
  (forall p, Q (snd p) -> match_at r p = None) ->
  forall s prev, Q s -> has_match_from r prev s = false.
Proof.
  intros Q r Qt H. induction s as [|y rest IH]; intros prev Hq;
    cbn [has_match_from]; rewrite (H (prev, _) Hq); [reflexivity|].
  apply IH. exact (Qt _ _ Hq).
Qed.

Lemma needs_no_match : forall bad r s,
  needs bad r = true -> clean bad s -> has_match r s = false.
Proof.
  intros bad r s Hn Hq. unfold has_match.
  apply (no_match_where (clean bad)); [apply clean_tail | | exact Hq].
  intros p Hp. unfold match_at. now apply (needs_none bad).
Qed.

(** *** List markers *)

Lemma step_unit_ext : forall ok ok' p c k,
  (forall y, ok y = ok' y) -> step_unit ok p c k = step_unit ok' p c k.
Proof.
  intros ok ok' p c k H. unfold step_unit. destruct (snd p) as [|y rest]; [reflexivity|].
  now rewrite H.
Qed.

(** A greedy repetition of a one-unit test fails when the continuation
    fails after every run of units that pass the test. *)
Lemma rep_units_none : forall ma ok k,
  (forall p c K, ma p c K = step_unit ok p c K) ->
  forall fuel min prev s c,
    (forall pre rest prev' c',
        s = pre ++ rest -> forallb ok pre = true -> (min <= length pre)%nat ->
        k (prev', rest) c' = None) ->
    rep_loop ma true k fuel min None (prev, s) c = None.
Proof.
  intros ma ok k Hma. induction fuel as [|fuel IH]; intros min prev s c Hk;
    [reflexivity|].
  assert (Hnext : forall min' (guard : bool),
             (min' <= min)%nat -> (min <= S min')%nat ->
             step_unit ok (prev, s) c (fun p' c' =>
               if guard then rep_loop ma true k fuel min' None p' c' else None) = None).
  { intros min' guard H1 H2. unfold step_unit. cbn [snd].
    destruct s as [|y rest]; [reflexivity|]. destruct (ok y) eqn:Hy; [|reflexivity].
    destruct guard; [|reflexivity]. apply IH.
    intros pre rest' prev' c' E Hpre Hle.
    apply (Hk (y :: pre) rest' prev' c'); cbn; [now rewrite E | now rewrite Hy | lia]. }
  rewrite rep_loop_S. destruct min as [|min']; cbv beta zeta; cbn [dec_max].
  - rewrite Hma. cbn [snd].
    assert (E : step_unit ok (prev, s) c (fun p' c' =>
                  if (length (snd p') <? length s)%nat
                  then rep_loop ma true k fuel 0 None p' c' else None) = None).
    { unfold step_unit. cbn [snd]. destruct s as [|y rest]; [reflexivity|].
      destruct (ok y) eqn:Hy; [|reflexivity]. destruct (_ <? _)%nat; [|reflexivity].
      apply IH. intros pre rest' prev' c' E Hpre Hle.
      apply (Hk (y :: pre) rest' prev' c'); cbn; [now rewrite E | now rewrite Hy | lia]. }
    rewrite E. cbn [orElse]. apply (Hk [] s prev c); [reflexivity | reflexivity | cbn; lia].
  - rewrite Hma. specialize (Hnext min' true). cbn iota in Hnext. apply Hnext; lia.
Qed.

Lemma in_set_one : forall k y, in_set false [k] y = in_cls y k.
Proof. intros. unfold in_set. cbn. destruct (in_cls y k); reflexivity. Qed.

Lemma dropWhile_stop : forall (p : Z -> bool) pre y rest,
  forallb p pre = true -> p y = false -> dropWhile p (pre ++ y :: rest) = y :: rest.
Proof.
  induction pre as [|x pre IH]; intros y rest H Hy; cbn.
  - now rewrite Hy.
  - cbn in H. apply andb_true_iff in H as [Hx H]. rewrite Hx. now apply IH.
Qed.

Lemma blanks_then_blank : forall k fuel prev' rest c',
  rest = [] \/ (exists d rest', rest = d :: rest' /\ is_space d = false) ->
  rep_loop (m (RSet false [CSpace])) true k fuel 1 None (prev', rest) c' = None.
Proof.
  intros k fuel prev' rest c' H. destruct fuel as [|fuel]; [reflexivity|].
  rewrite rep_loop_S. rewrite m_set. unfold step_unit. cbn [snd].
  destruct H as [-> | (d & rest' & -> & Hd)]; [reflexivity|].
  rewrite in_set_one. cbn [in_cls]. now rewrite Hd.
Qed.

Lemma re_bullet_at : forall prev s,
  at_line_start prev = false \/ bullet_item s = false ->
  match_at re_bullet (prev, s) = None.
Proof.
  intros prev s H. unfold match_at, re_bullet. cbn [seq]. rewrite m_seq, m_bol. cbn [fst].
  destruct (at_line_start prev) eqn:Hs; [|reflexivity].
  destruct H as [H | H]; [discriminate|].
  rewrite m_seq. unfold star. rewrite m_repeat.
  apply (rep_units_none _ is_space).
  { intros p c K. rewrite m_set. apply step_unit_ext. intros y. apply in_set_one. }
  intros pre rest prev' c' E Hpre _.
  rewrite m_seq, m_set. unfold step_unit. cbn [snd].
  destruct rest as [|y rest]; [reflexivity|].
  destruct (in_set false [CChar (ch "-"); CChar (ch "*")] y) eqn:Hy; [|reflexivity].
  unfold plus. rewrite m_repeat. apply blanks_then_blank.
  destruct rest as [|d rest]; [now left|]. right. exists d, rest. split; [reflexivity|].
  assert (Hmark : (y =? ch "-") || (y =? ch "*") = true).
  { unfold in_set in Hy. cbn in Hy. rewrite orb_false_r in Hy. exact Hy. }
  assert (Hns : is_space y = false).
  { apply orb_true_iff in Hmark as [Hm | Hm]; apply Z.eqb_eq in Hm; subst y; reflexivity. }
  unfold bullet_item in H. rewrite E, (dropWhile_stop is_space pre y (d :: rest) Hpre Hns) in H.
  rewrite Hmark in H. exact H.
Qed.

Lemma re_numbered_at : forall prev s,
  at_line_start prev = false \/ numbered_item s = false ->
  match_at re_numbered (prev, s) = None.
Proof.
  intros prev s H. unfold match_at, re_numbered. cbn [seq]. rewrite m_seq, m_bol. cbn [fst].
  destruct (at_line_start prev) eqn:Hs; [|reflexivity].
  destruct H as [H | H]; [discriminate|].
  rewrite m_seq, m_group. unfold plus. rewrite m_repeat.
  apply (rep_units_none _ is_digit).
  { intros p c K. rewrite m_set. apply step_unit_ext. intros y. apply in_set_one. }
  intros pre rest prev' c' E Hpre Hlen.
  rewrite m_seq, m_char. unfold step_unit. cbn [snd].
  destruct rest as [|dot rest]; [reflexivity|].
  destruct (ch "." =? dot) eqn:Hdot; [|reflexivity].
  rewrite m_repeat. apply blanks_then_blank.
  destruct rest as [|d rest]; [now left|]. right. exists d, rest. split; [reflexivity|].
  apply Z.eqb_eq in Hdot. subst dot.
  destruct pre as [|c0 pre]; [cbn in Hlen; lia|].
  unfold numbered_item in H. rewrite E in H. cbn [app] in H.
  assert (Hc0 : is_digit c0 = true) by (cbn in Hpre; now apply andb_true_iff in Hpre as [Hc _]).
  rewrite Hc0 in H. cbn [andb] in H.
  change (c0 :: pre ++ ch "." :: d :: rest) with ((c0 :: pre) ++ ch "." :: d :: rest) in H.
  rewrite (dropWhile_stop is_digit (c0 :: pre) (ch ".") (d :: rest) Hpre eq_refl) in H.
  rewrite Z.eqb_refl in H. exact H.
Qed.

Lemma no_match_at_line_starts : forall r (item : jsstring -> bool),
  (forall prev s, at_line_start prev = false \/ item s = false ->
                  match_at r (prev, s) = None) ->
  forall s prev,
    forallb (fun l => negb (item l)) (line_starts prev s) = true ->
    has_match_from r prev s = false.
Proof.
  intros r item H. induction s as [|y rest IH]; intros prev Hl;
    cbn [line_starts] in Hl; rewrite forallb_app in Hl;
    apply andb_true_iff in Hl as [Hhere Hrest]; cbn [has_match_from].
  - rewrite H; [reflexivity|]. destruct (at_line_start prev); [right | now left].
    cbn in Hhere. rewrite andb_true_r in Hhere. now apply negb_true_iff in Hhere.
  - rewrite H; [now apply IH|]. destruct (at_line_start prev); [right | now left].
    cbn in Hhere. rewrite andb_true_r in Hhere. now apply negb_true_iff in Hhere.
Qed.

(** *** Runs of newlines *)

Lemma newlines_rep : forall n fuel min prev rest c,
  (n < fuel)%nat -> hd 0 rest <> 10 ->
  rep_loop (m (RChar 10)) true (fun p' c' => Some (p', c')) fuel min None
    (prev, repeat 10 n ++ rest) c =
  if (min <=? n)%nat
  then Some ((match n with O => prev | S _ => Some 10 end, rest), c)
  else None.
Proof.
  induction n as [|n IH]; intros fuel min prev rest c Hf Hr;
    (destruct fuel as [|fuel]; [lia|]); rewrite rep_loop_S; cbn [repeat app dec_max].
  - assert (E : forall K, m (RChar 10) (prev, rest) c K = None).
    { intros K. rewrite m_char. unfold step_unit. cbn [snd].
      destruct rest as [|y rest]; [reflexivity|]. cbn in Hr.
      destruct (10 =? y) eqn:Ey; [apply Z.eqb_eq in Ey; congruence | reflexivity]. }
    destruct min as [|min']; cbv beta zeta; rewrite E; reflexivity.
  - assert (E : forall K, m (RChar 10) (prev, 10 :: repeat 10 n ++ rest) c K =
                          K (Some 10, repeat 10 n ++ rest) c) by reflexivity.
    destruct min as [|min']; cbv beta zeta; rewrite E; cbn [snd].
    + assert (L : Nat.ltb (length (repeat 10 n ++ rest))
                            (length (10 :: repeat 10 n ++ rest)) = true)
        by (apply Nat.ltb_lt; cbn; lia).
      rewrite L, IH by (assumption || lia). cbn [Nat.leb orElse].
      destruct n; reflexivity.
    + rewrite IH by (assumption || lia). cbn [Nat.leb]. destruct (min' <=? n)%nat; [|reflexivity].
      destruct n; reflexivity.
Qed.

Lemma newlines_at : forall n prev rest,
  hd 0 rest <> 10 ->
  match_at re_newlines (prev, repeat 10 n ++ rest) =
  if (3 <=? n)%nat then Some ((Some 10, rest), []) else None.
Proof.
  intros n prev rest Hr. unfold match_at, re_newlines. rewrite m_repeat.
  rewrite newlines_rep by (cbn [snd]; rewrite ?length_app, ?repeat_length; lia || exact Hr).
  destruct n as [|[|[|n]]]; reflexivity.
Qed.

Lemma run_split : forall s : jsstring,
  exists n rest, s = repeat 10 n ++ rest /\ hd 0 rest <> 10.
Proof.
  induction s as [|y s (n & rest & E & Hr)].
  - exists 0%nat, []. split; [reflexivity | cbn; lia].
  - destruct (y =? 10) eqn:Ey.
    + apply Z.eqb_eq in Ey. subst y. exists (S n), rest. split; [cbn; now rewrite E | exact Hr].
    + apply Z.eqb_neq in Ey. exists 0%nat, (y :: s). split; [reflexivity | exact Ey].
Qed.

Lemma squeeze_run : forall n j rest,
  hd 0 rest <> 10 ->
  squeeze_from j (repeat 10 n ++ rest) =
  repeat 10 (Nat.min (j + n) 2)
  ++ match rest with
     | [] => []
     | y :: r => y :: squeeze_from 0 r
     end.
Proof.
  induction n as [|n IH]; intros j rest Hr; cbn [repeat app].
  - rewrite Nat.add_0_r. destruct rest as [|y r]; cbn [squeeze_from].
    + now rewrite app_nil_r.
    + cbn in Hr. apply Z.eqb_neq in Hr. now rewrite Hr.
  - cbn [squeeze_from]. rewrite Z.eqb_refl, IH by exact Hr.
    now replace (S j + n)%nat with (j + S n)%nat by lia.
Qed.

Lemma collapse_from : forall fuel s prev,
  (length s < fuel)%nat ->
  replace_from re_newlines (const (NL ++ NL)) fuel (prev, s) = squeeze_from 0 s.
Proof.
  induction fuel as [|fuel IH]; intros s prev Hf; [lia|].
  destruct (run_split s) as (n & rest & E & Hr).
  cbn [replace_from snd]. rewrite E at 1. rewrite newlines_at by exact Hr.
  assert (Htail : squeeze_from 0 rest =
                  match rest with [] => [] | y :: r => y :: squeeze_from 0 r end)
    by exact (squeeze_run 0 0 rest Hr).
  destruct (3 <=? n)%nat eqn:E3.
  - apply Nat.leb_le in E3. cbn [snd].
    assert (L : (length rest <? length s)%nat = true)
      by (apply Nat.ltb_lt; rewrite E, length_app, repeat_length; lia).
    rewrite L. rewrite IH by (apply Nat.ltb_lt in L; lia).
    rewrite E, (squeeze_run n 0 rest Hr), Htail.
    replace (Nat.min (0 + n) 2) with 2%nat by lia. reflexivity.
  - apply Nat.leb_gt in E3. destruct s as [|y s']; [reflexivity|].
    rewrite IH by (cbn in Hf; lia). destruct n as [|n].
    + cbn in E. subst rest. cbn in Hr. apply Z.eqb_neq in Hr.
      cbn [squeeze_from]. now rewrite Hr.
    + cbn in E. inversion E as [[Hy Hs']]. 
      cbn [squeeze_from]. rewrite Z.eqb_refl.
      rewrite (squeeze_run n 1 rest Hr), (squeeze_run n 0 rest Hr).
      destruct n as [|[|n]]; [reflexivity | reflexivity | lia].
Qed.

Lemma collapse_newlines_squeezes : forall s, collapse_newlines s = squeeze_newlines s.
Proof.
  intros s. unfold collapse_newlines, replace_all, squeeze_newlines.
  apply collapse_from. lia.
Qed.

(** C4, as the code has it: a non-empty text without markup syntax (no
    backtick, asterisk, underscore, tilde, hash, bar or mathematical
    letter, and no line that begins with a list marker) and without the
    characters [&], [<], [>] comes out as it went in, except that every
    run of three or more newlines is cut down to two and that white space
    at both ends is trimmed. *)
Theorem plain_text_passes_through :
  forall text,
    text <> [] -> no_markup text = true -> html_free text = true ->
    formatForTelegram text = trim (squeeze_newlines text).
Proof.
  intros text Hne Hm Hh. unfold no_markup in Hm.
  apply andb_true_iff in Hm as [Hu Hl].
  assert (Hneeds : forall r, needs markup_unit r = true -> has_match r text = false)
    by (intros r Hr; now apply (needs_no_match markup_unit)).
  assert (Hb : has_match re_bullet text = false).
  { apply (no_match_at_line_starts _ bullet_item re_bullet_at).
    rewrite forallb_forall in *. intros l Hin. specialize (Hl l Hin).
    apply negb_true_iff in Hl. apply orb_false_iff in Hl as [Hl _]. now rewrite Hl. }
  assert (Hn : has_match re_numbered text = false).
  { apply (no_match_at_line_starts _ numbered_item re_numbered_at).
    rewrite forallb_forall in *. intros l Hin. specialize (Hl l Hin).
    apply negb_true_iff in Hl. apply orb_false_iff in Hl as [_ Hl]. now rewrite Hl. }
  unfold formatForTelegram. rewrite (falsy_false _ Hne).
  rewrite (replace_all_without_match re_math) by (apply Hneeds; reflexivity).
  rewrite (replace_all_without_match re_table) by (apply Hneeds; reflexivity).
  rewrite (replace_all_without_match re_separator) by (apply Hneeds; reflexivity).
  rewrite (escapeHtml_html_free _ Hh).
  rewrite (replace_all_without_match re_codeblock) by (apply Hneeds; reflexivity).
  rewrite (replace_all_without_match re_inline) by (apply Hneeds; reflexivity).
  rewrite (replace_all_without_match re_bold_star) by (apply Hneeds; reflexivity).
  rewrite (replace_all_without_match re_bold_under) by (apply Hneeds; reflexivity).
  rewrite (replace_all_without_match re_italic_star) by (apply Hneeds; reflexivity).
  rewrite (replace_all_without_match re_italic_under) by (apply Hneeds; reflexivity).
  rewrite (replace_all_without_match re_strike) by (apply Hneeds; reflexivity).
  rewrite (replace_all_without_match re_header) by (apply Hneeds; reflexivity).
  rewrite (replace_all_without_match re_bullet) by exact Hb.
  rewrite (replace_all_without_match re_numbered) by exact Hn.
  now rewrite collapse_newlines_squeezes.
Qed.

(** *** Concrete runs *)

Import Samples.

Lemma busy_request_queued_unless_agents_witness :
  messageQueue (exec (processMessage calm (from_bob "/finance rates")) busy) =
  [{| pt_chatId := 42; pt_text := lit "/finance rates"; pt_username := lit "bob";
      pt_mode := finance |}].
Proof.
  destruct (busy_request_queued_unless_agents calm busy 42 (lit "/finance rates")
              (Some {| username := Some (lit "bob"); first_name := None |}))
    as (_ & H & _);
    [reflexivity | vm_compute; reflexivity | vm_compute; discriminate |].
  destruct (H finance (or_introl eq_refl)) as (Hq & _). exact Hq.
Defined.

(** Entered while the slot is busy, a fan-out request is answered with
    the refusal and the queue stays empty. *)
Lemma busy_agents_request_is_refused :
  let s' := exec (processMessage calm (from_bob "/agents 3 compare clouds")) busy in
  isProcessing busy = true /\
  route (lit "/agents 3 compare clouds") = RtAgents /\
  messageQueue s' = [] /\
  posts (trace s') = [lit "Already processing. Please wait."].
Proof. vm_compute. repeat split. Qed.

(** On a state with an idle slot and one task in the queue: a [/finance]
    task that completes leaves it there and schedules nothing, where the
    completion of a free-form prompt takes it out and schedules it. *)
Lemma mode_task_leaves_queue_waiting :
  let after_mode := exec (processMessage calm (from_bob "/finance rates")) waiting in
  let after_default := exec (processMessage calm (from_bob "rates")) waiting in
  messageQueue waiting = [waiting_task] /\
  isProcessing after_mode = false /\
  messageQueue after_mode = [waiting_task] /\
  existsb is_immediate (trace after_mode) = false /\
  depth (trace after_mode) = 0 /\
  existsb (fun e => match e with EvQueryEnd _ => true | _ => false end)
    (trace after_mode) = true /\
  messageQueue after_default = [] /\
  last (trace after_default) (EvExit 0) = EvSetImmediate (requeued waiting_task).
Proof. vm_compute. repeat split. Qed.

Lemma sendMessage_chunks_witness :
  length (chunks_of (effective_text (repeat 97 9001))) = 3%nat /\
  effective_text (lit "hello") = lit "hello" /\
  effective_text [32; 10; 9] = lit "(Empty response)" /\
  posts (trace (exec (sendMessage calm 42 [32; 10; 9] None) idle)) =
    [lit "(Empty response)"].
Proof.
  destruct (sendMessage_chunks calm 42 (repeat 97 9001) None idle)
    as (_ & _ & _ & H9 & _).
  destruct (sendMessage_chunks calm 42 (lit "hello") None idle) as (Hkeep & _).
  destruct (sendMessage_chunks calm 42 [32; 10; 9] None idle)
    as (_ & Hblank & _ & _ & _ & _ & evs & Ht & _ & Hposts).
  split; [apply H9; vm_compute; reflexivity|].
  split; [apply Hkeep; vm_compute; discriminate|].
  split; [apply Hblank; reflexivity|].
  rewrite Ht. change (trace idle) with (@nil Event). cbn [app].
  rewrite (Hposts (fun _ => eq_refl)). rewrite (Hblank eq_refl).
  vm_compute. reflexivity.
Defined.

(** C3, as stated, fails on the length of what is sent: of the three
    bodies sent for a text of 9001 units the first two have 4006 units,
    the chunk and its marker. *)
Lemma marked_chunk_exceeds_limit :
  let sent := posts (trace (exec (sendMessage calm 42 (repeat 97 9001) None) idle)) in
  map (@length Z) sent = [4006; 4006; 1007]%nat /\
  map (firstn 6) sent = [lit "[1/3]" ++ NL; lit "[2/3]" ++ NL; lit "[3/3]" ++ NL] /\
  ~ Forall (fun body => (length body <= 4000)%nat) sent.
Proof.
  cbv zeta.
  assert (H : map (@length Z)
                (posts (trace (exec (sendMessage calm 42 (repeat 97 9001) None) idle)))
              = [4006; 4006; 1007]%nat) by (vm_compute; reflexivity).
  split; [exact H|]. split; [vm_compute; reflexivity|].
  intros F. apply (Forall_map (@length Z) (fun n => (n <= 4000)%nat)) in F.
  rewrite H in F. inversion F as [|? ? Hle _].
  apply Nat.leb_le in Hle. vm_compute in Hle. discriminate.
Qed.

Lemma plain_text_passes_through_witness :
  formatForTelegram (lit " Total: 3.5 - ok" ++ NL ++ NL ++ NL ++ NL ++ lit "12 well-known items. ")
  = lit "Total: 3.5 - ok" ++ NL ++ NL ++ lit "12 well-known items.".
Proof.
  rewrite plain_text_passes_through;
    [vm_compute; reflexivity | vm_compute; discriminate
    | vm_compute; reflexivity | vm_compute; reflexivity].
Defined.

(** C4, as stated, fails on text that holds no markdown construct: an
    ampersand or an angle bracket comes out as an entity, white space at
    the ends is dropped, a product or a number written with underscores
    comes out with italics, a line that begins with a hash or a hyphen
    comes out as a heading or a bullet, and the empty text comes out as
    the placeholder. *)
Lemma ampersand_is_escaped :
  no_markup (lit "a & b") = true /\
  formatForTelegram (lit "a & b") = lit "a &amp; b" /\
  formatForTelegram (lit "x < y") = lit "x &lt; y" /\
  formatForTelegram (lit "  padded  ") = lit "padded" /\
  formatForTelegram (lit "2 * 3 * 4 = 24") = lit "2 <i> 3 </i> 4 = 24" /\
  formatForTelegram (lit "1_000_000") = lit "1<i>000</i>000" /\
  formatForTelegram (lit "# of retries: 3") = lit "<b>of retries: 3</b>" /\
  formatForTelegram (lit "- item") = BULLET ++ lit "item" /\
  formatForTelegram [] = lit "(Empty response)" /\
  squeeze_newlines (lit "a & b") = lit "a & b" /\
  formatForTelegram (lit "a & b") <> squeeze_newlines (lit "a & b").
Proof.
  split; [vm_compute; reflexivity|]. split; [vm_compute; reflexivity|].
  split; [vm_compute; reflexivity|]. split; [vm_compute; reflexivity|].
  split; [vm_compute; reflexivity|]. split; [vm_compute; reflexivity|].
  split; [vm_compute; reflexivity|]. split; [vm_compute; reflexivity|].
  split; [vm_compute; reflexivity|]. split; [vm_compute; reflexivity|].
  vm_compute. discriminate.
Qed.

Lemma chatty_ordered : ordered_transport chatty.
Proof.
  intros t off result H. cbn in H. destruct (off =? 1) eqn:E; inversion H; subst.
  - apply Z.eqb_eq in E. cbn. lia.
  - exact I.
Defined.

Lemma In_offset : forall off offs, existsb (Z.eqb off) offs = true -> In off offs.
Proof.
  intros off offs H. apply existsb_exists in H as (x & Hx & E).
  apply Z.eqb_eq in E. now subst.
Qed.

Lemma In_saved : forall id evs,
  existsb (fun e => match e with
                    | EvSaveState i ok => (i =? id) && ok
                    | _ => false
                    end) evs = true ->
  In (EvSaveState id true) evs.
Proof.
  intros id evs H. apply existsb_exists in H as (e & He & Hp).
  destruct e; try discriminate. apply andb_true_iff in Hp as [Hp Hok].
  apply Z.eqb_eq in Hp. subst. exact He.
Qed.

Lemma cursor_resumes_after_persisted_witness :
  let crashed := file_after None (trace (main chatty None 1)) in
  crashed = Some (Some 7) /\
  hd_error (fetches (trace (main chatty crashed 1))) = Some (loadState crashed + 1) /\
  loadState crashed + 1 = 8 /\
  (forall off, In off (fetches (trace (main chatty crashed 1))) -> 7 < off).
Proof.
  cbv zeta. split; [vm_compute; reflexivity|].
  destruct (cursor_resumes_after_persisted chatty chatty None 1 0
              (trace (main chatty None 1)) [])
    as (_ & H & Hord).
  - vm_compute. discriminate.
  - vm_compute. discriminate.
  - symmetry. apply app_nil_r.
  - split; [exact H|]. split; [vm_compute; reflexivity|].
    destruct (Hord chatty_ordered) as (_ & _ & Hord').
    destruct (Hord' chatty_ordered) as (_ & Hsaved).
    intros off Hin. apply (Hsaved 7 off); [|exact Hin].
    apply In_saved. vm_compute. reflexivity.
Defined.

(** C5, as stated, fails when the transport lists a lower identifier
    after a higher one: the cursor and the file go from 7 back to 5, and
    the fetch after a restart asks for offset 6, so that update 7, handled
    and persisted before, is asked for again. *)
Lemma unordered_batch_sends_cursor_back :
  let evs := trace (main backwards None 1) in
  let crashed := file_after None evs in
  flat_map (fun e => match e with EvSaveState id true => [id] | _ => [] end) evs
    = [7; 5] /\
  lastUpdateId (main backwards None 1) = 5 /\
  crashed = Some (Some 5) /\
  fetches (trace (main backwards crashed 1)) = [6] /\
  ~ (forall id off, In (EvSaveState id true) evs ->
       In off (fetches (trace (main backwards crashed 1))) -> id < off).
Proof.
  cbv zeta.
  split; [vm_compute; reflexivity|]. split; [vm_compute; reflexivity|].
  split; [vm_compute; reflexivity|]. split; [vm_compute; reflexivity|].
  intros H.
  assert (Hlt : 7 < 6).
  { apply H; [apply In_saved | apply In_offset]; vm_compute; reflexivity. }
  lia.
Qed.

Lemma fan_out_isolation_witness :
  fst (runParallelAgents third_fails five_prompts 42 default idle) =
    lit "<b>Parallel Agents Results (5 agents)</b>" ++ NL ++ NL
    ++ lit "<b>Agent 1:</b>" ++ NL ++ lit "fine" ++ NL ++ NL
    ++ lit "<b>Agent 2:</b>" ++ NL ++ lit "fine" ++ NL ++ NL
    ++ lit "<b>Agent 3:</b> Error - boom" ++ NL ++ NL
    ++ lit "<b>Agent 4:</b>" ++ NL ++ lit "fine" ++ NL ++ NL
    ++ lit "<b>Agent 5:</b>" ++ NL ++ lit "fine" ++ NL ++ NL /\
  last_result (stream (answer "fine")) = lit "fine".
Proof.
  destruct (fan_out_isolation third_fails five_prompts 42 default idle)
    as (Hreply & _ & Hnth & _).
  split.
  - rewrite Hreply. vm_compute. reflexivity.
  - destruct (Hnth 0%nat (focus_prompt (lit "compare") 5 0) eq_refl) as (_ & Hlast & _).
    apply (Hlast [None] (lit "fine") []); [reflexivity | constructor].
Defined.

(** The run behind C8: the first answer of the transport holds a prompt;
    the second fetch of the loop is issued only after the query has ended
    and the reply has been sent. *)
Lemma second_fetch_waits_for_the_task :
  let evs := trace (main chatty None 2) in
  fetches evs = [1; 8] /\
  exists before after,
    evs = before ++ EvQueryEnd true :: after /\
    fetches before = [1] /\ depth before = 1 /\
    fetches after = [8] /\
    posts after = [lit "done"; lit "<i>Completed in 2s</i>"].
Proof.
  cbv zeta. split; [vm_compute; reflexivity|].
  exists (firstn 19 (trace (main chatty None 2))),
         (skipn 20 (trace (main chatty None 2))).
  split; [vm_compute; reflexivity|].
  split; [vm_compute; reflexivity|].
  split; [vm_compute; reflexivity|].
  split; vm_compute; reflexivity.
Qed.


Lemma missing_token_is_the_only_exit_witness :
  trace (main tokenless None 3) =
    [EvConsoleError (lit "ERROR: Set TELEGRAM_BOT_TOKEN in .env"); EvExit 1] /\
  length (fetches (trace (main chatty None 3))) = 3%nat.
Proof.
  split.
  - destruct (missing_token_is_the_only_exit tokenless None 3) as [H _].
    destruct (H eq_refl) as [Ht _]. exact Ht.
  - destruct (missing_token_is_the_only_exit chatty None 3) as [_ H].
    destruct H as [_ Hn]; [vm_compute; discriminate | exact Hn].
Defined.

Lemma empty_allowlist_denies_everyone_witness :
  isAuthorized (ALLOWED_CHAT_IDS open_door) 42 = false /\
  posts (trace (exec (processMessage open_door (from_bob "hello")) (initial open_door None)))
  = [lit "Unauthorized. Your chat ID: 42"].
Proof.
  destruct (empty_allowlist_denies_everyone open_door eq_refl) as (H1 & H2 & _).
  split; [apply H1|].
  unfold exec.
  rewrite (H2 (from_bob "hello") (initial open_door None) 42 (lit "hello") eq_refl eq_refl);
    [vm_compute; reflexivity | vm_compute; discriminate].
Defined.

End BridgeFacts.

(** ** Further facts about the bridge *)

Module BridgeMore.

Import Bridge Obs BridgeFacts.

(** *** The executor *)

(** [runClaude] always gives the slot back.  When the query fails the
    reply is [Error: message], one error is counted and no tokens are;
    otherwise the reply is the formatted last result (or the formatted
    [(No output)] when no result was seen) and the estimated tokens of the
    full prompt and of the result are added to the totals. *)
Theorem runClaude_settles :
  forall w prompt chatId mode s,
    let fullPrompt := SYSTEM_PROMPTS mode ++ NL ++ NL ++ lit "---" ++ NL ++ NL
                      ++ lit "User request: " ++ prompt in
    let run := query w (clock s) fullPrompt in
    let response := fst (runClaude w prompt chatId mode s) in
    let s' := exec (runClaude w prompt chatId mode) s in
    isProcessing s' = false /\ activeAgents s' = 0 /\
    status (stats s') = lit "idle" /\
    messagesProcessed (stats s') = messagesProcessed (stats s) /\
    match failure run with
    | Some message =>
        response = lit "Error: " ++ message /\
        errors (stats s') = errors (stats s) + 1 /\
        totalInputTokens (stats s') = totalInputTokens (stats s) /\
        totalOutputTokens (stats s') = totalOutputTokens (stats s)
    | None =>
        response = formatForTelegram
                     (or_else (last_result (stream run)) (lit "(No output)")) /\
        errors (stats s') = errors (stats s) /\
        totalInputTokens (stats s') =
          totalInputTokens (stats s) + estimateTokens fullPrompt /\
        totalOutputTokens (stats s') =
          totalOutputTokens (stats s) + estimateTokens (last_result (stream run))
    end.
Proof.
  intros w prompt chatId mode s fullPrompt run response s'.
  subst response s' run fullPrompt. unfold exec, runClaude.
  unfold bind, log, emit, modify, updateHealth, sendTyping, ask, get, ret.
  cbn. rewrite consume_stream_run.
  match goal with |- context [failure ?r] => destruct (failure r) as [e|] end;
    cbn; repeat split; reflexivity.
Qed.

(** *** Message history *)

Lemma slice_last_length : forall (A : Type) n (l : list A),
  (length (slice_last n l) <= n)%nat.
Proof. intros. unfold slice_last. rewrite length_skipn. lia. Qed.

(** After a successful [saveMessage] the file holds at most a hundred
    entries, the new entry last; they are the end of the old entries
    followed by the new one, and nothing is dropped while fewer than a
    hundred were stored.  A failed write changes nothing. *)
Theorem saveMessage_keeps_last_hundred :
  forall f msg,
    let stored := loadMessages (saveMessage f msg true) in
    (length stored <= 100)%nat /\
    last stored msg = msg /\
    (exists older, loadMessages f ++ [msg] = older ++ stored) /\
    ((length (loadMessages f) < 100)%nat -> stored = loadMessages f ++ [msg]) /\
    saveMessage f msg false = f.
Proof.
  intros f msg stored. subst stored. unfold saveMessage. cbn [loadMessages].
  set (messages := loadMessages f ++ [msg]).
  assert (Hlen : length messages = S (length (loadMessages f)))
    by (unfold messages; rewrite length_app; cbn; lia).
  split; [apply slice_last_length|]. split; [|split; [|split; [|reflexivity]]].
  - unfold slice_last.
    destruct (le_lt_dec 100 (length (loadMessages f))) as [Hge | Hlt].
    + unfold messages. rewrite skipn_app.
      replace (length (loadMessages f ++ [msg]) - 100 - length (loadMessages f))%nat
        with 0%nat by (rewrite length_app; cbn; lia).
      cbn [skipn]. apply last_last.
    + replace (length messages - 100)%nat with 0%nat by lia. cbn [skipn].
      unfold messages. apply last_last.
  - exists (firstn (length messages - 100) messages). unfold slice_last.
    symmetry. apply firstn_skipn.
  - intros Hlt. unfold slice_last.
    replace (length messages - 100)%nat with 0%nat by lia. reflexivity.
Qed.

Lemma saveMessage_keeps_last_hundred_witness :
  let msg := {| he_username := lit "bob"; he_chatId := 42; he_prompt := lit "hello";
                he_response := lit "done"; he_duration := 2 |} in
  loadMessages (saveMessage None msg true) = [msg].
Proof.
  cbv zeta.
  destruct (saveMessage_keeps_last_hundred None
              {| he_username := lit "bob"; he_chatId := 42; he_prompt := lit "hello";
                 he_response := lit "done"; he_duration := 2 |}) as (_ & _ & _ & H & _).
  apply H. cbn. lia.
Defined.

(** *** Escaping *)

(** What [escapeHtml] makes of one code unit. *)
Definition escape_unit (c : Z) : jsstring :=
  if c =? ch "&" then lit "&amp;"
  else if c =? ch "<" then lit "&lt;"
  else if c =? ch ">" then lit "&gt;"
  else [c].

Lemma replace_char_from : forall c rep s prev fuel,
  (length s < fuel)%nat ->
  replace_from (RChar c) (const rep) fuel (prev, s) =
  flat_map (fun y => if c =? y then rep else [y]) s.
Proof.
  induction s as [|y rest IH]; intros prev fuel Hf;
    (destruct fuel as [|fuel]; [simpl in Hf; lia|]).
  - reflexivity.
  - cbn [replace_from flat_map snd]. unfold match_at. cbn [m step_unit snd].
    destruct (c =? y) eqn:E.
    + cbn [snd length]. replace (length rest <? S (length rest))%nat with true
        by (symmetry; apply Nat.ltb_lt; lia).
      unfold const at 1. rewrite IH by (simpl in Hf; lia). reflexivity.
    + rewrite IH by (simpl in Hf; lia). reflexivity.
Qed.

Lemma replace_char : forall c rep s,
  replace_all (RChar c) (const rep) s = flat_map (fun y => if c =? y then rep else [y]) s.
Proof. intros. unfold replace_all. apply replace_char_from. lia. Qed.

Lemma flat_map_flat_map : forall (A B C : Type) (f : A -> list B) (g : B -> list C) l,
  flat_map g (flat_map f l) = flat_map (fun x => flat_map g (f x)) l.
Proof.
  intros A B C f g l. induction l as [|a l IH]; [reflexivity|].
  cbn. rewrite flat_map_app, IH. reflexivity.
Qed.

Lemma escapeHtml_units : forall text, escapeHtml text = flat_map escape_unit text.
Proof.
  intros text. unfold escapeHtml. cbv zeta. rewrite !replace_char, !flat_map_flat_map.
  apply flat_map_ext. intros c. unfold escape_unit.
  destruct (c =? ch "&") eqn:Ea.
  - apply Z.eqb_eq in Ea. subst c. reflexivity.
  - rewrite (Z.eqb_sym (ch "&") c), Ea. cbn [flat_map app].
    destruct (c =? ch "<") eqn:El.
    + apply Z.eqb_eq in El. subst c. reflexivity.
    + rewrite (Z.eqb_sym (ch "<") c), El. cbn [flat_map app].
      rewrite (Z.eqb_sym (ch ">") c). destruct (c =? ch ">") eqn:Eg.
      * apply Z.eqb_eq in Eg. subst c. reflexivity.
      * reflexivity.
Qed.

(** [escapeHtml] rewrites each code unit on its own: [&], [<] and [>]
    become their entities and everything else is kept, an ampersand that
    already starts an entity included.  The result has no [<] and no [>],
    is never shorter than the text and at most five times as long. *)
Theorem escapeHtml_is_unitwise :
  forall text,
    escapeHtml text = flat_map escape_unit text /\
    forallb (fun c => negb ((c =? ch "<") || (c =? ch ">"))) (escapeHtml text) = true /\
    (length text <= length (escapeHtml text) <= 5 * length text)%nat.
Proof.
  intros text. rewrite escapeHtml_units. split; [reflexivity|].
  induction text as [|c text [IH1 IH2]]; [cbn; split; [reflexivity | lia]|].
  cbn [flat_map]. rewrite forallb_app, length_app, IH1.
  assert (Hc : forallb (fun c0 => negb ((c0 =? ch "<") || (c0 =? ch ">"))) (escape_unit c) = true
               /\ (1 <= length (escape_unit c) <= 5)%nat).
  { unfold escape_unit.
    destruct (c =? ch "&"); [split; [reflexivity | vm_compute; lia]|].
    destruct (c =? ch "<") eqn:El; [split; [reflexivity | vm_compute; lia]|].
    destruct (c =? ch ">") eqn:Eg; [split; [reflexivity | vm_compute; lia]|].
    cbn [forallb]. rewrite El, Eg. split; [reflexivity | cbn; lia]. }
  destruct Hc as [Hc1 Hc2]. rewrite Hc1. cbn [length]. split; [reflexivity | lia].
Qed.

(** *** Authorisation *)

Lemma eqb_eq : forall a b, JS.eqb a b = true <-> a = b.
Proof.
  induction a as [|x a IH]; destruct b as [|y b]; cbn; split; intros H;
    try reflexivity; try discriminate.
  - apply andb_true_iff in H as [Hx Ha]. apply Z.eqb_eq in Hx. apply IH in Ha. congruence.
  - inversion H; subst. rewrite Z.eqb_refl. cbn. now apply IH.
Qed.

Lemma lit_inj : forall a b, lit a = lit b -> a = b.
Proof.
  intros a b H. unfold lit in H.
  rewrite <- (string_of_list_ascii_of_string a), <- (string_of_list_ascii_of_string b).
  f_equal. revert H. generalize (list_ascii_of_string a) (list_ascii_of_string b).
  intros la lb. revert lb.
  induction la as [|x la IH]; intros [|y lb]; cbn; intros H;
    try reflexivity; try discriminate.
  inversion H as [[Hx Hl]]. f_equal; [|now apply IH].
  apply N2Z.inj in Hx. rewrite <- (ascii_N_embedding x), <- (ascii_N_embedding y).
  now rewrite Hx.
Qed.

Lemma to_int_not_nil : forall z,
  Z.to_int z <> Decimal.Pos Decimal.Nil /\ Z.to_int z <> Decimal.Neg Decimal.Nil.
Proof.
  intros z. split; intros H;
    assert (E := DecimalZ.to_of (Z.to_int z)); rewrite DecimalZ.of_to, H in E;
    discriminate.
Qed.

Lemma String_of_Z_inj : forall a b, String_of_Z a = String_of_Z b -> a = b.
Proof.
  intros a b H. unfold String_of_Z in H. apply lit_inj in H.
  destruct (to_int_not_nil a) as [Ha1 Ha2]. destruct (to_int_not_nil b) as [Hb1 Hb2].
  assert (E : Some (Z.to_int a) = Some (Z.to_int b)).
  { rewrite <- (NilZero.isi (Z.to_int a)), <- (NilZero.isi (Z.to_int b)) by assumption.
    now rewrite H. }
  inversion E as [E']. now apply DecimalZ.to_int_inj.
Qed.

Lemma isAuthorized_In : forall allowed chatId,
  isAuthorized allowed chatId = true <-> In (String_of_Z chatId) allowed.
Proof.
  intros allowed chatId. unfold isAuthorized, includes.
  destruct allowed as [|a allowed]; [cbn; split; [discriminate | contradiction]|].
  cbn [length Nat.eqb]. rewrite existsb_exists. split.
  - intros (x & Hx & E). apply eqb_eq in E. now subst.
  - intros Hin. exists (String_of_Z chatId). split; [exact Hin | now apply eqb_eq].
Qed.

(** [isAuthorized] holds exactly when the decimal form of the chat
    identifier is one of the entries; since different identifiers have
    different decimal forms, a list written from identifiers admits those
    identifiers and no other. *)
Theorem isAuthorized_iff_listed :
  forall allowed chatId,
    (isAuthorized allowed chatId = true <-> In (String_of_Z chatId) allowed) /\
    (forall ids, isAuthorized (map String_of_Z ids) chatId = true <-> In chatId ids).
Proof.
  intros allowed chatId. split; [apply isAuthorized_In|].
  intros ids. rewrite isAuthorized_In, in_map_iff. split.
  - intros (x & E & Hx). apply String_of_Z_inj in E. now subst.
  - intros Hin. now exists chatId.
Qed.

Lemma String_of_Z_nonempty : forall z, String_of_Z z <> [].
Proof.
  intros z. unfold String_of_Z, lit.
  destruct (Z.to_int z) as [d|d]; destruct d; cbn; discriminate.
Qed.

(** With the list read from the environment: a chat is authorised exactly
    when its decimal identifier is one of the comma-separated fields of
    [TELEGRAM_ALLOWED_CHAT_IDS], compared as written, blanks included. *)
Theorem authorised_iff_field_of_variable :
  forall w chatId,
    isAuthorized (ALLOWED_CHAT_IDS w) chatId = true <->
    exists v, TELEGRAM_ALLOWED_CHAT_IDS w = Some v /\
              In (String_of_Z chatId) (split (ch ",") v).
Proof.
  intros w chatId. rewrite isAuthorized_In. unfold ALLOWED_CHAT_IDS.
  rewrite filter_In.
  assert (Hne : negb (falsy (String_of_Z chatId)) = true).
  { destruct (String_of_Z chatId) eqn:E; [|reflexivity].
    exfalso. exact (String_of_Z_nonempty chatId E). }
  destruct (TELEGRAM_ALLOWED_CHAT_IDS w) as [v|].
  - split.
    + intros [Hin _]. exists v. split; [reflexivity|].
      destruct v; [|exact Hin]. exact Hin.
    + intros (v' & E & Hin). inversion E; subst v'. split; [|exact Hne].
      destruct v; exact Hin.
  - split.
    + intros [[E | []] _]. exfalso. exact (String_of_Z_nonempty chatId (eq_sym E)).
    + intros (v' & E & _). discriminate.
Qed.

(** *** Draining the queue *)

(** The operation leaves the queue alone and an idle slot idle. *)
Definition settles {A : Type} (c : M A) : Prop :=
  forall s, messageQueue (exec c s) = messageQueue s /\
            (isProcessing s = false -> isProcessing (exec c s) = false).

(** From an idle slot the operation ends with [process_queue], run on a
    state with the queue it started from. *)
Definition drains {A : Type} (c : M A) : Prop :=
  forall s, isProcessing s = false ->
    exists s1, messageQueue s1 = messageQueue s /\ isProcessing s1 = false /\
               exec c s = exec process_queue s1.

Lemma settles_inert : forall (A : Type) (c : M A), inert_op c -> settles c.
Proof.
  intros A c H s. destruct (H s) as [(K1 & _ & K3 & _) _]. split; [exact K3|].
  intros Hi. now rewrite K1.
Qed.

Lemma settles_runClaude : forall w prompt chatId mode,
  settles (runClaude w prompt chatId mode).
Proof.
  intros w prompt chatId mode s.
  destruct (runClaude_done w prompt chatId mode s) as (T1 & _ & T3 & _). auto.
Qed.

Lemma drains_bind : forall (A B : Type) (c : M A) (k : A -> M B),
  settles c -> (forall a, drains (k a)) -> drains (bind c k).
Proof.
  intros A B c k Hc Hk s Hi. rewrite exec_bind.
  destruct (Hc s) as [Hq Hp].
  destruct (Hk (fst (c s)) (exec c s) (Hp Hi)) as (s1 & Q1 & P1 & E1).
  exists s1. repeat split; congruence.
Qed.

Lemma drains_process_queue : drains process_queue.
Proof. intros s Hi. exists s. auto. Qed.

Lemma default_command_drains : forall w chatId t username s,
  isProcessing s = false ->
  exists s1, messageQueue s1 = messageQueue s /\ isProcessing s1 = false /\
             exec (default_command w chatId t username) s = exec process_queue s1.
Proof.
  intros w chatId t username s Hi. unfold default_command.
  rewrite exec_bind. unfold get at 1. cbn [fst]. unfold exec at 2. cbn [snd].
  rewrite Hi.
  assert (D : drains
    (sendMessage w chatId
       (lit "Processing: " ++ substring_to 40 t
        ++ (if (40 <? length t)%nat then lit "..." else [])) None ;;;
     startTime <- ask (now w) ;;
     response <- runClaude w t chatId default ;;
     endTime <- ask (now w) ;;
     emit (EvSaveMessage {| he_username := username; he_chatId := chatId;
                            he_prompt := t;
                            he_response := substring_to 5000 response;
                            he_duration := (endTime - startTime + 500) / 1000 |}) ;;;
     count_processed 1 ;;;
     updateHealth None ;;;
     sendMessage w chatId response None ;;;
     sendMessage w chatId
       (lit "<i>Completed in " ++ String_of_Z ((endTime - startTime + 500) / 1000)
        ++ lit "s</i>") None ;;;
     process_queue)).
  { repeat lazymatch goal with
           | |- drains (bind (runClaude _ _ _ _) _) =>
               apply drains_bind; [apply settles_runClaude | intros]
           | |- drains (bind _ _) =>
               apply drains_bind; [apply settles_inert; inert_all | intros]
           end.
    apply drains_process_queue. }
  exact (D s Hi).
Qed.

(** When a free-form prompt completes while tasks wait, the oldest is
    taken from the queue and scheduled with [setImmediate], as a message
    that carries its chat, its text and its user name; the others stay, in
    order, and the slot is idle. *)
Theorem completed_prompt_schedules_oldest :
  forall w s chatId raw sender next rest,
    let msg := {| chat := Some chatId; text := Some raw; from := sender |} in
    let s' := exec (processMessage w msg) s in
    isProcessing s = false ->
    isAuthorized (ALLOWED_CHAT_IDS w) chatId = true ->
    trim raw <> [] ->
    route (trim raw) = RtDefault ->
    messageQueue s = next :: rest ->
    messageQueue s' = rest /\
    isProcessing s' = false /\
    (exists before, trace s' = before ++ [EvSetImmediate (requeued next)]) /\
    chat (requeued next) = Some (pt_chatId next) /\
    text (requeued next) = Some (pt_text next) /\
    sender_name (requeued next) = or_else (pt_username next) (lit "Unknown").
Proof.
  intros w s chatId raw sender next rest msg s' Hi Ha Ht Hr Hq.
  assert (Hrun := processMessage_authorised w s chatId raw sender Ht Ha).
  fold msg in Hrun.
  set (s0 := exec (log INFO (received_line (sender_name msg) (trim raw))) s) in *.
  assert (Hs' : s' = exec (dispatch w chatId (trim raw) (sender_name msg)) s0)
    by (unfold s', exec at 1; now rewrite Hrun).
  destruct (log_state INFO (received_line (sender_name msg) (trim raw)) s) as [K0 _].
  fold s0 in K0. destruct K0 as (K1 & _ & K3 & _).
  unfold dispatch in Hs'. rewrite Hr in Hs'.
  destruct (default_command_drains w chatId (trim raw) (sender_name msg) s0)
    as (s1 & Q1 & P1 & E1); [now rewrite K1|].
  rewrite E1 in Hs'. rewrite K3, Hq in Q1.
  assert (Hfin : s' = set_trace (trace s1 ++ [EvSetImmediate (requeued next)])
                        (set_messageQueue rest s1)).
  { rewrite Hs'. unfold process_queue, exec, bind, get, modify, emit. mcbn.
    rewrite Q1. reflexivity. }
  rewrite Hfin. mcbn.
  split; [reflexivity|]. split; [exact P1|]. split; [now exists (trace s1)|].
  split; [reflexivity|]. split; [reflexivity|].
  unfold sender_name, requeued, or_else, first_truthy. cbn.
  destruct (falsy (pt_username next)); reflexivity.
Qed.

Lemma completed_prompt_schedules_oldest_witness :
  messageQueue (exec (processMessage Samples.calm (Samples.from_bob "rates"))
                  Samples.waiting) = [].
Proof.
  destruct (completed_prompt_schedules_oldest Samples.calm Samples.waiting 42
              (lit "rates")
              (Some {| username := Some (lit "bob"); first_name := None |})
              Samples.waiting_task [])
    as (H & _);
    [reflexivity | vm_compute; reflexivity | vm_compute; discriminate
    | vm_compute; reflexivity | reflexivity | exact H].
Defined.

(** *** Queueing in arrival order *)

(** The mode under which a request waits in the queue, if its route is one
    that queues. *)
Definition task_mode (r : Route) : option Mode :=
  match r with
  | RtMode mode => Some mode
  | RtDefault => Some default
  | _ => None
  end.

(** The task that a message becomes while the slot is busy: it needs a
    chat, text that is not blank, an authorised chat and a queueing route. *)
Definition queued_as (w : World) (msg : Message) : option PendingTask :=
  match chat msg, text msg with
  | Some chatId, Some raw =>
      if falsy (trim raw) then None
      else if isAuthorized (ALLOWED_CHAT_IDS w) chatId
      then option_map (fun mode => {| pt_chatId := chatId; pt_text := trim raw;
                                      pt_username := sender_name msg;
                                      pt_mode := mode |})
             (task_mode (route (trim raw)))
      else None
  | _, _ => None
  end.

(** Forward the messages one after the other, as the loop does. *)
Fixpoint submit_all (w : World) (msgs : list Message) : M unit :=
  match msgs with
  | [] => ret tt
  | msg :: rest => processMessage w msg ;;; submit_all w rest
  end.

Lemma busy_enqueues : forall w msg task s,
  isProcessing s = true -> queued_as w msg = Some task ->
  messageQueue (exec (processMessage w msg) s) = messageQueue s ++ [task] /\
  isProcessing (exec (processMessage w msg) s) = true.
Proof.
  intros w [[chatId|] [raw|] sender] task s Hb Hq; try discriminate.
  unfold queued_as in Hq. cbn [chat text] in Hq.
  destruct (falsy (trim raw)) eqn:Hf; [discriminate|].
  destruct (isAuthorized (ALLOWED_CHAT_IDS w) chatId) eqn:Ha; [|discriminate].
  assert (Ht : trim raw <> []) by (intros E; rewrite E in Hf; discriminate).
  set (msg := {| chat := Some chatId; text := Some raw; from := sender |}) in *.
  assert (Hrun := processMessage_authorised w s chatId raw sender Ht Ha). fold msg in Hrun.
  set (s0 := exec (log INFO (received_line (sender_name msg) (trim raw))) s) in *.
  destruct (log_state INFO (received_line (sender_name msg) (trim raw)) s) as [K0 _].
  fold s0 in K0. destruct K0 as (K1 & _ & K3 & _).
  assert (Hb0 : isProcessing s0 = true) by congruence.
  assert (Hq0 : messageQueue s0 = messageQueue s) by exact K3.
  assert (Hd : exec (dispatch w chatId (trim raw) (sender_name msg)) s0 =
               exec (enqueue w task) s0).
  { unfold dispatch. destruct (route (trim raw)) eqn:Hr; try discriminate;
      cbn [task_mode option_map] in Hq; inversion Hq; subst task.
    - unfold mode_command. rewrite (mode_prompt_nonempty raw mode Hr).
      rewrite exec_bind. unfold get at 1. mcbn. rewrite Hb0. reflexivity.
    - unfold default_command. rewrite exec_bind. unfold get at 1. mcbn.
      rewrite Hb0. reflexivity. }
  assert (Hs' : exec (processMessage w msg) s =
                exec (dispatch w chatId (trim raw) (sender_name msg)) s0)
    by (unfold exec at 1; now rewrite Hrun).
  rewrite Hs', Hd, enqueue_run. cbv zeta.
  destruct (inert_sendMessage w (pt_chatId task)
              (queued_text (S (length (messageQueue s0)))) None
              (set_messageQueue (messageQueue s0 ++ [task]) s0))
    as [(I1 & _ & I3 & _) _].
  rewrite I1, I3. split; [mcbn; now rewrite Hq0 | exact Hb0].
Qed.

(** While the slot stays busy, requests are queued in the order in which
    they arrive, behind the tasks already waiting. *)
Theorem busy_requests_queue_in_arrival_order :
  forall w msgs tasks s,
    isProcessing s = true ->
    map (queued_as w) msgs = map Some tasks ->
    messageQueue (exec (submit_all w msgs) s) = messageQueue s ++ tasks /\
    isProcessing (exec (submit_all w msgs) s) = true.
Proof.
  induction msgs as [|msg rest IH]; intros tasks s Hb Hm.
  - destruct tasks; [|discriminate]. cbn. rewrite app_nil_r. auto.
  - destruct tasks as [|task tasks]; [discriminate|]. cbn in Hm.
    inversion Hm as [[Hq Hrest]].
    cbn [submit_all]. rewrite exec_bind.
    destruct (busy_enqueues w msg task s Hb Hq) as [Q1 B1].
    destruct (IH tasks _ B1 Hrest) as [Q2 B2].
    rewrite Q2, Q1, <- app_assoc. auto.
Qed.

Lemma busy_requests_queue_in_arrival_order_witness :
  map pt_text
    (messageQueue
       (exec (submit_all Samples.calm
                [Samples.from_bob "first"; Samples.from_bob "/dev second";
                 Samples.from_bob "third"])
          Samples.busy))
  = [lit "first"; lit "/dev second"; lit "third"].
Proof.
  destruct (busy_requests_queue_in_arrival_order Samples.calm
              [Samples.from_bob "first"; Samples.from_bob "/dev second";
               Samples.from_bob "third"]
              [ {| pt_chatId := 42; pt_text := lit "first"; pt_username := lit "bob";
                   pt_mode := default |};
                {| pt_chatId := 42; pt_text := lit "/dev second"; pt_username := lit "bob";
                   pt_mode := dev |};
                {| pt_chatId := 42; pt_text := lit "third"; pt_username := lit "bob";
                   pt_mode := default |} ]
              Samples.busy) as [H _];
    [reflexivity | vm_compute; reflexivity |].
  rewrite H. reflexivity.
Defined.

(** *** Commands *)

Lemma trimEnd_blanks : forall x n, trimEnd (x ++ repeat 32 n) = trimEnd x.
Proof.
  intros x n. unfold trimEnd. rewrite rev_app_distr, rev_repeat.
  induction n as [|n IH]; [reflexivity|]. cbn. exact IH.
Qed.

(** The query of a mode command is never empty, so the usage reply of the
    mode handlers is never sent: the text is trimmed before it is routed,
    and a mode name followed only by blanks is left as the bare name,
    which is routed as a free-form prompt. *)
Theorem mode_command_always_has_query :
  forall raw mode,
    (route (trim raw) = RtMode mode ->
     falsy (trim (substring_from (length (mode_prefix mode)) (trim raw))) = false) /\
    (forall n, route (trim (mode_prefix mode ++ repeat 32 n)) =
               RtDefault).
Proof.
  intros raw mode. split; [apply mode_prompt_nonempty|].
  intros n. unfold trim.
  assert (Hs : trimStart (mode_prefix mode ++ repeat 32 n) = mode_prefix mode ++ repeat 32 n)
    by (destruct mode; reflexivity).
  rewrite Hs, trimEnd_blanks. destruct mode; vm_compute; reflexivity.
Qed.

Lemma mode_command_always_has_query_witness :
  falsy (trim (substring_from (length (mode_prefix finance)) (trim (lit " /finance rates ")))) = false.
Proof.
  destruct (mode_command_always_has_query (lit " /finance rates ") finance) as [H _].
  apply H. vm_compute. reflexivity.
Defined.

Definition system_route (r : Route) : bool :=
  match r with
  | RtStart | RtStatus | RtCost | RtStop | RtLogs => true
  | _ => false
  end.

(** The system commands are answered on the spot, busy or not: they leave
    the slot, the queue, the directory and the cursor as they are and
    start nothing.  [/cd] changes the working directory to the trimmed
    path when that path exists and otherwise changes nothing. *)
Theorem system_commands_touch_nothing :
  forall w chatId t username s,
    let s' := exec (dispatch w chatId t username) s in
    (system_route (route t) = true -> kept s s' /\ grows inert 0 s s') /\
    (route t = RtCd ->
       isProcessing s' = isProcessing s /\ messageQueue s' = messageQueue s /\
       lastUpdateId s' = lastUpdateId s /\ grows inert 0 s s' /\
       WORKING_DIR s' = if existsSync w (trim (substring_from 4 t))
                        then trim (substring_from 4 t) else WORKING_DIR s).
Proof.
  intros w chatId t username s s'. subst s'. unfold dispatch. split.
  - intros Hr.
    assert (H : inert_op (match route t with
                          | RtStart => sendMessage w chatId start_text None
                          | RtStatus => body <- get (status_report w) ;;
                                        sendMessage w chatId body None
                          | RtCost => body <- get (cost_report w) ;;
                                      sendMessage w chatId body None
                          | RtStop => busy <- get isProcessing ;;
                                      sendMessage w chatId
                                        (if busy
                                         then lit "Processing cannot be interrupted mid-stream. Wait for completion."
                                         else lit "Nothing running.") None
                          | RtLogs => logs <- ask (read_log w) ;;
                                      match logs with
                                      | Some logs =>
                                          sendMessage w chatId
                                            (lit "<pre>" ++ escapeHtml (last_lines logs)
                                             ++ lit "</pre>") None
                                      | None => sendMessage w chatId (lit "No logs available.") None
                                      end
                          | _ => ret tt
                          end)).
    { destruct (route t); inert_all. }
    destruct (route t); try discriminate; apply H.
  - intros Hr. rewrite Hr.
    destruct (existsSync w (trim (substring_from 4 t))).
    + rewrite exec_bind.
      set (s1 := exec (modify (set_WORKING_DIR (trim (substring_from 4 t)))) s).
      destruct (inert_sendMessage w chatId
                  (lit "Changed to: <code>" ++ trim (substring_from 4 t) ++ lit "</code>")
                  None s1) as [(K1 & _ & K3 & K4 & K5 & _) (evs & E & P)].
      rewrite K1, K3, K4, K5. repeat split; try reflexivity.
      exists evs. split; [exact E | exact P].
    + destruct (inert_sendMessage w chatId (lit "Not found: " ++ trim (substring_from 4 t))
                  None s) as [(K1 & _ & K3 & K4 & K5 & _) G].
      rewrite K1, K3, K4, K5. auto.
Qed.

Lemma system_commands_touch_nothing_witness :
  messageQueue (exec (dispatch Samples.calm 42 (lit "/status") (lit "bob")) Samples.waiting)
  = [Samples.waiting_task].
Proof.
  destruct (system_commands_touch_nothing Samples.calm 42 (lit "/status") (lit "bob")
              Samples.waiting) as [H _].
  destruct (H eq_refl) as [(_ & _ & K & _) _]. exact K.
Defined.

(** *** Taking a queued task up again *)

Lemma dropWhile_fixed : forall p c s, p c = false -> dropWhile p (c :: s) = c :: s.
Proof. intros p c s H. cbn. now rewrite H. Qed.

Lemma trim_idempotent : forall s, trim (trim s) = trim s.
Proof.
  intros s. destruct (trim_last s) as [E | (init & c & E & Hc)]; rewrite E;
    [reflexivity|].
  assert (Hstart : trimStart (init ++ [c]) = init ++ [c]).
  { revert E. unfold trim, trimEnd.
    destruct (dropWhile_head is_space s) as [H | (x & rest & H & Hx)];
      unfold trimStart; rewrite H.
    - cbn. intros E. destruct init; discriminate.
    - cbn [rev]. destruct (dropWhile_keeps_last is_space (rev rest) x Hx) as (l' & Hl).
      rewrite Hl, rev_app_distr. cbn [rev app]. intros E. rewrite <- E.
      apply dropWhile_fixed. exact Hx. }
  unfold trim. rewrite Hstart. unfold trimEnd.
  rewrite rev_app_distr. cbn [rev app]. rewrite (dropWhile_fixed _ _ _ Hc).
  cbn [rev]. now rewrite rev_involutive.
Qed.

Lemma sender_name_truthy : forall msg, falsy (sender_name msg) = false.
Proof.
  intros [c t [[u f]|]]; unfold sender_name; cbn [from username first_name];
    [|reflexivity].
  unfold first_truthy.
  destruct u as [[|x u]|]; cbn [falsy]; try reflexivity;
    destruct f as [[|y f]|]; reflexivity.
Qed.

(** A task taken from the queue is handed back to [processMessage] as a
    message that stands for the same request: were the slot busy again, it
    would be queued as the very task it was, with its chat, its text, its
    user name and its mode. *)
Theorem requeued_task_is_the_same_request :
  forall w msg task,
    queued_as w msg = Some task ->
    queued_as w (requeued task) = Some task.
Proof.
  intros w [[chatId|] [raw|] sender] task Hq; try discriminate.
  unfold queued_as in *. cbn [chat text] in Hq.
  destruct (falsy (trim raw)) eqn:Hf; [discriminate|].
  destruct (isAuthorized (ALLOWED_CHAT_IDS w) chatId) eqn:Ha; [|discriminate].
  destruct (task_mode (route (trim raw))) as [mode|] eqn:Hm; [|discriminate].
  cbn [option_map] in Hq. inversion Hq; subst task; clear Hq.
  unfold requeued. cbn [chat text pt_chatId pt_text pt_username pt_mode].
  rewrite trim_idempotent, Hf, Ha, Hm. cbn [option_map]. do 2 f_equal.
  set (msg := {| chat := Some chatId; text := Some raw; from := sender |}).
  assert (Hn := sender_name_truthy msg).
  unfold sender_name at 1. cbn [from username first_name first_truthy].
  now rewrite Hn.
Qed.

Lemma requeued_task_is_the_same_request_witness :
  queued_as Samples.calm (requeued Samples.waiting_task) = Some Samples.waiting_task.
Proof.
  apply (requeued_task_is_the_same_request Samples.calm (Samples.from_bob "later")).
  vm_compute. reflexivity.
Defined.

(** *** What can go wrong in a handler and in the transport *)

(** A world in which every poll fails in the same way. *)
Definition offline (code message : jsstring) : World :=
  {| TELEGRAM_BOT_TOKEN := Some (lit "token");
     TELEGRAM_ALLOWED_CHAT_IDS := Some (lit "42,7");
     WORKING_DIR_env := None;
     post_error := fun _ => None;
     query := fun _ _ => Samples.answer "done";
     fetch := fun _ _ => FetchFailed code message;
     write_fails := fun _ => false;
     existsSync := fun _ => true;
     read_log := fun _ => None;
     now := fun t => Z.of_nat t * 1000;
     status_report := fun _ => lit "status";
     cost_report := fun _ => lit "cost" |}.

(** A poll that fails returns no update and leaves the slot, the queue and
    the cursor alone; the failure is logged and counted as an error,
    unless it is the timeout of the long poll, which leaves no trace
    but the request. *)
Theorem failed_poll_is_absorbed :
  forall w s code message,
    fetch w (clock s) (lastUpdateId s + 1) = FetchFailed code message ->
    let s' := exec (getUpdates w) s in
    fst (getUpdates w s) = [] /\ kept s s' /\
    trace s' = trace s ++ EvGetUpdates (lastUpdateId s + 1)
               :: (if JS.eqb code (lit "ECONNABORTED") then []
                   else [EvLog ERROR (lit "Failed to get updates: " ++ message)]) /\
    errors (stats s') = errors (stats s)
                        + (if JS.eqb code (lit "ECONNABORTED") then 0 else 1).
Proof.
  intros w s code message Hf s'. subst s'.
  unfold getUpdates, exec, bind, get, emit, modify, ask, log, ret. mcbn.
  rewrite Hf. destruct (JS.eqb code (lit "ECONNABORTED")); cbn [negb];
    unfold bind, emit, modify; mcbn.
  - repeat split. lia.
  - repeat split. now rewrite <- app_assoc.
Qed.

Lemma failed_poll_is_absorbed_witness :
  fst (getUpdates (offline (lit "ECONNRESET") (lit "socket hang up")) Samples.idle) = [].
Proof.
  apply (failed_poll_is_absorbed (offline (lit "ECONNRESET") (lit "socket hang up"))
           Samples.idle (lit "ECONNRESET") (lit "socket hang up")).
  reflexivity.
Defined.

(** *** The loop under failure *)

Definition is_sleep (e : Event) : bool :=
  match e with EvSleep _ => true | _ => false end.

Lemma failing_poll_step : forall w s,
  (forall t off, exists code message, fetch w t off = FetchFailed code message) ->
  let s' := exec (poll_iterations w 1) s in
  lastUpdateId s' = lastUpdateId s /\
  exists evs, trace s' = trace s ++ EvGetUpdates (lastUpdateId s + 1) :: evs /\
              fetches evs = [] /\ existsb is_sleep evs = false.
Proof.
  intros w s Hf s'. subst s'.
  destruct (Hf (clock s) (lastUpdateId s + 1)) as (code & message & E).
  cbn [poll_iterations].
  unfold getUpdates, exec, bind, get, emit, modify, ask, log, ret. mcbn. rewrite E.
  destruct (JS.eqb code (lit "ECONNABORTED")); cbn [negb forward_updates];
    unfold bind, emit, modify, ret; mcbn; (split; [reflexivity|]).
  - exists []. auto.
  - eexists [_]. rewrite <- app_assoc. split; [reflexivity|]. split; reflexivity.
Qed.

Lemma poll_iterations_succ : forall w fuel s,
  exec (poll_iterations w (S fuel)) s =
  exec (poll_iterations w fuel) (exec (poll_iterations w 1) s).
Proof.
  intros. cbn [poll_iterations]. rewrite !exec_bind. reflexivity.
Qed.

(** While the transport is down the loop polls again at once: every pass
    asks for the same offset, the cursor stays where it is, and the loop
    never sleeps between two polls. *)
Theorem failing_polls_are_retried_at_once :
  forall w fuel s,
    (forall t off, exists code message, fetch w t off = FetchFailed code message) ->
    let s' := exec (poll_iterations w fuel) s in
    lastUpdateId s' = lastUpdateId s /\
    exists evs, trace s' = trace s ++ evs /\
                fetches evs = repeat (lastUpdateId s + 1) fuel /\
                existsb is_sleep evs = false.
Proof.
  intros w fuel s Hf. cbv zeta. revert s.
  induction fuel as [|fuel IH]; intros s.
  - split; [reflexivity|]. exists []. cbn. rewrite app_nil_r. auto.
  - rewrite poll_iterations_succ.
    destruct (failing_poll_step w s Hf) as (C1 & evs1 & T1 & F1 & S1).
    destruct (IH (exec (poll_iterations w 1) s)) as (C2 & evs2 & T2 & F2 & S2).
    split; [congruence|].
    exists ((EvGetUpdates (lastUpdateId s + 1) :: evs1) ++ evs2). split; [|split].
    + rewrite T2, T1, app_assoc. reflexivity.
    + rewrite fetches_app. cbn [fetches flat_map app]. fold (fetches evs1).
      rewrite F1, F2, C1. reflexivity.
    + rewrite existsb_app. cbn [existsb is_sleep]. rewrite S1, S2. reflexivity.
Qed.

Lemma failing_polls_are_retried_at_once_witness :
  lastUpdateId
    (exec (poll_iterations (offline (lit "ECONNRESET") (lit "socket hang up")) 3)
       Samples.idle) = 0.
Proof.
  apply (failing_polls_are_retried_at_once
           (offline (lit "ECONNRESET") (lit "socket hang up")) 3 Samples.idle).
  intros t off. eexists. eexists. reflexivity.
Defined.

(** A message without a chat, and a transport that delivers it in front
    of a prompt. *)
Definition no_chat : Message :=
  {| chat := None; text := Some (lit "hi"); from := None |}.

Definition headless : World :=
  {| TELEGRAM_BOT_TOKEN := Some (lit "token");
     TELEGRAM_ALLOWED_CHAT_IDS := Some (lit "42");
     WORKING_DIR_env := None;
     post_error := fun _ => None;
     query := fun _ _ => Samples.answer "done";
     fetch := fun _ _ =>
       Fetched [ {| update_id := 5; message := Some no_chat |};
                 {| update_id := 6; message := Some (Samples.from_bob "hello") |} ];
     write_fails := fun _ => false;
     existsSync := fun _ => true;
     read_log := fun _ => None;
     now := fun t => Z.of_nat t * 1000;
     status_report := fun _ => lit "status";
     cost_report := fun _ => lit "cost" |}.

(** A handler that throws ends the pass: the updates behind it in the
    batch are not forwarded, the cursor stands at the update that threw
    and was saved before the handler ran, the error is logged and counted
    once, and the loop sleeps five seconds. *)
Theorem throwing_handler_ends_the_pass :
  forall w s u rest msg,
    fetch w (clock s) (lastUpdateId s + 1) = Fetched (u :: rest) ->
    message u = Some msg -> chat msg = None ->
    let s' := exec (poll_iterations w 1) s in
    trace s' = trace s ++
      [EvGetUpdates (lastUpdateId s + 1);
       EvSaveState (update_id u) (negb (write_fails w (S (clock s))));
       EvLog ERROR (lit "Poll error: Cannot read properties of undefined (reading 'id')");
       EvSleep 5000] /\
    lastUpdateId s' = update_id u /\
    errors (stats s') = errors (stats s) + 1 /\
    messageQueue s' = messageQueue s /\ isProcessing s' = isProcessing s.
Proof.
  intros w s u rest [c t f] Hf Hm Hc s'. subst s'. cbn [chat] in Hc. subst c.
  cbn [poll_iterations].
  unfold getUpdates, exec, bind, get, emit, modify, ask, ret. mcbn. rewrite Hf.
  cbn [forward_updates]. unfold saveState, bind, emit, modify, ask, ret. mcbn.
  rewrite Hm. unfold processMessage. cbn [chat]. unfold ret.
  destruct (write_fails w (S (clock s))); unfold log, bind, emit, modify, ret; mcbn;
    rewrite <- !app_assoc; cbn [app negb]; repeat split.
Qed.

Lemma throwing_handler_ends_the_pass_witness :
  lastUpdateId (exec (poll_iterations headless 1) Samples.idle) = 5.
Proof.
  exact (proj1 (proj2 (throwing_handler_ends_the_pass headless Samples.idle
                         {| update_id := 5; message := Some no_chat |}
                         [ {| update_id := 6; message := Some (Samples.from_bob "hello") |} ]
                         no_chat eq_refl eq_refl eq_refl))).
Defined.

(** *** A post that is rejected twice *)

(** A transport that rejects every post. *)
Definition refusing : World :=
  {| TELEGRAM_BOT_TOKEN := Some (lit "token");
     TELEGRAM_ALLOWED_CHAT_IDS := Some (lit "42");
     WORKING_DIR_env := None;
     post_error := fun _ => Some (lit "Bad Request");
     query := fun _ _ => Samples.answer "done";
     fetch := fun _ _ => Fetched [];
     write_fails := fun _ => false;
     existsSync := fun _ => true;
     read_log := fun _ => None;
     now := fun t => Z.of_nat t * 1000;
     status_report := fun _ => lit "status";
     cost_report := fun _ => lit "cost" |}.

(** When a chunk is rejected and its plain-text retry is rejected too,
    [sendMessage] gives up: the chunks behind it are not sent, and the
    error of the retry is logged and counted.  Nothing is thrown to the
    caller. *)
Theorem rejected_retry_abandons_the_message :
  forall w chatId t pm s e1 e2 c rest,
    post_error w (clock s) = Some e1 ->
    post_error w (S (clock s)) = Some e2 ->
    chunks_of (effective_text t) = c :: rest ->
    let s' := exec (sendMessage w chatId t pm) s in
    let mode := match pm with
                | Some m => if falsy m then HTML else m
                | None => HTML
                end in
    let body := framed (S (length rest)) 0 c in
    trace s' = trace s ++
      [EvPost chatId body (Some mode) false;
       EvPost chatId (strip_tags body) None false;
       EvLog ERROR (lit "Failed to send message: " ++ e2)] /\
    errors (stats s') = errors (stats s) + 1.
Proof.
  intros w chatId t pm s e1 e2 c rest H1 H2 Hc. cbv zeta.
  unfold sendMessage. rewrite Hc. cbn [length send_chunks].
  unfold exec, bind, get, emit, modify, ask, log, ret. mcbn.
  rewrite H1. mcbn. rewrite H2. unfold bind, emit, modify. mcbn.
  rewrite <- !app_assoc. cbn [app]. split; reflexivity.
Qed.

Lemma rejected_retry_abandons_the_message_witness :
  errors (stats (exec (sendMessage refusing 42 (lit "<b>hi</b>") None) Samples.idle)) = 1.
Proof.
  exact (proj2 (rejected_retry_abandons_the_message refusing 42 (lit "<b>hi</b>") None
                  Samples.idle (lit "Bad Request") (lit "Bad Request")
                  (lit "<b>hi</b>") [] eq_refl eq_refl eq_refl)).
Defined.

(** *** The fan-out of an agents request *)

(** The prompts of the queries started by the events. *)
Definition started (evs : list Event) : list jsstring :=
  flat_map (fun e => match e with EvQueryStart p => [p] | _ => [] end) evs.

Lemma started_app : forall a b, started (a ++ b) = started a ++ started b.
Proof. intros. apply flat_map_app. Qed.

Lemma started_inert : forall evs, forallb inert evs = true -> started evs = [].
Proof.
  induction evs as [|e evs IH]; [reflexivity|]. cbn [forallb]. intros H.
  apply andb_true_iff in H as [He H]. destruct e; try discriminate; cbn; auto.
Qed.

Lemma started_starts : forall (f : nat * jsstring -> jsstring) l,
  started (map (fun ip => EvQueryStart (f ip)) l) = map f l.
Proof. induction l as [|x l IH]; [reflexivity|]. cbn. f_equal. exact IH. Qed.

Lemma started_ends : forall (l : list Settled),
  started (map (fun r => EvQueryEnd (settled_ok r)) l) = [].
Proof. induction l; cbn; auto. Qed.

Lemma started_op : forall (A : Type) (c : M A) s,
  inert_op c ->
  exists evs, trace (exec c s) = trace s ++ evs /\ started evs = [] /\
              isProcessing (exec c s) = isProcessing s.
Proof.
  intros A c s H. destruct (H s) as [(K & _) (evs & E & P & _)].
  exists evs. split; [exact E|]. split; [apply started_inert, P | exact K].
Qed.

Lemma runParallelAgents_started : forall w prompts chatId mode s,
  exists evs,
    trace (exec (runParallelAgents w prompts chatId mode) s) = trace s ++ evs /\
    started evs = map (fun ip => agent_prompt (SYSTEM_PROMPTS mode) (fst ip) (snd ip))
                    (combine (List.seq 0 (length prompts)) prompts) /\
    isProcessing (exec (runParallelAgents w prompts chatId mode) s) = false.
Proof.
  intros. unfold exec, runParallelAgents, run_agents.
  unfold bind, log, emit, modify, updateHealth, sendTyping, get, ret.
  cbn. rewrite start_agents_run. cbn. rewrite settle_agents_run. cbn.
  eexists. split; [repeat rewrite <- app_assoc; reflexivity|].
  split; [|reflexivity].
  cbn. rewrite !started_app, started_starts, started_ends. cbn.
  now rewrite app_nil_r.
Qed.

Lemma combine_seq_map : forall (f : nat -> jsstring) n i,
  combine (List.seq i n) (map f (List.seq i n)) = map (fun k => (k, f k)) (List.seq i n).
Proof. induction n as [|n IH]; intros i; cbn; [reflexivity|]. f_equal. apply IH. Qed.

(** An idle bridge answers a well-formed [/agents N query] by starting
    exactly min(N, 10) queries, never more than ten; agent [i] of [n] is
    given the system prompt, [Agent i task:], the trimmed query and
    [(Focus area i of n)].  No query is started by the replies around
    them, and the slot is idle again afterwards. *)
Theorem agents_fan_out_is_capped :
  forall w chatId t s p c,
    isProcessing s = false ->
    match_at re_agents (None, t) = Some (p, c) ->
    let numAgents := Z.min (parseInt_digits (group 1 c)) MAX_PARALLEL_AGENTS in
    1 <= numAgents ->
    let n := Z.to_nat numAgents in
    let s' := exec (agents_command w chatId t) s in
    exists evs,
      trace s' = trace s ++ evs /\
      started evs =
        map (fun i => SYSTEM_PROMPTS default ++ NL ++ NL
                      ++ lit "Agent " ++ String_of_nat (i + 1) ++ lit " task: "
                      ++ trim (group 2 c)
                      ++ lit " (Focus area " ++ String_of_nat (i + 1) ++ lit " of "
                      ++ String_of_nat n ++ lit ")") (List.seq 0 n) /\
      (1 <= length (started evs) <= 10)%nat /\
      isProcessing s' = false.
Proof.
  intros w chatId t s p c Hidle Hm numAgents Hn n s'.
  set (prompts := map (focus_prompt (trim (group 2 c)) n) (List.seq 0 n)).
  set (launching := lit "<b>Launching " ++ String_of_Z numAgents
                    ++ lit " parallel agents...</b>" ++ NL
                    ++ substring_to 100 (trim (group 2 c))).
  set (s1 := exec (sendMessage w chatId launching None) s).
  set (s2 := exec (runParallelAgents w prompts chatId default) s1).
  set (response := fst (runParallelAgents w prompts chatId default s1)).
  set (s3 := exec (sendMessage w chatId response None) s2).
  assert (Hs' : s' = exec (count_processed numAgents) s3).
  { unfold s', agents_command. rewrite Hm. fold numAgents.
    assert (Hlt : (numAgents <? 1) = false) by (apply Z.ltb_ge; lia).
    rewrite Hlt, exec_bind. unfold get at 1 2. unfold exec at 2. mcbn. rewrite Hidle.
    rewrite !exec_bind. reflexivity. }
  destruct (started_op _ (sendMessage w chatId launching None) s
              (inert_sendMessage _ _ _ _)) as (e1 & T1 & S1 & _). fold s1 in T1.
  destruct (runParallelAgents_started w prompts chatId default s1) as (e2 & T2 & S2 & I2).
  fold s2 in T2, I2.
  destruct (started_op _ (sendMessage w chatId response None) s2
              (inert_sendMessage _ _ _ _)) as (e3 & T3 & S3 & I3). fold s3 in T3, I3.
  destruct (started_op _ (count_processed numAgents) s3 (inert_count_processed _))
    as (e4 & T4 & S4 & I4). rewrite <- Hs' in T4, I4.
  exists (e1 ++ e2 ++ e3 ++ e4).
  assert (Hst : started (e1 ++ e2 ++ e3 ++ e4) =
                map (fun i => SYSTEM_PROMPTS default ++ NL ++ NL
                              ++ lit "Agent " ++ String_of_nat (i + 1) ++ lit " task: "
                              ++ trim (group 2 c)
                              ++ lit " (Focus area " ++ String_of_nat (i + 1) ++ lit " of "
                              ++ String_of_nat n ++ lit ")") (List.seq 0 n)).
  { rewrite !started_app, S1, S2, S3, S4, app_nil_r. cbn [app].
    unfold prompts. rewrite length_map, length_seq, combine_seq_map, map_map.
    apply map_ext. intros i. cbn [fst snd]. unfold agent_prompt, focus_prompt.
    reflexivity. }
  split; [|split; [exact Hst|split]].
  - rewrite T4, T3, T2, T1. now rewrite <- !app_assoc.
  - rewrite Hst, length_map, length_seq. unfold n, numAgents, MAX_PARALLEL_AGENTS in *. lia.
  - rewrite I4, I3. exact I2.
Qed.

Lemma agents_fan_out_is_capped_witness :
  let asked := started (trace (exec (agents_command Samples.calm 42
                                       (lit "/agents 12 compare clouds")) Samples.idle)) in
  length asked = 10%nat /\
  last asked [] = SYSTEM_PROMPTS default ++ NL ++ NL
                  ++ lit "Agent 10 task: compare clouds (Focus area 10 of 10)".
Proof.
  cbv zeta.
  destruct (match_at re_agents (None, lit "/agents 12 compare clouds"))
    as [[p c]|] eqn:E; [|vm_compute in E; discriminate].
  assert (E' := E). vm_compute in E'. injection E' as Hp Hc.
  destruct (agents_fan_out_is_capped Samples.calm 42 (lit "/agents 12 compare clouds")
              Samples.idle p c eq_refl E) as (evs & T & S & _).
  - subst c. vm_compute. discriminate.
  - rewrite T, started_app, S. subst c.
    split; vm_compute; reflexivity.
Defined.

(** *** The tail of the log *)

Lemma split_nonempty : forall sep s, split sep s <> [].
Proof.
  intros sep [|c s]; cbn; [discriminate|].
  destruct (c =? sep); [discriminate|]. destruct (split sep s); discriminate.
Qed.

Lemma split_free : forall sep s cell, In cell (split sep s) -> ~ In sep cell.
Proof.
  intros sep. induction s as [|c s IH]; cbn; intros cell H.
  - destruct H as [<- | []]. intros [].
  - destruct (c =? sep) eqn:E.
    + destruct H as [<- | H]; [intros [] | now apply IH].
    + apply Z.eqb_neq in E. destruct (split sep s) as [|x xs] eqn:Es.
      * destruct H as [<- | []]. intros [-> | []]. contradiction.
      * destruct H as [<- | H].
        -- intros [-> | Hin]; [contradiction|]. apply (IH x); [now left | exact Hin].
        -- apply IH. now right.
Qed.

Lemma join_cons : forall sep cell next rest,
  join sep (cell :: next :: rest) = cell ++ sep ++ join sep (next :: rest).
Proof. reflexivity. Qed.

Lemma join_split : forall sep s, join [sep] (split sep s) = s.
Proof.
  intros sep. induction s as [|c s IH]; [reflexivity|]. cbn [split].
  destruct (split sep s) as [|x xs] eqn:Es; [now apply split_nonempty in Es|].
  destruct (c =? sep) eqn:E.
  - apply Z.eqb_eq in E. subst c. rewrite join_cons, IH. reflexivity.
  - destruct xs as [|y ys].
    + cbn [join] in *. now rewrite IH.
    + rewrite join_cons in *. rewrite <- IH. reflexivity.
Qed.

Lemma split_cell : forall sep cell, ~ In sep cell -> split sep cell = [cell].
Proof.
  intros sep. induction cell as [|c cell IH]; intros H; [reflexivity|].
  cbn [split]. destruct (c =? sep) eqn:E.
  - apply Z.eqb_eq in E. exfalso. apply H. now left.
  - rewrite IH; [reflexivity|]. intros Hin. apply H. now right.
Qed.

Lemma split_cell_sep : forall sep cell s,
  ~ In sep cell -> split sep (cell ++ sep :: s) = cell :: split sep s.
Proof.
  intros sep. induction cell as [|c cell IH]; intros s H.
  - cbn. now rewrite Z.eqb_refl.
  - cbn [app split]. destruct (c =? sep) eqn:E.
    + apply Z.eqb_eq in E. exfalso. apply H. now left.
    + rewrite IH; [reflexivity|]. intros Hin. apply H. now right.
Qed.

Lemma split_join : forall sep cells,
  cells <> [] -> (forall cell, In cell cells -> ~ In sep cell) ->
  split sep (join [sep] cells) = cells.
Proof.
  intros sep. induction cells as [|cell cells IH]; intros Hne Hfree; [contradiction|].
  destruct cells as [|next rest].
  - cbn [join]. apply split_cell. apply Hfree. now left.
  - rewrite join_cons. cbn [app].
    rewrite split_cell_sep by (apply Hfree; now left).
    f_equal. apply IH; [discriminate|]. intros c Hc. apply Hfree. now right.
Qed.

(** [/logs] shows the last twenty lines of the log file in their order,
    all of it when it has no more than twenty lines. *)
Theorem last_lines_are_the_last_twenty :
  forall logs,
    let lines := split 10 logs in
    split 10 (last_lines logs) = skipn (length lines - 20) lines /\
    (1 <= length (split 10 (last_lines logs)) <= 20)%nat /\
    ((length lines <= 20)%nat -> last_lines logs = logs).
Proof.
  intros logs lines.
  assert (Hlen : (1 <= length lines)%nat).
  { destruct lines eqn:E; [now apply split_nonempty in E | cbn; lia]. }
  assert (Hs : split 10 (last_lines logs) = skipn (length lines - 20) lines).
  { unfold last_lines. fold lines. apply split_join.
    - intros E. apply (f_equal (@length jsstring)) in E.
      rewrite length_skipn in E. cbn in E. lia.
    - intros cell Hc. apply (split_free 10 logs).
      fold lines. rewrite <- (firstn_skipn (length lines - 20) lines).
      apply in_or_app. now right. }
  split; [exact Hs|]. split.
  - rewrite Hs, length_skipn. lia.
  - intros Hle. unfold last_lines. fold lines.
    replace (length lines - 20)%nat with 0%nat by lia. cbn [skipn].
    apply join_split.
Qed.

(** *** The formatted text *)

(** Whatever it is given, [formatForTelegram] returns a text without
    leading or trailing white space: trimming it again changes nothing,
    and unless it is empty its last unit is not white space. *)
Theorem formatted_text_is_trimmed :
  forall text,
    trim (formatForTelegram text) = formatForTelegram text /\
    (formatForTelegram text = [] \/
     exists init c, formatForTelegram text = init ++ [c] /\ is_space c = false).
Proof.
  intros text.
  assert (H : trim (formatForTelegram text) = formatForTelegram text).
  { unfold formatForTelegram. destruct (falsy text); [vm_compute; reflexivity|].
    cbv zeta. apply trim_idempotent. }
  split; [exact H|]. rewrite <- H. apply trim_last.
Qed.

(** *** A mode task that completes *)

Lemma quiet_op : forall (A : Type) (c : M A) s,
  inert_op c ->
  exists evs, trace (exec c s) = trace s ++ evs /\ forallb inert evs = true /\
              messageQueue (exec c s) = messageQueue s /\
              isProcessing (exec c s) = isProcessing s.
Proof.
  intros A c s H. destruct (H s) as [(K1 & _ & K3 & _) (evs & E & P & _)].
  exists evs. auto.
Qed.

Lemma runClaude_started : forall w prompt chatId mode s,
  exists evs,
    trace (exec (runClaude w prompt chatId mode) s) = trace s ++ evs /\
    started evs = [SYSTEM_PROMPTS mode ++ NL ++ NL ++ lit "---" ++ NL ++ NL
                   ++ lit "User request: " ++ prompt] /\
    forallb taskish evs = true /\
    messageQueue (exec (runClaude w prompt chatId mode) s) = messageQueue s /\
    isProcessing (exec (runClaude w prompt chatId mode) s) = false.
Proof.
  intros. unfold exec, runClaude.
  unfold bind, log, emit, modify, updateHealth, sendTyping, ask, get, ret.
  cbn. rewrite consume_stream_run.
  destruct (failure (query w (clock s) _)) as [e|]; cbn;
    eexists; (split; [repeat rewrite <- app_assoc; reflexivity|]);
    cbn; rewrite ?started_app, ?forallb_app; cbn;
    rewrite ?forallb_repeat by reflexivity;
    rewrite (started_inert (repeat (EvTyping chatId) _))
      by (apply forallb_repeat; reflexivity);
    repeat split.
Qed.

Lemma inert_no_immediate : forall evs,
  forallb inert evs = true -> forallb (fun e => negb (is_immediate e)) evs = true.
Proof.
  intros evs H. apply taskish_no_immediate.
  rewrite forallb_forall in *. intros e He. apply inert_taskish. auto.
Qed.

(** When a domain-mode command completes from an idle slot, the query was
    run on the mode's prompt, but the queue is left as it is and nothing
    is scheduled: a task that waits stays in the queue.  The mode
    handlers end without the drain with which the free-form path ends. *)
Theorem completed_mode_task_never_drains :
  forall w chatId raw sender mode s,
    let msg := {| chat := Some chatId; text := Some raw; from := sender |} in
    let s' := exec (processMessage w msg) s in
    isProcessing s = false ->
    isAuthorized (ALLOWED_CHAT_IDS w) chatId = true ->
    route (trim raw) = RtMode mode ->
    exists evs,
      trace s' = trace s ++ evs /\
      started evs = [SYSTEM_PROMPTS mode ++ NL ++ NL ++ lit "---" ++ NL ++ NL
                     ++ lit "User request: "
                     ++ trim (substring_from (length (mode_prefix mode)) (trim raw))] /\
      forallb (fun e => negb (is_immediate e)) evs = true /\
      messageQueue s' = messageQueue s /\
      isProcessing s' = false.
Proof.
  intros w chatId raw sender mode s msg s' Hi Ha Hr.
  assert (Ht : trim raw <> []).
  { intros E. rewrite E in Hr. vm_compute in Hr. discriminate. }
  assert (Hrun := processMessage_authorised w s chatId raw sender Ht Ha).
  fold msg in Hrun.
  set (prompt := trim (substring_from (length (mode_prefix mode)) (trim raw))).
  set (s0 := exec (log INFO (received_line (sender_name msg) (trim raw))) s) in *.
  set (banner := mode_banner mode ++ substring_to 50 prompt ++ lit "...").
  set (s1 := exec (sendMessage w chatId banner None) s0).
  set (s2 := exec (runClaude w prompt chatId mode) s1).
  set (response := fst (runClaude w prompt chatId mode s1)).
  set (s3 := exec (sendMessage w chatId response None) s2).
  destruct (quiet_op _ (log INFO (received_line (sender_name msg) (trim raw))) s
              (inert_log _ _)) as (e0 & T0 & P0 & Q0 & I0). fold s0 in T0, Q0, I0.
  assert (Hs' : s' = exec (count_processed 1) s3).
  { unfold s', exec at 1. rewrite Hrun. cbn [snd].
    unfold dispatch. rewrite Hr. unfold mode_command.
    rewrite (mode_prompt_nonempty raw mode Hr).
    rewrite exec_bind. unfold get at 1 2. unfold exec at 2. mcbn.
    rewrite I0, Hi. rewrite !exec_bind. reflexivity. }
  destruct (quiet_op _ (sendMessage w chatId banner None) s0 (inert_sendMessage _ _ _ _))
    as (e1 & T1 & P1 & Q1 & I1). fold s1 in T1, Q1, I1.
  destruct (runClaude_started w prompt chatId mode s1) as (e2 & T2 & S2 & P2 & Q2 & I2).
  fold s2 in T2, Q2, I2.
  destruct (quiet_op _ (sendMessage w chatId response None) s2 (inert_sendMessage _ _ _ _))
    as (e3 & T3 & P3 & Q3 & I3). fold s3 in T3, Q3, I3.
  destruct (quiet_op _ (count_processed 1) s3 (inert_count_processed _))
    as (e4 & T4 & P4 & Q4 & I4). rewrite <- Hs' in T4, Q4, I4.
  exists (e0 ++ e1 ++ e2 ++ e3 ++ e4). split; [|split; [|split; [|split]]].
  - rewrite T4, T3, T2, T1, T0. now rewrite <- !app_assoc.
  - rewrite !started_app, (started_inert e0 P0), (started_inert e1 P1), S2,
      (started_inert e3 P3), (started_inert e4 P4). reflexivity.
  - rewrite !forallb_app, (inert_no_immediate e0 P0), (inert_no_immediate e1 P1),
      (taskish_no_immediate e2 P2), (inert_no_immediate e3 P3),
      (inert_no_immediate e4 P4). reflexivity.
  - congruence.
  - congruence.
Qed.

Lemma completed_mode_task_never_drains_witness :
  messageQueue (exec (processMessage Samples.calm (Samples.from_bob "/finance rates"))
                  Samples.waiting) = [Samples.waiting_task].
Proof.
  destruct (completed_mode_task_never_drains Samples.calm 42 (lit "/finance rates")
              (Some {| username := Some (lit "bob"); first_name := None |})
              finance Samples.waiting)
    as (evs & _ & _ & _ & Hq & _);
    [reflexivity | vm_compute; reflexivity | vm_compute; reflexivity | exact Hq].
Defined.

End BridgeMore.
